(** * Session / turn orchestration of the interactive avatar front-end

    A shallow embedding of the TypeScript sources and the properties the
    specification states about them.  The first half of the file holds the
    model, one module per source unit:

    - [DeepClean]    : [deepClean] of [useStreamingAvatarSession.ts];
    - [Js], [Eff]    : JavaScript strings, and a state monad with
                       exceptions for [async] code with [try]/[catch];
    - [History]      : the message reducer of the streaming-avatar context;
    - [LLMChat]      : [isRetryableError], [sendChunkToAvatar] and
                       [sendToLLM] of the LLM chat hook, and [sendMessage]
                       of the text chat hook;
    - [Session]      : [init] / [start] / [handleStream] / [stop] and the
                       listeners they attach to the avatar handle, together
                       with [startSessionV2] of [InteractiveAvatar.tsx];
    - [VoiceTrigger] : the effect of [useVoiceChatLLMIntegration];
    - [RoleMapping], [CustomBackend], [OpenAIStream], [AdapterFactory] :
                       the role mapping, the two adapters' [stream] and the
                       adapter factory of [app/lib/llm];
    - [ChatRoute], [Routes] : the chat route and the three routes in front
                       of HeyGen (quota check, access token, streaming
                       task), each with the client call that reads it;
    - [AvatarFilter], [DefaultConfig] : [avatar-filter.ts] and
                       [createDefaultConfig] of [InteractiveAvatar.tsx];
    - [SessionRuns], [TurnEvents], [HistoryObs], [TriggerObs],
      [ChatClient], [Samples] : observations on runs of the above, and
                       sample inputs.

    The second half holds the proofs, one [...Facts] module per subject.

    Conventions.  A JavaScript string is a [string]; a character stands for
    one code unit below 256.  Console output and the abort timer of a fetch
    are not modelled; an aborted fetch is a fetch that rejects with an
    [AbortError].  What the network, the SDK and the user answer is an
    input of the model; what the code does to them is recorded in a trace.
    An [await] ends a step only where a property depends on it. *)

From Stdlib Require Import String Ascii List ZArith Lia Bool Arith PeanoNat.
Import ListNotations.
Local Open Scope string_scope.
Local Open Scope list_scope.
Local Open Scope nat_scope.

Set Implicit Arguments.

(* ===================================================================== *)
(** * JavaScript values and [deepClean] *)
(* ===================================================================== *)

Module DeepClean.

(** Plain data values as they occur in a [StartAvatarRequest]: an object is
    the list of its own enumerable entries in [Object.entries] order. *)
#[local] Unset Elimination Schemes.
Inductive value : Type :=
| VUndefined
| VNull
| VBool (b : bool)
| VNum (n : Z)
| VStr (s : string)
| VArr (items : list value)
| VObj (entries : list (string * value)).
#[local] Set Elimination Schemes.

Definition is_undefined (v : value) : bool :=
  match v with VUndefined => true | _ => false end.


(** [acc[key] = v]: overwrite the property in place, or add it last. *)
Fixpoint set_prop (acc : list (string * value)) (key : string) (v : value)
  : list (string * value) :=
  match acc with
  | [] => [(key, v)]
  | (k, w) :: rest =>
      if String.eqb key k then (k, v) :: rest
      else (k, w) :: set_prop rest key v
  end.

(** <<
    function deepClean<T>(obj: T): T {
      if (obj === null || obj === undefined) return obj;
      if (Array.isArray(obj)) return obj.map(deepClean);
      if (typeof obj === "object")
        return Object.entries(obj).reduce((acc, [key, value]) => {
          if (value !== undefined) acc[key] = deepClean(value);
          return acc;
        }, {});
      return obj;
    }
    >> *)
Fixpoint deepClean (obj : value) : value :=
  match obj with
  | VNull => VNull
  | VUndefined => VUndefined
  | VArr items => VArr (map deepClean items)
  | VObj entries =>
      VObj (fold_left
              (fun acc kv =>
                 match kv with
                 | (key, v) =>
                     if is_undefined v then acc
                     else set_prop acc key (deepClean v)
                 end)
              entries [])
  | other => other
  end.

(** The reducer of the object case, with the recursive call abstracted. *)
Definition clean_step (acc : list (string * value)) (kv : string * value)
  : list (string * value) :=
  if is_undefined (snd kv) then acc
  else set_prop acc (fst kv) (deepClean (snd kv)).

Definition clean_entries (entries acc : list (string * value)) :=
  fold_left clean_step entries acc.

(** No property, at any depth below [v], is bound to [undefined]. *)
Fixpoint no_undefined_keys (v : value) : bool :=
  match v with
  | VArr items => forallb no_undefined_keys items
  | VObj entries =>
      forallb (fun kv => negb (is_undefined (snd kv)) && no_undefined_keys (snd kv))
              entries
  | _ => true
  end.


Definition keys (o : list (string * value)) : list string := map fst o.

(** ** Predicates used in the proofs *)

(** A value that is defined, already clean, and free of undefined keys. *)
Definition settled (v : value) : Prop :=
  is_undefined v = false /\ deepClean v = v /\ no_undefined_keys v = true.

End DeepClean.

(* ===================================================================== *)
(** * JavaScript string helpers *)
(* ===================================================================== *)

Module Js.

(** White space as [String.prototype.trim] and the regular-expression class
    [\s] see it, restricted to code units below 256: TAB, LF, VT, FF, CR,
    SPACE and NBSP. *)
Definition is_space (c : ascii) : bool :=
  let n := nat_of_ascii c in
  ((9 <=? n) && (n <=? 13)) || (n =? 32) || (n =? 160).

Fixpoint trimStart (s : string) : string :=
  match s with
  | EmptyString => EmptyString
  | String c rest => if is_space c then trimStart rest else s
  end.

Fixpoint trimEnd (s : string) : string :=
  match s with
  | EmptyString => EmptyString
  | String c rest =>
      match trimEnd rest with
      | EmptyString => if is_space c then EmptyString else String c EmptyString
      | kept => String c kept
      end
  end.

Definition trim (s : string) : string := trimEnd (trimStart s).

(** A string is truthy when it is not empty. *)
Definition truthy (s : string) : bool :=
  match s with EmptyString => false | _ => true end.

(** [!x] for [x : string | null]. *)
Definition falsy_opt (x : option string) : bool :=
  match x with None => true | Some s => negb (truthy s) end.

(** [hay.includes(needle)] *)
Fixpoint includes (needle hay : string) : bool :=
  if String.prefix needle hay then true
  else match hay with
       | EmptyString => false
       | String _ rest => includes needle rest
       end.

Definition is_digit (c : ascii) : bool :=
  let n := nat_of_ascii c in (48 <=? n) && (n <=? 57).

Definition digit_value (c : ascii) : nat := nat_of_ascii c - 48.

(** [parseInt(s.match(/(\d{3})/)[1])]: the number written by the first three
    consecutive decimal digits of [s], if there are any. *)
Fixpoint match_three_digits (s : string) : option nat :=
  match s with
  | EmptyString => None
  | String a rest =>
      match rest with
      | String b (String c _) =>
          if is_digit a && is_digit b && is_digit c
          then Some (100 * digit_value a + 10 * digit_value b + digit_value c)
          else match_three_digits rest
      | _ => None
      end
  end.

Definition digit_char (d : nat) : ascii := ascii_of_nat (48 + d).

(** [`${status}`] for an HTTP status code, which has three digits. *)
Definition status_string (status : nat) : string :=
  String (digit_char (status / 100))
    (String (digit_char ((status / 10) mod 10))
       (String (digit_char (status mod 10)) EmptyString)).

(** [response.ok] *)
Definition status_ok (status : nat) : bool :=
  (200 <=? status) && (status <=? 299).

Definition is_sentence_end (c : ascii) : bool :=
  let n := nat_of_ascii c in (n =? 46) || (n =? 33) || (n =? 63).

(** [SENTENCE_ENDING_REGEX = /[.!?]+(\s|$)/] anchored at the start of [s]:
    the length of the match.  The greedy run of terminators must be followed
    by white space or by the end of the string; a shorter run is followed by
    a terminator, so backtracking finds nothing more. *)
Fixpoint sentence_end_at (s : string) : option nat :=
  match s with
  | EmptyString => None
  | String c rest =>
      if is_sentence_end c then
        match rest with
        | EmptyString => Some 1
        | String d _ =>
            if is_sentence_end d then option_map S (sentence_end_at rest)
            else if is_space d then Some 2
            else None
        end
      else None
  end.

(** [s.match(SENTENCE_ENDING_REGEX)]: [(match.index, match[0].length)] of
    the leftmost match. *)
Fixpoint sentence_match (s : string) : option (nat * nat) :=
  match sentence_end_at s with
  | Some len => Some (0, len)
  | None =>
      match s with
      | EmptyString => None
      | String _ rest =>
          match sentence_match rest with
          | Some (i, len) => Some (S i, len)
          | None => None
          end
      end
  end.

(** [s.substring(n)] *)
Definition substring_from (n : nat) (s : string) : string :=
  String.substring n (String.length s - n) s.

End Js.

(* ===================================================================== *)
(** * Effects: a state monad with exceptions *)
(* ===================================================================== *)

Module Eff.

(** A JavaScript [Error]: its [name] and its [message]. *)
Record JsError : Type := mkError { name : string; message : string }.

Definition Error (msg : string) : JsError := mkError "Error" msg.

Inductive outcome (A : Type) : Type :=
| Returned (a : A)
| Thrown (e : JsError).
Arguments Returned {A} a.
Arguments Thrown {A} e.

(** A computation over a world [W] that returns or throws. *)
Definition M (W A : Type) : Type := W -> outcome A * W.

Definition ret {W A} (a : A) : M W A := fun w => (Returned a, w).

Definition bind {W A B} (m : M W A) (k : A -> M W B) : M W B :=
  fun w =>
    match m w with
    | (Returned a, w') => k a w'
    | (Thrown e, w') => (Thrown e, w')
    end.

Definition throw {W A} (e : JsError) : M W A := fun w => (Thrown e, w).

(** [try { body } catch (e) { handler e }] *)
Definition try_catch {W A} (body : M W A) (handler : JsError -> M W A) : M W A :=
  fun w =>
    match body w with
    | (Returned a, w') => (Returned a, w')
    | (Thrown e, w') => handler e w'
    end.

(** [try { body } finally { cleanup }], for a cleanup that does not throw. *)
Definition finally {W A} (body : M W A) (cleanup : W -> W) : M W A :=
  fun w => let (r, w') := body w in (r, cleanup w').

Definition modify {W} (f : W -> W) : M W unit := fun w => (Returned tt, f w).

Definition gets {W A} (f : W -> A) : M W A := fun w => (Returned (f w), w).

Definition when {W} (b : bool) (m : M W unit) : M W unit :=
  if b then m else ret tt.

Module Notations.
  Declare Scope eff_scope.
  Delimit Scope eff_scope with eff.
  Notation "x <- m ;; k" := (bind m (fun x => k))
    (at level 61, m at next level, right associativity) : eff_scope.
  Notation "m ;;; k" := (bind m (fun _ => k))
    (at level 61, right associativity) : eff_scope.
End Notations.

End Eff.

(* ===================================================================== *)
(** * Shared enumerations ([types.ts]) *)
(* ===================================================================== *)

Inductive StreamingAvatarSessionState : Type :=
| INACTIVE
| CONNECTING
| CONNECTED.

Inductive MessageSender : Type :=
| CLIENT
| AVATAR.

Definition sender_eqb (a b : MessageSender) : bool :=
  match a, b with
  | CLIENT, CLIENT | AVATAR, AVATAR => true
  | _, _ => false
  end.

Definition state_eqb (a b : StreamingAvatarSessionState) : bool :=
  match a, b with
  | INACTIVE, INACTIVE | CONNECTING, CONNECTING | CONNECTED, CONNECTED => true
  | _, _ => false
  end.

(** [interface Message] *)
Record Message : Type := mkMessage {
  id : string;
  sender : MessageSender;
  content : string;
  isComplete : bool
}.

(* ===================================================================== *)
(** * The message history reducer ([useStreamingAvatarMessageState]) *)
(* ===================================================================== *)

Module History.

(** [messages] (React state) and [currentSenderRef]. *)
Record state : Type := mkState {
  messages : list Message;
  currentSenderRef : option MessageSender
}.

Definition initial : state := mkState [] None.

(** [prev[prev.length - 1]] *)
Definition last_message (prev : list Message) : option Message :=
  last (map Some prev) None.

(** <<
    (prev) => [
      ...prev.slice(0, -1),
      { ...prev[prev.length - 1],
        content: [prev[prev.length - 1].content, detail.message].join(""),
        isComplete: false },
    ]
    >>
    Reading [.content] of [prev[-1]] throws a [TypeError] when [prev] is
    empty: that is [None]. *)
Definition extend_last (text : string) (prev : list Message)
  : option (list Message) :=
  match last_message prev with
  | None => None
  | Some m =>
      Some (removelast prev
              ++ [mkMessage (id m) (sender m) (content m ++ text)%string false])
  end.

(** The two branches shared by both talking-message handlers; [now] is
    [Date.now().toString()]. *)
Definition talking (who : MessageSender) (now text : string) (st : state)
  : option state :=
  match currentSenderRef st with
  | Some cur =>
      if sender_eqb cur who then
        match extend_last text (messages st) with
        | Some ms => Some (mkState ms (currentSenderRef st))
        | None => None
        end
      else
        Some (mkState (messages st ++ [mkMessage now who text false]) (Some who))
  | None =>
      Some (mkState (messages st ++ [mkMessage now who text false]) (Some who))
  end.

Definition handleUserTalkingMessage (now text : string) (st : state)
  : option state :=
  talking CLIENT now text st.

(** [suppressAvatarEvents] is the value the provider passed to the hook at
    the render in which the handler was created. *)
Definition handleStreamingTalkingMessage (suppressAvatarEvents : bool)
  (now text : string) (st : state) : option state :=
  if suppressAvatarEvents then Some st
  else talking AVATAR now text st.

Definition handleEndMessage (st : state) : state :=
  mkState
    (match last_message (messages st) with
     | None => messages st
     | Some m =>
         removelast (messages st)
           ++ [mkMessage (id m) (sender m) (content m) true]
     end)
    None.

Definition addTextMessage (now : string) (who : MessageSender)
  (text : string) (st : state) : state :=
  mkState (messages st ++ [mkMessage now who text true]) (currentSenderRef st).

Definition clearMessages (st : state) : state := mkState [] None.

(** A partial-transcript event as the SDK delivers it to the handler
    registered for its sender. *)
Definition partial (suppressAvatarEvents : bool) (who : MessageSender)
  (now text : string) (st : state) : option state :=
  match who with
  | CLIENT => handleUserTalkingMessage now text st
  | AVATAR => handleStreamingTalkingMessage suppressAvatarEvents now text st
  end.

(** A run of partial-transcript events [(now, text)] of one sender. *)
Fixpoint partials (suppressAvatarEvents : bool) (who : MessageSender)
  (events : list (string * string)) (st : state) : option state :=
  match events with
  | [] => Some st
  | (now, text) :: rest =>
      match partial suppressAvatarEvents who now text st with
      | Some st' => partials suppressAvatarEvents who rest st'
      | None => None
      end
  end.

(** [texts.join("")] *)
Definition join (texts : list string) : string := String.concat "" texts.

(** The events of the reducer, for reachability. *)
Inductive event : Type :=
| UserTalking (now text : string)
| AvatarTalking (suppressAvatarEvents : bool) (now text : string)
| EndMessage
| AddText (now : string) (who : MessageSender) (text : string)
| Clear.

Definition apply (e : event) (st : state) : option state :=
  match e with
  | UserTalking now text => handleUserTalkingMessage now text st
  | AvatarTalking sup now text => handleStreamingTalkingMessage sup now text st
  | EndMessage => Some (handleEndMessage st)
  | AddText now who text => Some (addTextMessage now who text st)
  | Clear => Some (clearMessages st)
  end.

Inductive reachable : state -> Prop :=
| reach_initial : reachable initial
| reach_apply e st st' :
    reachable st -> apply e st = Some st' -> reachable st'.

(** The message the claim calls open: the last one, still incomplete. *)
Definition open_message (st : state) : option Message :=
  match last_message (messages st) with
  | Some m => if isComplete m then None else Some m
  | None => None
  end.

(** ** Predicates used in the proofs *)

(** Which sender the tracker names has the last message. *)
Definition tracker_has_message (st : state) : Prop :=
  currentSenderRef st <> None -> messages st <> [].

(** The property as the claim words it: the run succeeds and leaves an
    open message whose content is the concatenation of the texts. *)
Definition concatenates (suppress : bool) (who : MessageSender)
  (events : list (string * string)) (st : state) : Prop :=
  exists st' m,
    partials suppress who events st = Some st'
    /\ open_message st' = Some m
    /\ sender m = who
    /\ content m = join (map snd events)
    /\ isComplete m = false.

End History.

(* ===================================================================== *)
(** * The LLM chat hook: retry, sentence batching and speech dispatch *)
(* ===================================================================== *)

Module LLMChat.

Import Eff Eff.Notations Js.
Local Open Scope eff_scope.

Definition MAX_BUFFER_LENGTH : nat := 500.
Definition CHUNK_DELAY_MS : Z := 800.
Definition MAX_RETRY_ATTEMPTS : nat := 3.
Definition INITIAL_RETRY_DELAY_MS : Z := 1000.
Definition MAX_CHUNK_RETRIES : nat := 2.
Definition CHUNK_RETRY_DELAY : Z := 500.

(** <<
    const isRetryableError = (error) => {
      if (error instanceof Error) {
        if (error.name === 'AbortError') return true;
        if (error.message.includes('Failed to fetch') ||
            error.message.includes('network')) return true;
        const statusMatch = error.message.match(/(\d{3})/);
        if (statusMatch) {
          const status = parseInt(statusMatch[1]);
          return status >= 500 && status < 600;
        }
      }
      return false;
    };
    >> *)
Definition isRetryableError (error : JsError) : bool :=
  if String.eqb (name error) "AbortError" then true
  else if includes "Failed to fetch" (message error)
          || includes "network" (message error) then true
  else match match_three_digits (message error) with
       | Some status => (500 <=? status) && (status <? 600)
       | None => false
       end.

(** ** What the hook observes of its environment *)

(** One request to [/api/streaming-task]: the fetch rejects, or it answers
    with a status and a body that [response.json()] can or cannot parse. *)
Inductive tts_outcome : Type :=
| TtsRejects (e : JsError)
| TtsResponse (status : nat) (body_is_json : bool).

(** One line of the NDJSON stream after [JSON.parse]: the truthy parts of
    [data.error] and [data.content] (the empty string when falsy or absent)
    and [data.done]. *)
Record line_data : Type := mkLine {
  l_error : string;
  l_content : string;
  l_done : bool
}.

(** One [reader.read()] value: its non-blank lines, [None] for a line that
    [JSON.parse] rejects. *)
Definition net_chunk : Type := list (option line_data).

(** The body of a response: the values read, then [done], or a rejected
    read. *)
Record body_stream : Type := mkBody {
  chunks : list net_chunk;
  read_error : option JsError
}.

(** One request to [/api/chat]: the fetch rejects (network failure, or the
    30-second abort), or it answers. [body = None] is a response without a
    readable body. *)
Inductive llm_outcome : Type :=
| LlmRejects (e : JsError)
| LlmResponse (status : nat) (statusText : string) (body : option body_stream).

Record env : Type := mkEnv {
  sessionId : option string;
  sessionToken : option string;
  llm : nat -> llm_outcome;          (* by attempt number, from 1 *)
  tts : nat -> tts_outcome;          (* by request number, from 0 *)
  avatar_present : bool;             (* avatarRef.current !== null *)
  sessionState : StreamingAvatarSessionState;
  speak_error : option JsError       (* avatar.speak throws *)
}.

(** ** What the hook does to its environment *)

Inductive event : Type :=
| FetchChat (message : string)
| FetchStreamingTask (text : string)
| Sleep (ms : Z)
| SetIsLLMProcessing (b : bool)
| SetCurrentLLMResponse (s : string)
| SetLLMError (e : option string)
| SetSuppressAvatarEvents (b : bool)
| AddTextMessage (who : MessageSender) (text : string)
| Speak (text : string).

Record world : Type := mkWorld {
  chat_requests : nat;
  tts_requests : nat;
  trace : list event
}.

Definition world0 : world := mkWorld 0 0 [].

Definition record (e : event) (w : world) : world :=
  mkWorld (chat_requests w) (tts_requests w) (trace w ++ [e]).

Definition emit (e : event) : M world unit := modify (record e).

Definition sleep (ms : Z) : M world unit := emit (Sleep ms).

(** [fetch("/api/streaming-task", { body: { ..., text, task_type } })] *)
Definition fetch_streaming_task (E : env) (text : string)
  : M world (nat * bool) :=
  fun w =>
    let w' := mkWorld (chat_requests w) (S (tts_requests w))
                      (trace w ++ [FetchStreamingTask text]) in
    match tts E (tts_requests w) with
    | TtsRejects e => (Thrown e, w')
    | TtsResponse status body_is_json => (Returned (status, body_is_json), w')
    end.

(** [await response.json()] *)
Definition response_json (body_is_json : bool) : M world unit :=
  if body_is_json then ret tt
  else throw (mkError "SyntaxError" "Unexpected token in JSON").

Inductive loop_ctl : Type :=
| Continue
| Return.

(** The body of the [for] loop of [sendChunkToAvatar]. *)
Definition chunk_attempt (E : env) (text : string) (attempt : nat)
  : M world loop_ctl :=
  try_catch
    (response <- fetch_streaming_task E text ;;
     response_json (snd response) ;;;
     if negb (status_ok (fst response)) then
       if (fst response =? 500) && (attempt <? MAX_CHUNK_RETRIES) then
         sleep CHUNK_RETRY_DELAY ;;; ret Continue
       else ret Return
     else ret Return)
    (fun _ =>
       if attempt <? MAX_CHUNK_RETRIES then
         sleep CHUNK_RETRY_DELAY ;;; ret Continue
       else ret Return).

(** [for (let attempt = 1; attempt <= MAX_CHUNK_RETRIES; attempt++) body] *)
Fixpoint for_attempts (body : nat -> M world loop_ctl) (attempts : list nat)
  : M world unit :=
  match attempts with
  | [] => ret tt
  | attempt :: rest =>
      c <- body attempt ;;
      match c with
      | Continue => for_attempts body rest
      | Return => ret tt
      end
  end.

Definition sendChunkToAvatar (E : env) (text : string) : M world unit :=
  if falsy_opt (sessionId E) || falsy_opt (sessionToken E) then ret tt
  else for_attempts (chunk_attempt E text) (seq 1 MAX_CHUNK_RETRIES).

(** ** Sentence batching *)

(** [accumulatedResponse] and [sentenceBuffer] of one attempt. *)
Record relay_state : Type := mkRelay {
  accumulatedResponse : string;
  sentenceBuffer : string
}.

(** [lastSentenceEnd]: [-1], or [match.index + match[0].length]. *)
Definition lastSentenceEnd (sentenceBuffer : string) : Z :=
  match sentence_match sentenceBuffer with
  | Some (index, len) => Z.of_nat (index + len)
  | None => (-1)%Z
  end.

(** The batch decision on the buffer: [(textToSend, remainingText)] when a
    batch is sent. *)
Definition next_batch (sentenceBuffer : string) : option (string * string) :=
  let lse := lastSentenceEnd sentenceBuffer in
  if (0 <? lse)%Z || (MAX_BUFFER_LENGTH <? String.length sentenceBuffer) then
    let textToSend :=
      if (0 <? lse)%Z then trim (String.substring 0 (Z.to_nat lse) sentenceBuffer)
      else trim sentenceBuffer in
    let remainingText :=
      if (0 <? lse)%Z then substring_from (Z.to_nat lse) sentenceBuffer
      else EmptyString in
    if 0 <? String.length textToSend then Some (textToSend, remainingText)
    else None
  else None.

Section Relay.

Variable send : string -> M world unit.

(** The [if (data.content)] block. *)
Definition on_content (st : relay_state) (content : string)
  : M world relay_state :=
  let acc := (accumulatedResponse st ++ content)%string in
  emit (SetCurrentLLMResponse acc) ;;;
  let buf := (sentenceBuffer st ++ content)%string in
  match next_batch buf with
  | Some (textToSend, remainingText) =>
      send textToSend ;;;
      sleep CHUNK_DELAY_MS ;;;
      ret (mkRelay acc remainingText)
  | None => ret (mkRelay acc buf)
  end.

(** [JSON.parse(line)] *)
Definition json_parse (line : option line_data) : M world line_data :=
  match line with
  | Some data => ret data
  | None => throw (mkError "SyntaxError" "Unexpected token in JSON")
  end.

(** One iteration of [for (const line of lines)]: the new state, and
    whether the loop is left by [break]. *)
Definition process_line (st : relay_state) (line : option line_data)
  : M world (relay_state * bool) :=
  try_catch
    (data <- json_parse line ;;
     (if truthy (l_error data) then throw (Error (l_error data)) else ret tt) ;;;
     st' <- (if truthy (l_content data) then on_content st (l_content data)
             else ret st) ;;
     ret (st', l_done data))
    (fun _ => ret (st, false)).

Fixpoint process_lines (st : relay_state) (lines : net_chunk)
  : M world relay_state :=
  match lines with
  | [] => ret st
  | line :: rest =>
      r <- process_line st line ;;
      if snd r then ret (fst r) else process_lines (fst r) rest
  end.

(** The [if (done)] block: the remainder of the buffer is the last batch. *)
Definition flush (st : relay_state) : M world relay_state :=
  if 0 <? String.length (trim (sentenceBuffer st)) then
    send (trim (sentenceBuffer st)) ;;;
    ret (mkRelay (accumulatedResponse st) EmptyString)
  else ret st.

(** [while (true) { const { done, value } = await reader.read(); ... }] *)
Fixpoint read_loop (values : list net_chunk) (read_error : option JsError)
  (st : relay_state) : M world relay_state :=
  match values with
  | [] =>
      match read_error with
      | Some e => throw e
      | None => flush st
      end
  | value :: rest =>
      st' <- process_lines st value ;;
      read_loop rest read_error st'
  end.

End Relay.

(** ** The LLM turn *)

Record LLMChatResponse : Type := mkResponse {
  success : bool;
  response : option string;
  error : option string
}.

(** [fetch("/api/chat", ...)] *)
Definition fetch_chat (E : env) (userMessage : string)
  : M world (nat * string * option body_stream) :=
  fun w =>
    let w' := mkWorld (S (chat_requests w)) (tts_requests w)
                      (trace w ++ [FetchChat userMessage]) in
    match llm E (S (chat_requests w)) with
    | LlmRejects e => (Thrown e, w')
    | LlmResponse status statusText body =>
        (Returned (status, statusText, body), w')
    end.

(** [`LLM API request failed: ${response.status} ${response.statusText}`] *)
Definition failure_message (status : nat) (statusText : string) : string :=
  ("LLM API request failed: " ++ status_string status ++ " " ++ statusText)%string.

(** The [try] block of one attempt. *)
Definition attempt_body (E : env) (userMessage : string)
  : M world LLMChatResponse :=
  r <- fetch_chat E userMessage ;;
  match r with
  | (status, statusText, body) =>
      if negb (status_ok status) then
        throw (Error (failure_message status statusText))
      else
        match body with
        | None => throw (Error "Response body is not readable")
        | Some stream =>
            st <- read_loop (sendChunkToAvatar E) (chunks stream)
                    (read_error stream) (mkRelay EmptyString EmptyString) ;;
            if negb (truthy (accumulatedResponse st))
               || String.eqb (trim (accumulatedResponse st)) EmptyString then
              throw (Error "LLM returned an empty response")
            else
              emit (AddTextMessage AVATAR (accumulatedResponse st)) ;;;
              ret (mkResponse true (Some (accumulatedResponse st)) None)
        end
  end.

Definition state_name (s : StreamingAvatarSessionState) : string :=
  match s with
  | INACTIVE => "inactive"
  | CONNECTING => "connecting"
  | CONNECTED => "connected"
  end.

(** [sendMessage] of [useTextChat]. *)
Definition sendMessage (E : env) (message : string) : M world unit :=
  if negb (avatar_present E) then ret tt
  else if negb (state_eqb (sessionState E) CONNECTED) then
    throw (Error ("Avatar session is not connected (current state: "
                    ++ state_name (sessionState E) ++ ")")%string)
  else if negb (truthy message) || String.eqb (trim message) EmptyString then
    ret tt
  else
    emit (Speak message) ;;;
    match speak_error E with
    | Some e => throw e
    | None => ret tt
    end.

Definition timeout_fallback : string :=
  "I apologize, but my response timed out after multiple attempts. The system may be experiencing high load. Please try again later.".

Definition error_fallback : string :=
  "I apologize, but I encountered an error processing your request after multiple attempts. Please try again.".

(** The code after the retry loop. *)
Definition after_loop (E : env) (lastError : option JsError)
  : M world LLMChatResponse :=
  match lastError with
  | Some e =>
      let aborted := String.eqb (name e) "AbortError" in
      let errorMessage :=
        if aborted then
          "Request timed out after 3 attempts. The LLM backend may be unavailable or overloaded."
        else message e in
      emit (SetLLMError (Some errorMessage)) ;;;
      emit (SetCurrentLLMResponse EmptyString) ;;;
      try_catch
        (sendMessage E (if aborted then timeout_fallback else error_fallback))
        (fun _ => ret tt) ;;;
      ret (mkResponse false None (Some errorMessage))
  | None =>
      ret (mkResponse false None (Some "Unknown error: no attempts made"))
  end.

(** [INITIAL_RETRY_DELAY_MS * Math.pow(2, attempt - 1)] *)
Definition backoff (attempt : nat) : Z :=
  (INITIAL_RETRY_DELAY_MS * 2 ^ Z.of_nat (attempt - 1))%Z.

(** [while (attempt < MAX_RETRY_ATTEMPTS) { attempt++; try ... catch ... }]:
    the loop runs for [attempt = 1, 2, 3] unless it is left earlier. *)
Fixpoint attempt_loop (E : env) (userMessage : string) (attempts : list nat)
  (lastError : option JsError) : M world LLMChatResponse :=
  match attempts with
  | [] => after_loop E lastError
  | attempt :: rest =>
      fun w =>
        match attempt_body E userMessage w with
        | (Returned r, w') => (Returned r, w')
        | (Thrown e, w') =>
            if isRetryableError e && (attempt <? MAX_RETRY_ATTEMPTS) then
              (sleep (backoff attempt) ;;;
               attempt_loop E userMessage rest (Some e)) w'
            else after_loop E (Some e) w'
        end
  end.

Definition sendToLLM (E : env) (userMessage : string)
  (skipAddingToHistory : bool) : M world LLMChatResponse :=
  finally
    (emit (SetIsLLMProcessing true) ;;;
     emit (SetCurrentLLMResponse EmptyString) ;;;
     emit (SetLLMError None) ;;;
     emit (SetSuppressAvatarEvents true) ;;;
     when (negb skipAddingToHistory) (emit (AddTextMessage CLIENT userMessage)) ;;;
     attempt_loop E userMessage (seq 1 MAX_RETRY_ATTEMPTS) None)
    (fun w => record (SetSuppressAvatarEvents false)
                (record (SetIsLLMProcessing false) w)).

(** ** Observations on a trace *)

Definition is_chat_fetch (e : event) : bool :=
  match e with FetchChat _ => true | _ => false end.

(** The number of requests sent to [/api/chat]. *)
Definition chat_fetches (t : list event) : nat :=
  List.length (filter is_chat_fetch t).

(** The texts sent to [/api/streaming-task], in order. *)
Fixpoint spoken (t : list event) : list string :=
  match t with
  | [] => []
  | FetchStreamingTask text :: rest => text :: spoken rest
  | _ :: rest => spoken rest
  end.

(** The messages handed to [addTextMessage], in order. *)
Fixpoint history_added (t : list event) : list (MessageSender * string) :=
  match t with
  | [] => []
  | AddTextMessage who text :: rest => (who, text) :: history_added rest
  | _ :: rest => history_added rest
  end.

(** A stream that carries the given content fragments and nothing else:
    one line per fragment, grouped into reads as given. *)
Definition content_line (fragment : string) : option line_data :=
  Some (mkLine EmptyString fragment false).

Definition content_stream (reads : list (list string)) : list net_chunk :=
  map (map content_line) reads.

(** An environment with a live session in which every speech request is
    answered with [200] and a JSON body. *)
Definition speech_accepts (E : env) : Prop :=
  falsy_opt (sessionId E) = false /\
  falsy_opt (sessionToken E) = false /\
  forall k, tts E k = TtsResponse 200 true.

(** ** The relay seen from outside *)

(** What one content fragment does to the buffer: the batch sent, if any,
    and the buffer left ([on_content] without its effects). *)
Definition batch_step (buf fragment : string) : list string * string :=
  if truthy fragment then
    match next_batch (buf ++ fragment)%string with
    | Some (textToSend, remainingText) => ([textToSend], remainingText)
    | None => ([], (buf ++ fragment)%string)
    end
  else ([], buf).

Fixpoint batches (buf : string) (fragments : list string)
  : list string * string :=
  match fragments with
  | [] => ([], buf)
  | f :: rest =>
      let (sent, buf') := batch_step buf f in
      let (sent', buf'') := batches buf' rest in
      (sent ++ sent', buf'')
  end.

(** The batch [flush] sends at the end of the stream. *)
Definition last_batch (buf : string) : list string :=
  if 0 <? String.length (trim buf) then [trim buf] else [].

(** All batches of a stream of content fragments, in order. *)
Definition chunks_of (fragments : list string) : list string :=
  let (sent, buf) := batches EmptyString fragments in sent ++ last_batch buf.

(** The text a stream delivers: the contents of the lines the loop reads,
    up to a line marked [done] within each read. *)
Fixpoint line_texts (lines : net_chunk) : string :=
  match lines with
  | [] => EmptyString
  | None :: rest => line_texts rest
  | Some data :: rest =>
      if truthy (l_error data) then line_texts rest
      else (l_content data
              ++ (if l_done data then EmptyString else line_texts rest))%string
  end.

Fixpoint received (values : list net_chunk) : string :=
  match values with
  | [] => EmptyString
  | value :: rest => (line_texts value ++ received rest)%string
  end.

(** ** Every way of cutting a text into fragments *)

(** A relay configuration: the buffer and the batches sent so far. *)
Definition config : Type := (string * list string)%type.

Definition config_eqb (a b : config) : bool :=
  String.eqb (fst a) (fst b)
  && (if list_eq_dec string_dec (snd a) (snd b) then true else false).

Definition advance (c : config) (fragment : string) : config :=
  let (sent, buf) := batch_step (fst c) fragment in (buf, snd c ++ sent).

(** The ways of taking a non-empty first fragment off [s]. *)
Fixpoint splits (s : string) : list (string * string) :=
  match s with
  | EmptyString => []
  | String c rest =>
      (String c EmptyString, rest)
        :: map (fun fr => (String c (fst fr), snd fr)) (splits rest)
  end.

(** A table from the text still to come to the configurations the relay
    can be in at that point. *)
Definition table : Type := list (string * list config).

Definition lookup (t : table) (s : string) : list config :=
  match find (fun e => String.eqb (fst e) s) t with
  | Some e => snd e
  | None => []
  end.

Definition insert (s : string) (c : config) (t : table) : table :=
  if existsb (fun e => String.eqb (fst e) s) t then
    map (fun e =>
           if String.eqb (fst e) s then
             if existsb (config_eqb c) (snd e) then e else (fst e, snd e ++ [c])
           else e) t
  else t ++ [(s, [c])].

(** All suffixes of [s], longest first. *)
Fixpoint suffixes (s : string) : list string :=
  s :: match s with
       | EmptyString => []
       | String _ rest => suffixes rest
       end.

(** Push every configuration known at [s] along every first fragment. *)
Definition expand (t : table) (s : string) : table :=
  fold_left
    (fun t' c =>
       fold_left (fun t'' fr => insert (snd fr) (advance c (fst fr)) t'')
                 (splits s) t')
    (lookup t s) t.

Definition reach_table (text : string) : table :=
  fold_left expand (suffixes text) [(text, [(EmptyString, [])])].

(** The table is closed under taking a first fragment. *)
Definition closed (t : table) : bool :=
  forallb
    (fun e =>
       forallb
         (fun c =>
            forallb
              (fun fr =>
                 existsb (config_eqb (advance c (fst fr))) (lookup t (snd fr)))
              (splits (fst e)))
         (snd e))
    t.

(** Every configuration at the end of the text has sent [expected] once
    the buffer is flushed. *)
Definition ends_with (t : table) (expected : list string) : bool :=
  forallb
    (fun c =>
       if list_eq_dec string_dec (snd c ++ last_batch (fst c)) expected
       then true else false)
    (lookup t EmptyString).

Definition hello_text : string := "Hello world. How are you? ".

Definition hello_table : table := Eval vm_compute in reach_table hello_text.

(** ** Sample environments *)

Definition no_body : option body_stream := None.

(** A live session whose speech endpoint accepts everything; the LLM
    endpoint answers as [answers] says. *)
Definition live_env (answers : nat -> llm_outcome) : env :=
  mkEnv (Some "session-1") (Some "session-token") answers
        (fun _ => TtsResponse 200 true) true CONNECTED None.

Definition hello_stream : body_stream :=
  mkBody (content_stream [["Hello world. How"]; [" are you? "]]) None.

(** ** Predicates used in the proofs *)

(** The world after one request for [text]. *)
Definition requested (text : string) (w : world) : world :=
  mkWorld (chat_requests w) (S (tts_requests w))
          (trace w ++ [FetchStreamingTask text]).

(** The outcomes after which the first attempt is followed by a second:
    a rejected fetch, a body that is not JSON, or status 500. *)
Definition retried (o : tts_outcome) : bool :=
  match o with
  | TtsRejects _ => true
  | TtsResponse status body_is_json => negb body_is_json || (status =? 500)
  end.

(** [w'] is [w] with some events added, all of them satisfying [Q], and
    with no further request to [/api/chat]. *)
Definition grows (Q : event -> bool) (w w' : world) : Prop :=
  chat_requests w' = chat_requests w
  /\ exists added, trace w' = trace w ++ added /\ forallb Q added = true.

(** A dispatch function that always returns and adds only [Q]-events. *)
Definition tame (Q : event -> bool) (send : string -> M world unit) : Prop :=
  forall text w, exists w', send text w = (Returned tt, w') /\ grows Q w w'.

(** The events of a request for speech. *)
Definition speech_event (e : event) : bool :=
  match e with
  | FetchStreamingTask _ | Sleep _ => true
  | _ => false
  end.

(** The events of the relay itself. *)
Definition pause_event (e : event) : bool :=
  match e with
  | Sleep _ | SetCurrentLLMResponse _ => true
  | _ => false
  end.

(** The events of the relay and of the requests it makes. *)
Definition relay_event (e : event) : bool := speech_event e || pause_event e.

(** What one line contributes: its text, and whether it ends the read. *)
Definition line_text (line : option line_data) : string * bool :=
  match line with
  | None => (EmptyString, false)
  | Some data =>
      if truthy (l_error data) then (EmptyString, false)
      else (l_content data, l_done data)
  end.

(** The number of requests one dispatch makes when its first request is
    the [k]-th of the turn. *)
Definition attempts_for (E : env) (k : nat) : nat :=
  if retried (tts E k) then 2 else 1.

(** The requests a live session sends for a list of batches, the first of
    them being the [k]-th of the turn; and the number of the next request. *)
Fixpoint requests_for (E : env) (k : nat) (batches : list string)
  : list string * nat :=
  match batches with
  | [] => ([], k)
  | text :: rest =>
      let (later, k') := requests_for E (k + attempts_for E k) rest in
      (repeat text (attempts_for E k) ++ later, k')
  end.

(** The session identifiers are set. *)
Definition live (E : env) : Prop :=
  falsy_opt (sessionId E) = false /\ falsy_opt (sessionToken E) = false.

(** Anything but a request to [/api/chat]. *)
Definition no_chat_fetch (e : event) : bool := negb (is_chat_fetch e).

(** The world after the request of an attempt. *)
Definition asked (userMessage : string) (w : world) : world :=
  mkWorld (S (chat_requests w)) (tts_requests w)
          (trace w ++ [FetchChat userMessage]).

(** The events with which [sendToLLM] opens a turn. *)
Definition opening (userMessage : string) (skipAddingToHistory : bool)
  : list event :=
  [ SetIsLLMProcessing true; SetCurrentLLMResponse EmptyString;
    SetLLMError None; SetSuppressAvatarEvents true ]
  ++ (if skipAddingToHistory then [] else [AddTextMessage CLIENT userMessage]).

(** The events with which it closes the turn, on every path. *)
Definition closing : list event :=
  [ SetIsLLMProcessing false; SetSuppressAvatarEvents false ].

(** The world after the opening events. *)
Definition opened (userMessage : string) (skipAddingToHistory : bool)
  (w : world) : world :=
  mkWorld (chat_requests w) (tts_requests w)
          (trace w ++ opening userMessage skipAddingToHistory).

End LLMChat.

(* ===================================================================== *)
(** * The session hook and the component that starts sessions *)
(* ===================================================================== *)

Module Session.

Import Eff Eff.Notations Js.
Local Open Scope eff_scope.

(** The [StreamingEvents] the code subscribes to. *)
Inductive StreamingEvents : Type :=
| STREAM_READY
| STREAM_DISCONNECTED
| CONNECTION_QUALITY_CHANGED
| USER_START
| USER_STOP
| AVATAR_START_TALKING
| AVATAR_STOP_TALKING
| USER_TALKING_MESSAGE
| AVATAR_TALKING_MESSAGE
| USER_END_MESSAGE
| AVATAR_END_MESSAGE.

(** Function objects passed to [on] and [off].  Each named callback of the
    hook and of the context is taken to be one object (what a re-render
    does to its identity is not modelled); an arrow function written inside
    [startSessionV2] is a new object on every call, identified here by the
    avatar it was attached to and the event it was written for. *)
Inductive handler : Type :=
| fn_handleStream
| fn_stop
| fn_handleConnectionQualityChanged
| fn_handleUserStart
| fn_handleUserStop
| fn_handleAvatarStartTalking
| fn_handleAvatarStopTalking
| fn_handleUserTalkingMessage
| fn_handleStreamingTalkingMessage
| fn_handleEndMessage
| fn_anonymous (avatar : nat) (site : StreamingEvents).

Definition listener : Type := (StreamingEvents * handler)%type.

Definition event_eq_dec (a b : StreamingEvents) : {a = b} + {a <> b}.
Proof. decide equality. Defined.

Definition handler_eq_dec (a b : handler) : {a = b} + {a <> b}.
Proof. decide equality; [apply event_eq_dec | apply Nat.eq_dec]. Defined.

Definition listener_eq_dec (a b : listener) : {a = b} + {a <> b}.
Proof. decide equality; [apply handler_eq_dec | apply event_eq_dec]. Defined.

Definition listener_eqb (a b : listener) : bool :=
  if listener_eq_dec a b then true else false.

(** A [StreamingAvatar] object: which one it is, and the listeners on its
    event target. *)
Record avatar : Type := mkAvatar {
  serial : nat;
  listeners : list listener
}.

(** [avatar.on(event, h)]: [addEventListener] ignores a pair that is
    already registered. *)
Definition on (l : listener) (a : avatar) : avatar :=
  if existsb (listener_eqb l) (listeners a) then a
  else mkAvatar (serial a) (listeners a ++ [l]).

(** [avatar.off(event, h)]: [removeEventListener]. *)
Definition off (l : listener) (a : avatar) : avatar :=
  mkAvatar (serial a) (filter (fun x => negb (listener_eqb l x)) (listeners a)).

Definition MediaStream : Type := nat.

Inductive effect : Type :=
| FetchQuota
| Alert
| Confirm
| FetchToken
| CreateStartAvatar (config : DeepClean.value)
| StopAvatar
| SetTimeout (ms : Z)
| ClearTimeout.

(** The context state the session code reads and writes, the two refs of
    the component, and the effects performed so far. *)
Record world : Type := mkWorld {
  sessionState : StreamingAvatarSessionState;
  stream : option MediaStream;
  sessionId : option string;
  sessionToken : option string;
  avatarRef : option avatar;
  created : nat;                       (* avatars constructed so far *)
  history : History.state;
  isVoiceChatActive : bool;
  shouldStartVoiceChatRef : bool;
  streamReadyTimeoutRef : bool;        (* a timeout is pending *)
  log : list effect
}.

Definition initial : world :=
  mkWorld INACTIVE None None None None 0 History.initial false false false [].

Definition setSessionState (s : StreamingAvatarSessionState) (w : world) : world :=
  mkWorld s (stream w) (sessionId w) (sessionToken w) (avatarRef w) (created w)
          (history w) (isVoiceChatActive w) (shouldStartVoiceChatRef w)
          (streamReadyTimeoutRef w) (log w).

Definition setStream (m : option MediaStream) (w : world) : world :=
  mkWorld (sessionState w) m (sessionId w) (sessionToken w) (avatarRef w)
          (created w) (history w) (isVoiceChatActive w)
          (shouldStartVoiceChatRef w) (streamReadyTimeoutRef w) (log w).

Definition setSessionId (i : option string) (w : world) : world :=
  mkWorld (sessionState w) (stream w) i (sessionToken w) (avatarRef w)
          (created w) (history w) (isVoiceChatActive w)
          (shouldStartVoiceChatRef w) (streamReadyTimeoutRef w) (log w).

Definition setSessionToken (t : option string) (w : world) : world :=
  mkWorld (sessionState w) (stream w) (sessionId w) t (avatarRef w)
          (created w) (history w) (isVoiceChatActive w)
          (shouldStartVoiceChatRef w) (streamReadyTimeoutRef w) (log w).

Definition setAvatar (a : option avatar) (w : world) : world :=
  mkWorld (sessionState w) (stream w) (sessionId w) (sessionToken w) a
          (created w) (history w) (isVoiceChatActive w)
          (shouldStartVoiceChatRef w) (streamReadyTimeoutRef w) (log w).

Definition setHistory (h : History.state) (w : world) : world :=
  mkWorld (sessionState w) (stream w) (sessionId w) (sessionToken w)
          (avatarRef w) (created w) h (isVoiceChatActive w)
          (shouldStartVoiceChatRef w) (streamReadyTimeoutRef w) (log w).

Definition setIsVoiceChatActive (b : bool) (w : world) : world :=
  mkWorld (sessionState w) (stream w) (sessionId w) (sessionToken w)
          (avatarRef w) (created w) (history w) b
          (shouldStartVoiceChatRef w) (streamReadyTimeoutRef w) (log w).

Definition setShouldStartVoiceChat (b : bool) (w : world) : world :=
  mkWorld (sessionState w) (stream w) (sessionId w) (sessionToken w)
          (avatarRef w) (created w) (history w) (isVoiceChatActive w) b
          (streamReadyTimeoutRef w) (log w).

Definition setStreamReadyTimeout (b : bool) (w : world) : world :=
  mkWorld (sessionState w) (stream w) (sessionId w) (sessionToken w)
          (avatarRef w) (created w) (history w) (isVoiceChatActive w)
          (shouldStartVoiceChatRef w) b (log w).

Definition perform (e : effect) (w : world) : world :=
  mkWorld (sessionState w) (stream w) (sessionId w) (sessionToken w)
          (avatarRef w) (created w) (history w) (isVoiceChatActive w)
          (shouldStartVoiceChatRef w) (streamReadyTimeoutRef w) (log w ++ [e]).

(** Apply [f] to the avatar behind [avatarRef.current], if there is one. *)
Definition with_avatar (f : avatar -> avatar) (w : world) : world :=
  match avatarRef w with
  | Some a => setAvatar (Some (f a)) w
  | None => w
  end.

(** ** The hook: [init], [handleStream], [stop], [start] *)

(** <<
    avatarRef.current = new StreamingAvatar({ token, basePath });
    setSessionToken(token);
    >> *)
Definition init (token : string) (w : world) : world :=
  setSessionToken (Some token)
    (mkWorld (sessionState w) (stream w) (sessionId w) (sessionToken w)
             (Some (mkAvatar (created w) [])) (S (created w)) (history w)
             (isVoiceChatActive w) (shouldStartVoiceChatRef w)
             (streamReadyTimeoutRef w) (log w)).

Definition handleStream (detail : MediaStream) (w : world) : world :=
  setSessionState CONNECTED (setStream (Some detail) w).

(** The pairs [start] passes to [on], in source order. *)
Definition start_registrations : list listener :=
  [ (STREAM_READY, fn_handleStream);
    (STREAM_DISCONNECTED, fn_stop);
    (CONNECTION_QUALITY_CHANGED, fn_handleConnectionQualityChanged);
    (USER_START, fn_handleUserStart);
    (USER_STOP, fn_handleUserStop);
    (AVATAR_START_TALKING, fn_handleAvatarStartTalking);
    (AVATAR_STOP_TALKING, fn_handleAvatarStopTalking);
    (USER_TALKING_MESSAGE, fn_handleUserTalkingMessage);
    (AVATAR_TALKING_MESSAGE, fn_handleStreamingTalkingMessage);
    (USER_END_MESSAGE, fn_handleEndMessage);
    (AVATAR_END_MESSAGE, fn_handleEndMessage) ].

(** The pairs [stop] passes to [off], in source order. *)
Definition stop_deregistrations : list listener :=
  [ (STREAM_READY, fn_handleStream);
    (STREAM_DISCONNECTED, fn_stop);
    (CONNECTION_QUALITY_CHANGED, fn_handleConnectionQualityChanged);
    (USER_START, fn_handleUserStart);
    (USER_STOP, fn_handleUserStop);
    (AVATAR_START_TALKING, fn_handleAvatarStartTalking);
    (AVATAR_STOP_TALKING, fn_handleAvatarStopTalking);
    (USER_TALKING_MESSAGE, fn_handleUserTalkingMessage);
    (AVATAR_TALKING_MESSAGE, fn_handleStreamingTalkingMessage);
    (USER_END_MESSAGE, fn_handleEndMessage);
    (AVATAR_END_MESSAGE, fn_handleEndMessage) ].

Definition on_all (ls : list listener) (a : avatar) : avatar :=
  fold_left (fun acc l => on l acc) ls a.

Definition off_all (ls : list listener) (a : avatar) : avatar :=
  fold_left (fun acc l => off l acc) ls a.

(** [stopVoiceChat] of [useVoiceChat]. *)
Definition stopVoiceChat (w : world) : world :=
  match avatarRef w with
  | Some _ => setIsVoiceChatActive false w
  | None => w
  end.

(** Everything [stop] does before [await avatarRef.current?.stopAvatar()]. *)
Definition stop_before_await (w : world) : world :=
  setSessionToken None
    (setSessionId None
       (setStream None
          (stopVoiceChat
             (setHistory (History.clearMessages (history w))
                (with_avatar (off_all stop_deregistrations) w))))).

(** [stop]: [stopAvatar_error] is the rejection of the SDK call, if it
    rejects; the state is set to [INACTIVE] only after it resolved. *)
Definition stop (stopAvatar_error : option JsError) : M world unit :=
  modify stop_before_await ;;;
  a <- gets avatarRef ;;
  (match a with
   | Some _ =>
       modify (perform StopAvatar) ;;;
       match stopAvatar_error with
       | Some e => throw e
       | None => ret tt
       end
   | None => ret tt
   end) ;;;
  modify (setSessionState INACTIVE).

(** What [createStartAvatar] answers: a response whose [session_id] may be
    missing, or an error with the fields the [catch] block inspects. *)
Record sdk_error : Type := mkSdkError {
  thrown : JsError;
  code : option Z;
  status : option Z;
  responseText : option string
}.

Inductive create_outcome : Type :=
| CreateResolves (session_id : option string)
| CreateRejects (e : sdk_error).

Definition is_quota_error (e : sdk_error) : bool :=
  match code e with Some 10008%Z => true | _ => false end
  || includes "quota not enough" (message (thrown e))
  || match responseText e with
     | Some t => truthy t && includes "quota not enough" t
     | None => false
     end.

Definition is_bad_request (e : sdk_error) : bool :=
  match status e with Some 400%Z => true | _ => false end.

(** The error [start] rethrows; of the two composed messages only the
    first line is kept. *)
Definition rethrown (e : sdk_error) : JsError :=
  if is_quota_error e then
    Error "QUOTA_ERROR: Insufficient HeyGen API credits for streaming avatar session."
  else if is_bad_request e then
    Error "Session creation failed (400 Bad Request)."
  else thrown e.

(** [start(config, token?)] *)
Definition start (create : create_outcome) (config : DeepClean.value)
  (token : option string) : M world unit :=
  st <- gets sessionState ;;
  if negb (state_eqb st INACTIVE) then
    throw (Error "There is already an active session")
  else
    a <- gets avatarRef ;;
    (match a with
     | Some _ => ret tt
     | None =>
         match token with
         | Some t => if truthy t then modify (init t)
                     else throw (Error "Token is required")
         | None => throw (Error "Token is required")
         end
     end) ;;;
    a' <- gets avatarRef ;;
    match a' with
    | None => throw (Error "Avatar is not initialized")
    | Some _ =>
        modify (setSessionState CONNECTING) ;;;
        modify (with_avatar (on_all start_registrations)) ;;;
        modify (perform (CreateStartAvatar (DeepClean.deepClean config))) ;;;
        match create with
        | CreateResolves session_id =>
            match session_id with
            | Some i => if truthy i then modify (setSessionId (Some i)) else ret tt
            | None => ret tt
            end
        | CreateRejects e => throw (rethrown e)
        end
    end.

(** ** The component: [startSessionV2] *)

Record quotaData : Type := mkQuota {
  credits : Z;
  minutes : Z;
  activeSessions : Z
}.

(** [fetch("/api/quota-check")]: the fetch rejects, or it answers;
    [data = None] is a body that [json()] cannot parse. *)
Inductive quota_outcome : Type :=
| QuotaRejects (e : JsError)
| QuotaResponse (ok : bool) (data : option quotaData).

Inductive token_outcome : Type :=
| TokenRejects (e : JsError)
| TokenText (token : string).

Record inputs : Type := mkInputs {
  quota : quota_outcome;
  confirm_answer : bool;
  token : token_outcome;
  create : create_outcome;
  config : DeepClean.value
}.

(** The events [startSessionV2] attaches an arrow function to, in source
    order. *)
Definition logging_sites : list StreamingEvents :=
  [ AVATAR_START_TALKING; AVATAR_STOP_TALKING; STREAM_DISCONNECTED;
    STREAM_READY; USER_START; USER_STOP; USER_END_MESSAGE;
    USER_TALKING_MESSAGE; AVATAR_TALKING_MESSAGE; AVATAR_END_MESSAGE ].

Definition logging_listeners (a : avatar) : list listener :=
  map (fun site => (site, fn_anonymous (serial a) site)) logging_sites.

Definition fetchAccessToken (inp : inputs) : M world string :=
  modify (perform FetchToken) ;;;
  match token inp with
  | TokenRejects e => throw e
  | TokenText t => ret t
  end.

(** The quota gate: [true] when the function goes on to start the
    session, [false] where it returns early. *)
Definition quota_gate (inp : inputs) : M world bool :=
  modify (perform FetchQuota) ;;;
  match quota inp with
  | QuotaRejects e => throw e
  | QuotaResponse ok data =>
      if ok then
        match data with
        | None => throw (mkError "SyntaxError" "Unexpected token in JSON")
        | Some quotaData =>
            if (credits quotaData =? 0)%Z then
              modify (perform Alert) ;;; ret false
            else if (credits quotaData <? 2)%Z then
              modify (perform Confirm) ;;; ret (confirm_answer inp)
            else ret true
        end
      else ret true
  end.

(** "Continue with existing session start logic". *)
Definition session_start_logic (inp : inputs) (isVoiceChat : bool)
  : M world unit :=
  newToken <- fetchAccessToken inp ;;
  modify (init newToken) ;;;
  modify (setShouldStartVoiceChat isVoiceChat) ;;;
  modify (with_avatar (fun a => on_all (logging_listeners a) a)) ;;;
  start (create inp) (config inp) None ;;;
  when isVoiceChat
    (modify (perform (SetTimeout 10000)) ;;;
     modify (setStreamReadyTimeout true)).

(** The [catch] block: "Clean up on error". *)
Definition clean_up_on_error (error : JsError) : M world unit :=
  modify (setShouldStartVoiceChat false) ;;;
  t <- gets streamReadyTimeoutRef ;;
  when t (modify (perform ClearTimeout) ;;;
          modify (setStreamReadyTimeout false)).

Definition startSessionV2 (inp : inputs) (isVoiceChat : bool) : M world unit :=
  try_catch
    (proceed <- quota_gate inp ;;
     if proceed then session_start_logic inp isVoiceChat else ret tt)
    clean_up_on_error.

(** ** The session as a transition system *)

Inductive action : Type :=
| Init (token : string)
| Start (create : create_outcome) (config : DeepClean.value)
        (token : option string)
| StartSessionV2 (inp : inputs) (isVoiceChat : bool)
| StreamReady (detail : MediaStream)
| StreamDisconnected (stopAvatar_error : option JsError)
| Stop (stopAvatar_error : option JsError).

Definition registered (l : listener) (w : world) : bool :=
  match avatarRef w with
  | Some a => existsb (listener_eqb l) (listeners a)
  | None => false
  end.

(** An SDK event reaches the hook only through a registered listener. *)
Definition enabled (a : action) (w : world) : bool :=
  match a with
  | StreamReady _ => registered (STREAM_READY, fn_handleStream) w
  | StreamDisconnected _ => registered (STREAM_DISCONNECTED, fn_stop) w
  | _ => true
  end.

Definition run_action (a : action) (w : world) : world :=
  match a with
  | Init token => init token w
  | Start create config token => snd (start create config token w)
  | StartSessionV2 inp isVoiceChat => snd (startSessionV2 inp isVoiceChat w)
  | StreamReady detail => handleStream detail w
  | StreamDisconnected e => snd (stop e w)
  | Stop e => snd (stop e w)
  end.

Inductive reachable : world -> Prop :=
| reach_initial : reachable initial
| reach_step a w :
    reachable w -> enabled a w = true -> reachable (run_action a w).



(** The listeners currently on the avatar behind [avatarRef]. *)
Definition current_listeners (w : world) : list listener :=
  match avatarRef w with
  | Some a => listeners a
  | None => []
  end.

Definition did (e : effect) (w : world) : bool :=
  existsb (fun x => match x, e with
                    | FetchQuota, FetchQuota | Alert, Alert
                    | Confirm, Confirm | FetchToken, FetchToken
                    | StopAvatar, StopAvatar | ClearTimeout, ClearTimeout => true
                    | _, _ => false
                    end) (log w).

Definition created_session (w : world) : bool :=
  existsb (fun x => match x with CreateStartAvatar _ => true | _ => false end)
          (log w).

(** ** Sample inputs *)

(** [createDefaultConfig()] with the [knowledgeId: undefined] entry that
    the comment in the source says used to be there. *)
Definition sample_config : DeepClean.value :=
  DeepClean.VObj
    [ ("quality", DeepClean.VStr "low");
      ("avatarName", DeepClean.VStr "");
      ("knowledgeId", DeepClean.VUndefined);
      ("voice", DeepClean.VObj [ ("voiceId", DeepClean.VStr "");
                                 ("rate", DeepClean.VNum 1);
                                 ("emotion", DeepClean.VStr "friendly") ]);
      ("language", DeepClean.VStr "en");
      ("voiceChatTransport", DeepClean.VStr "websocket");
      ("sttSettings", DeepClean.VObj [ ("provider", DeepClean.VStr "deepgram") ]);
      ("disableIdleTimeout", DeepClean.VBool false) ].

(** Inputs under which everything after the quota check succeeds. *)
Definition inputs_with (q : quota_outcome) (answer : bool) : inputs :=
  mkInputs q answer (TokenText "session-token")
           (CreateResolves (Some "session-1")) sample_config.

Definition quota_of (n : Z) : quota_outcome :=
  QuotaResponse true (Some (mkQuota n (n * 5) 0)).

Definition network_failure : JsError := mkError "TypeError" "Failed to fetch".

(** ** Predicates used in the proofs *)


(** [f] leaves the state, the stream and the session id alone. *)
Definition frames (f : world -> world) : Prop :=
  forall w, sessionState (f w) = sessionState w
            /\ stream (f w) = stream w
            /\ sessionId (f w) = sessionId w.




End Session.

(* ===================================================================== *)
(** * The voice trigger ([useVoiceChatLLMIntegration]) *)
(* ===================================================================== *)

Module VoiceTrigger.

(** What the effect reads from the render that scheduled it. *)
Record deps : Type := mkDeps {
  messages : list Message;
  isVoiceChatActive : bool;
  isLLMProcessing : bool
}.

(** The two refs, the calls of [sendToLLM] made so far, and the number of
    [processMessage] promises that have not reached their [finally]. *)
Record state : Type := mkState {
  lastProcessedMessageIdRef : option string;
  processingRef : bool;
  invocations : list (string * bool);
  in_flight : nat
}.

Definition initial : state := mkState None false [] 0.

(** [lastMessage.id !== lastProcessedMessageIdRef.current] *)
Definition differs (i : string) (r : option string) : bool :=
  match r with
  | Some j => negb (String.eqb i j)
  | None => true
  end.

Definition is_new_complete_client_message (m : Message) (st : state) : bool :=
  sender_eqb (sender m) CLIENT
  && differs (id m) (lastProcessedMessageIdRef st)
  && negb (String.eqb (Js.trim (content m)) EmptyString)
  && isComplete m.

(** The body of the effect, up to the first [await] inside
    [processMessage]: JavaScript runs it without interruption.  Both refs
    are written before [processMessage()] is called, and [processMessage]
    calls [sendToLLM(lastMessage.content, true)] at once. *)
Definition effect (d : deps) (st : state) : state :=
  if negb (isVoiceChatActive d) || isLLMProcessing d || processingRef st then st
  else
    match History.last_message (messages d) with
    | None => st
    | Some lastMessage =>
        if is_new_complete_client_message lastMessage st then
          let st1 := mkState (Some (id lastMessage)) true
                             (invocations st) (in_flight st) in
          mkState (lastProcessedMessageIdRef st1) (processingRef st1)
                  (invocations st1 ++ [(content lastMessage, true)])
                  (S (in_flight st1))
        else st
    end.

(** The [finally] block of [processMessage], run when [sendToLLM] has
    settled. *)
Definition settle (st : state) : state :=
  mkState (lastProcessedMessageIdRef st) false (invocations st)
          (in_flight st - 1).

Inductive event : Type :=
| Evaluate (d : deps)
| Settle.

(** A [Settle] needs a pending promise. *)
Definition step (e : event) (st : state) : state :=
  match e with
  | Evaluate d => effect d st
  | Settle => if 0 <? in_flight st then settle st else st
  end.

Definition run (events : list event) (st : state) : state :=
  fold_left (fun s e => step e s) events st.

(** Every evaluation in [events] sees [m] as the last message. *)
Definition all_see (m : Message) (events : list event) : Prop :=
  Forall (fun e => match e with
                   | Evaluate d => History.last_message (messages d) = Some m
                   | Settle => True
                   end) events.

(** The conditions under which an evaluation starts a turn for [m]. *)
Definition triggers (d : deps) (m : Message) (st : state) : Prop :=
  isVoiceChatActive d = true /\
  isLLMProcessing d = false /\
  processingRef st = false /\
  History.last_message (messages d) = Some m /\
  is_new_complete_client_message m st = true.

(** ** Predicates used in the proofs *)

(** The guard and the pending promise go together. *)
Definition guarded (st : state) : Prop :=
  (processingRef st = true /\ in_flight st = 1)
  \/ (processingRef st = false /\ in_flight st = 0).

End VoiceTrigger.

(* ===================================================================== *)
(** * The server side of a turn: messages, adapters and the chat route *)
(* ===================================================================== *)

(** [BaseLLMAdapter.ts] and [roleMapping.ts]. *)
Module RoleMapping.

Import Eff Js.

(** [type MessageRole = "system" | "user" | "assistant"] *)
Inductive MessageRole : Type :=
| system
| user
| assistant.

Definition role_eqb (a b : MessageRole) : bool :=
  match a, b with
  | system, system | user, user | assistant, assistant => true
  | _, _ => false
  end.

(** [interface LLMMessage] *)
Record LLMMessage : Type := mkLLMMessage {
  llm_role : MessageRole;
  llm_content : string
}.

(** [interface LLMStreamChunk]; [c_error = None] is an absent [error]. *)
Record LLMStreamChunk : Type := mkChunk {
  c_content : string;
  c_done : bool;
  c_error : option string
}.

(** [new LLMAdapterError(message, adapter)] *)
Definition LLMAdapterError (msg : string) : JsError :=
  mkError "LLMAdapterError" msg.

(** [error instanceof LLMAdapterError] *)
Definition is_adapter_error (e : JsError) : bool :=
  String.eqb (name e) "LLMAdapterError".

(** [interface Message] as a request body carries it: [isComplete] is
    optional. *)
Record MessageJson : Type := mkMessageJson {
  j_id : string;
  j_sender : MessageSender;
  j_content : string;
  j_isComplete : option bool
}.

(** What [JSON.stringify] makes of a message of the history. *)
Definition to_json (m : Message) : MessageJson :=
  mkMessageJson (id m) (sender m) (content m) (Some (isComplete m)).

Definition senderToRole (s : MessageSender) : MessageRole :=
  match s with
  | CLIENT => user
  | AVATAR => assistant
  end.

Definition roleToSender (r : MessageRole) : MessageSender :=
  match r with
  | user => CLIENT
  | assistant => AVATAR
  | system => AVATAR
  end.

Definition messageToLLMMessage (m : MessageJson) : LLMMessage :=
  mkLLMMessage (senderToRole (j_sender m)) (j_content m).

(** [now] is [Date.now().toString()]. *)
Definition llmMessageToMessage (now : string) (l : LLMMessage) : MessageJson :=
  mkMessageJson now (roleToSender (llm_role l)) (llm_content l) (Some true).

Definition messagesToLLMMessages (messages : list MessageJson)
  : list LLMMessage :=
  map messageToLLMMessage messages.

(** [clock k] is what [Date.now().toString()] gives for the [k]-th
    element. *)
Definition llmMessagesToMessages (clock : nat -> string)
  (llmMessages : list LLMMessage) : list MessageJson :=
  map (fun kl => llmMessageToMessage (clock (fst kl)) (snd kl))
      (combine (seq 0 (List.length llmMessages)) llmMessages).

Definition createSystemMessage (text : string) : LLMMessage :=
  mkLLMMessage system text.

Definition createUserMessage (text : string) : LLMMessage :=
  mkLLMMessage user text.

Definition createAssistantMessage (text : string) : LLMMessage :=
  mkLLMMessage assistant text.

(** <<
    if (messages.length > 0 && messages[0].role === "system") return messages;
    return [createSystemMessage(systemPrompt), ...messages];
    >> *)
Definition ensureSystemMessage (messages : list LLMMessage)
  (systemPrompt : string) : list LLMMessage :=
  match messages with
  | first :: _ =>
      if role_eqb (llm_role first) system then messages
      else createSystemMessage systemPrompt :: messages
  | [] => [createSystemMessage systemPrompt]
  end.

(** ** Predicates used in the proofs *)

Definition no_system (messages : list LLMMessage) : Prop :=
  Forall (fun m => llm_role m <> system) messages.

End RoleMapping.

(** [CustomBackendAdapter.ts] *)
Module CustomBackend.

Import Eff Js RoleMapping.

(** <<
    const userMessages = messages.filter((m) => m.role === "user");
    if (userMessages.length === 0) throw new LLMAdapterError(...);
    return userMessages[userMessages.length - 1].content;
    >> *)
Definition formatMessagesForBackend (messages : list LLMMessage)
  : outcome string :=
  let userMessages := filter (fun m => role_eqb (llm_role m) user) messages in
  match last (map Some userMessages) None with
  | None => Thrown (LLMAdapterError "No user message found in request")
  | Some m => Returned (llm_content m)
  end.

(** What the loop reads of a parsed [data:] payload: its [type], and of a
    field the truthy part (the empty string, or [false], when the field is
    falsy or absent). *)
Inductive SSEEvent : Type :=
| SSEStart
| SSEChunk (content : string)
| SSEComplete (success : bool) (errorMessage : string)
| SSEFinal (success : bool) (errorMessage : string)
| SSEOther.

Inductive line_result : Type :=
| Skip
| Yield (chunk : LLMStreamChunk)
| YieldReturn (chunk : LLMStreamChunk).

Definition line_feed : ascii := ascii_of_nat 10.

(** [s.split("\n")]: the pieces between line feeds, at least one. *)
Fixpoint split_newline (s : string) : list string :=
  match s with
  | EmptyString => [EmptyString]
  | String c rest =>
      if Ascii.eqb c line_feed then EmptyString :: split_newline rest
      else match split_newline rest with
           | piece :: pieces => String c piece :: pieces
           | [] => [String c EmptyString]
           end
  end.

(** The non-streaming answer: [data.content], [data.message] (their truthy
    parts) and [JSON.stringify(data)]. *)
Record fallback_data : Type := mkFallback {
  d_content : string;
  d_message : string;
  d_stringified : string
}.

(** What the backend answers to one question; [response.text()] and
    [response.json()] return or throw. *)
Inductive backend_response : Type :=
| FetchRejects (e : JsError)
| NotOk (status statusText : string) (errorText : outcome string)
| NotStreaming (data : outcome fallback_data)
| NoBody
| Streaming (reads : list string) (read_error : option JsError).

Definition fallback_text (d : fallback_data) : string :=
  if truthy (d_content d) then d_content d
  else if truthy (d_message d) then d_message d
  else d_stringified d.

(** The outer [catch]: an [LLMAdapterError] is rethrown, anything else is
    wrapped. *)
Definition rethrow (e : JsError) : JsError :=
  if is_adapter_error e then e
  else LLMAdapterError ("Stream error: " ++ message e)%string.

Section Stream.

(** [JSON.parse(dataContent)] followed by the reads of [parsed.type] and of
    the fields; [None] when one of them throws. *)
Variable JSON_parse : string -> option SSEEvent.

Definition handle_event (e : SSEEvent) : line_result :=
  match e with
  | SSEStart => Skip
  | SSEChunk content =>
      if truthy content then Yield (mkChunk content false None) else Skip
  | SSEComplete success errorMessage =>
      if negb success && truthy errorMessage
      then YieldReturn (mkChunk EmptyString true (Some errorMessage))
      else Skip
  | SSEFinal success errorMessage =>
      if negb success && truthy errorMessage
      then YieldReturn (mkChunk EmptyString true (Some errorMessage))
      else Skip
  | SSEOther => Skip
  end.

(** The body of [for (const line of lines)]. *)
Definition handle_line (line : string) : line_result :=
  let trimmedLine := trim line in
  if negb (truthy trimmedLine) then Skip
  else if String.prefix "event:" trimmedLine then Skip
  else if String.prefix "data:" trimmedLine then
    let dataContent := trim (substring_from 5 trimmedLine) in
    if String.eqb dataContent "[DONE]" then Skip
    else match JSON_parse dataContent with
         | Some e => handle_event e
         | None => Skip
         end
  else Skip.

(** [for (const line of lines)]: the chunks yielded, and whether the
    generator returned. *)
Fixpoint for_lines (lines : list string) : list LLMStreamChunk * bool :=
  match lines with
  | [] => ([], false)
  | line :: rest =>
      match handle_line line with
      | Skip => for_lines rest
      | Yield chunk => let (ys, r) := for_lines rest in (chunk :: ys, r)
      | YieldReturn chunk => ([chunk], true)
      end
  end.

(** [while (true) { const { done, value } = await reader.read(); ... }]:
    the chunks yielded, and the error thrown if a read rejects. *)
Fixpoint read_loop (buffer : string) (reads : list string)
  (read_error : option JsError) : list LLMStreamChunk * option JsError :=
  match reads with
  | [] =>
      match read_error with
      | None => ([mkChunk EmptyString true None], None)
      | Some e => ([], Some e)
      end
  | value :: rest =>
      let pieces := split_newline (buffer ++ value)%string in
      let lines := removelast pieces in
      let buffer' := last pieces EmptyString in
      let (ys, returned) := for_lines lines in
      if returned then (ys, None)
      else let (ys', thrown) := read_loop buffer' rest read_error in
           (ys ++ ys', thrown)
  end.

(** [stream(request)] run to its end: the chunks it yields, and the error
    it throws if it does. *)
Definition stream (backend : string -> backend_response)
  (messages : list LLMMessage) : list LLMStreamChunk * option JsError :=
  match formatMessagesForBackend messages with
  | Thrown e => ([], Some e)
  | Returned formattedQuestion =>
      match backend formattedQuestion with
      | FetchRejects e => ([], Some (rethrow e))
      | NotOk status statusText (Thrown e) => ([], Some (rethrow e))
      | NotOk status statusText (Returned errorText) =>
          ([], Some (LLMAdapterError
                       ("API request failed: " ++ status ++ " " ++ statusText
                          ++ ". " ++ errorText)%string))
      | NotStreaming (Thrown e) => ([], Some (rethrow e))
      | NotStreaming (Returned data) =>
          ([mkChunk (fallback_text data) true None], None)
      | NoBody => ([], Some (LLMAdapterError "Response body is not readable"))
      | Streaming reads read_error =>
          let (ys, thrown) := read_loop EmptyString reads read_error in
          (ys, option_map rethrow thrown)
      end
  end.

End Stream.

(** ** Predicates used in the proofs *)

(** A content chunk: some text, not the end, no error. *)
Definition is_content_chunk (c : LLMStreamChunk) : bool :=
  truthy (c_content c) && negb (c_done c)
  && match c_error c with None => true | Some _ => false end.

Definition has_line_feed (s : string) : bool :=
  existsb (Ascii.eqb line_feed) (list_ascii_of_string s).

(** ** Sample inputs *)

Definition LF : string := String line_feed EmptyString.

(** A parser that knows two payloads. *)
Definition sample_parse (dataContent : string) : option SSEEvent :=
  if String.eqb dataContent "1" then Some (SSEChunk "Hello world. ")
  else if String.eqb dataContent "2" then Some (SSEChunk "How are you?")
  else if String.eqb dataContent "3" then Some (SSEComplete true EmptyString)
  else None.

(** The backend's text: two chunk events and a completion. *)
Definition sample_reads : list string :=
  [ ("event: chunk" ++ LF ++ "data: 1" ++ LF ++ LF ++ "data: 2" ++ LF
       ++ "data: 3" ++ LF)%string ].

(** The same text, cut inside a line. *)
Definition sample_reads_cut : list string :=
  [ ("event: chunk" ++ LF ++ "da")%string;
    ("ta: 1" ++ LF ++ LF ++ "data: 2")%string;
    (LF ++ "data: 3" ++ LF)%string ].

End CustomBackend.

(** [OpenAIAdapter.ts] *)
Module OpenAIStream.

Import Eff Js RoleMapping.

(** What the loop reads of one SDK chunk: the truthy part of
    [choices[0]?.delta?.content] and [choices[0]?.finish_reason]. *)
Record sdk_chunk : Type := mkSdkChunk {
  delta_content : string;
  finish_reason : option string
}.

(** What the SDK throws: an [OpenAI.APIError] with its status as the
    template prints it, or anything else. *)
Inductive sdk_failure : Type :=
| APIError (status msg : string)
| OtherError (msg : string).

Definition wrap (f : sdk_failure) : JsError :=
  match f with
  | APIError status msg =>
      LLMAdapterError ("OpenAI API error (" ++ status ++ "): " ++ msg)%string
  | OtherError msg => LLMAdapterError ("Stream error: " ++ msg)%string
  end.

Definition finished (reason : option string) : bool :=
  match reason with
  | Some r => String.eqb r "stop" || String.eqb r "length"
  | None => false
  end.

Definition filtered (reason : option string) : bool :=
  match reason with
  | Some r => String.eqb r "content_filter"
  | None => false
  end.

(** [for await (const chunk of stream)]; [iteration_error] is thrown by the
    SDK after the last chunk, if it is given. *)
Fixpoint for_chunks (chunks : list sdk_chunk)
  (iteration_error : option sdk_failure)
  : list LLMStreamChunk * option sdk_failure :=
  match chunks with
  | [] => ([], iteration_error)
  | chunk :: rest =>
      let text :=
        if truthy (delta_content chunk)
        then [mkChunk (delta_content chunk) false None] else [] in
      if finished (finish_reason chunk) then
        (text ++ [mkChunk EmptyString true None], None)
      else if filtered (finish_reason chunk) then
        (text ++ [mkChunk EmptyString true
                          (Some "Content was filtered by safety systems")],
         None)
      else let (ys, thrown) := for_chunks rest iteration_error in
           (text ++ ys, thrown)
  end.

(** What [client.chat.completions.create] answers. *)
Inductive sdk_response : Type :=
| CreateRejects (f : sdk_failure)
| CreateStreams (chunks : list sdk_chunk) (iteration_error : option sdk_failure).

Definition stream (response : sdk_response)
  : list LLMStreamChunk * option JsError :=
  match response with
  | CreateRejects f => ([], Some (wrap f))
  | CreateStreams chunks iteration_error =>
      let (ys, thrown) := for_chunks chunks iteration_error in
      (ys, option_map wrap thrown)
  end.

End OpenAIStream.

(** [llm/index.ts]: the adapter factory. *)
Module AdapterFactory.

Import Eff Js RoleMapping.

(** The variables of [process.env] the factory and the route read. *)
Record environment : Type := mkEnvironment {
  LLM_PROVIDER : option string;
  CUSTOM_LLM_API_URL : option string;
  LLM_SYSTEM_PROMPT : option string;
  OPENAI_API_KEY : option string;
  OPENAI_BASE_URL : option string;
  OPENAI_MODEL : option string;
  OPENAI_ORGANIZATION : option string
}.

(** [interface LLMAdapterFactoryConfig] *)
Record LLMAdapterFactoryConfig : Type := mkFactoryConfig {
  provider : option string;
  customApiUrl : option string;
  customSystemPrompt : option string;
  openAIApiKey : option string;
  openAIBaseURL : option string;
  openAIModel : option string;
  openAIOrganization : option string
}.

(** [a || b] for optional strings. *)
Definition or_else (a b : option string) : option string :=
  if falsy_opt a then b else a.

(** [a || text] for an optional string and a literal. *)
Definition or_default (a : option string) (text : string) : string :=
  match a with
  | Some s => if truthy s then s else text
  | None => text
  end.

Definition DEFAULT_SYSTEM_PROMPT : string :=
  "You are a helpful AI tutor assistant. Provide clear, concise, and educational responses to help students learn.".

(** An adapter object: its class and the fields its constructor sets. *)
Inductive adapter : Type :=
| CustomBackendAdapter (apiUrl systemPrompt : string)
| OpenAIAdapter (apiKey : string) (baseURL : option string)
                (defaultModel : string) (organization : option string).

(** [new CustomBackendAdapter(apiUrl, systemPrompt)] *)
Definition new_CustomBackendAdapter (apiUrl : option string)
  (systemPrompt : option string) : outcome adapter :=
  match apiUrl with
  | Some url =>
      if truthy url then
        Returned (CustomBackendAdapter url
                    (or_default systemPrompt DEFAULT_SYSTEM_PROMPT))
      else Thrown (LLMAdapterError "API URL is required for CustomBackendAdapter")
  | None => Thrown (LLMAdapterError "API URL is required for CustomBackendAdapter")
  end.

(** [new OpenAIAdapter(config)] *)
Definition new_OpenAIAdapter (apiKey baseURL model organization : option string)
  : outcome adapter :=
  match apiKey with
  | Some key =>
      if truthy key then
        Returned (OpenAIAdapter key baseURL
                    (or_default model "gpt-4-turbo-preview") organization)
      else Thrown (LLMAdapterError "API key is required for OpenAIAdapter")
  | None => Thrown (LLMAdapterError "API key is required for OpenAIAdapter")
  end.

Definition createCustomAdapter (env : environment)
  (config : LLMAdapterFactoryConfig) : outcome adapter :=
  let apiUrl := or_else (customApiUrl config) (CUSTOM_LLM_API_URL env) in
  if falsy_opt apiUrl then
    Thrown (LLMAdapterError "CUSTOM_LLM_API_URL is required for custom provider")
  else
    let systemPrompt :=
      or_default (or_else (customSystemPrompt config) (LLM_SYSTEM_PROMPT env))
                 DEFAULT_SYSTEM_PROMPT in
    new_CustomBackendAdapter apiUrl (Some systemPrompt).

Definition createOpenAIAdapter (env : environment)
  (config : LLMAdapterFactoryConfig) : outcome adapter :=
  let apiKey := or_else (openAIApiKey config) (OPENAI_API_KEY env) in
  if falsy_opt apiKey then
    Thrown (LLMAdapterError "OPENAI_API_KEY is required for openai provider")
  else
    new_OpenAIAdapter apiKey
      (or_else (openAIBaseURL config) (OPENAI_BASE_URL env))
      (or_else (openAIModel config) (OPENAI_MODEL env))
      (or_else (openAIOrganization config) (OPENAI_ORGANIZATION env)).

Definition createLLMAdapter (env : environment)
  (config : LLMAdapterFactoryConfig) : outcome adapter :=
  let provider := or_default (provider config) "custom" in
  if String.eqb provider "custom" then createCustomAdapter env config
  else if String.eqb provider "openai" then createOpenAIAdapter env config
  else Thrown (LLMAdapterError ("Unknown LLM provider: " ++ provider)%string).

Definition createLLMAdapterFromEnv (env : environment) : outcome adapter :=
  let provider := or_default (LLM_PROVIDER env) "custom" in
  createLLMAdapter env
    (mkFactoryConfig (Some provider) None None None None None None).

End AdapterFactory.

(** The chat route ([app/api/chat/route.ts]). *)
Module ChatRoute.

Import Eff Js RoleMapping AdapterFactory.

Definition LLM_SYSTEM_PROMPT (env : environment) : string :=
  or_default (AdapterFactory.LLM_SYSTEM_PROMPT env) DEFAULT_SYSTEM_PROMPT.

Definition MAX_HISTORY_TURNS : nat := 5.

(** [l.slice(-n)] for [n > 0] *)
Definition slice_last {A} (n : nat) (l : list A) : list A :=
  skipn (List.length l - n) l.

(** [msg.isComplete !== false] *)
Definition not_false (b : option bool) : bool :=
  match b with
  | Some false => false
  | _ => true
  end.

Definition prepareMessagesForLLM (systemPrompt message : string)
  (conversationHistory : list MessageJson) : list LLMMessage :=
  let completeHistory :=
    filter (fun msg => not_false (j_isComplete msg)) conversationHistory in
  let filteredHistory :=
    match last (map Some completeHistory) None with
    | Some lastMsg =>
        if sender_eqb (j_sender lastMsg) CLIENT
           && String.eqb (j_content lastMsg) message
        then removelast completeHistory
        else completeHistory
    | None => completeHistory
    end in
  let recentHistory := slice_last (MAX_HISTORY_TURNS * 2) filteredHistory in
  let llmMessages := messagesToLLMMessages recentHistory in
  let messagesWithContext := ensureSystemMessage llmMessages systemPrompt in
  messagesWithContext ++ [mkLLMMessage user message].

(** [chunk.error] is truthy. *)
Definition has_error (c : LLMStreamChunk) : bool :=
  negb (falsy_opt (c_error c)).

(** The body of [start(controller)], given what the adapter's generator
    yields and throws: the chunks enqueued, and whether [controller.close()]
    was called. *)
Fixpoint forward (yields : list LLMStreamChunk) (thrown : option JsError)
  : list LLMStreamChunk * bool :=
  match yields with
  | [] =>
      match thrown with
      | Some e => ([mkChunk EmptyString true (Some (message e))], true)
      | None => ([], false)
      end
  | chunk :: rest =>
      if c_done chunk then ([chunk], true)
      else if has_error chunk then ([chunk], true)
      else let (sent, closed) := forward rest thrown in (chunk :: sent, closed)
  end.

(** [await request.json()] and the two fields read of it. *)
Inductive request_body : Type :=
| BodyRejects (e : JsError)
| Body (message : string) (conversationHistory : list MessageJson).

(** The response: its status, the NDJSON lines of a streamed body (or the
    one object of the error body), and whether the body ends. *)
Record response : Type := mkResponse {
  status : nat;
  sent : list LLMStreamChunk;
  closed : bool
}.

Section Post.

(** What the adapters reach: the custom backend, by question, and the
    OpenAI SDK. *)
Variable JSON_parse : string -> option CustomBackend.SSEEvent.
Variable backend : string -> CustomBackend.backend_response.
Variable openai : OpenAIStream.sdk_response.

(** [adapter.stream({ messages })] run to its end. *)
Definition adapter_stream (a : adapter) (messages : list LLMMessage)
  : list LLMStreamChunk * option JsError :=
  match a with
  | CustomBackendAdapter _ _ => CustomBackend.stream JSON_parse backend messages
  | OpenAIAdapter _ _ _ _ => OpenAIStream.stream openai
  end.

Definition POST (env : environment) (request : request_body) : response :=
  match request with
  | BodyRejects e => mkResponse 500 [mkChunk EmptyString true (Some (message e))] true
  | Body message conversationHistory =>
      let llmMessages :=
        prepareMessagesForLLM (LLM_SYSTEM_PROMPT env) message
                              conversationHistory in
      match createLLMAdapterFromEnv env with
      | Thrown e =>
          mkResponse 500 [mkChunk EmptyString true (Some (Eff.message e))] true
      | Returned a =>
          let (yields, thrown) := adapter_stream a llmMessages in
          let (sent, closed) := forward yields thrown in
          mkResponse 200 sent closed
      end
  end.

End Post.

(** ** The stream as the client reads it *)

(** [JSON.parse(JSON.stringify(chunk))] as the relay of [sendToLLM] reads
    it. *)
Definition to_line (c : LLMStreamChunk) : LLMChat.line_data :=
  LLMChat.mkLine (match c_error c with Some e => e | None => EmptyString end)
                 (c_content c) (c_done c).

(** The lines of a response, cut into reads between lines. *)
Definition wire (reads : list (list LLMStreamChunk)) : list LLMChat.net_chunk :=
  map (map (fun c => Some (to_line c))) reads.

(** ** Sample inputs *)

Definition sample_environment : environment :=
  mkEnvironment None (Some "https://llm.example/stream") None None None None None.

(** ** Predicates used in the proofs *)

(** The text of the chunks. *)
Definition text_of (chunks : list LLMStreamChunk) : string :=
  String.concat EmptyString (map c_content chunks).

(** A chunk that ends the stream for the route. *)
Definition ends_stream (c : LLMStreamChunk) : bool := c_done c || has_error c.

(** A chunk after whose line the relay reads no further line of the same
    read. *)
Definition stops (c : LLMStreamChunk) : bool := c_done c && negb (has_error c).

Fixpoint only_last_stops (chunks : list LLMStreamChunk) : bool :=
  match chunks with
  | [] => true
  | c :: rest =>
      match rest with
      | [] => true
      | _ => negb (stops c) && only_last_stops rest
      end
  end.

(** A chunk with an error carries no text. *)
Definition quiet_error (c : LLMStreamChunk) : bool :=
  negb (has_error c) || negb (truthy (c_content c)).

(** The SDK chunks after which the OpenAI adapter goes on reading. *)
Definition goes_on (c : OpenAIStream.sdk_chunk) : bool :=
  negb (OpenAIStream.finished (OpenAIStream.finish_reason c))
  && negb (OpenAIStream.filtered (OpenAIStream.finish_reason c)).

End ChatRoute.

(* ===================================================================== *)
(** * The API routes in front of HeyGen *)
(* ===================================================================== *)

Module Routes.

Import Eff Js.

(** An upstream [fetch] followed by [res.json()]: the fetch rejects, or it
    answers with [res.ok] and a body; [None] is a body that [json()]
    rejects. *)
Inductive upstream (A : Type) : Type :=
| Rejects (e : JsError)
| Answers (ok : bool) (body : option A).
Arguments Rejects {A} e.
Arguments Answers {A} ok body.

(** ** [app/api/quota-check/route.ts] *)

(** [GET]: the status and the three numbers of the body the client reads.
    [quotaRes] carries [quotaData.data?.remaining_quota] and [sessionsRes]
    carries [sessionsData.data?.sessions?.length], [None] where the chain
    gives [undefined]. *)
Definition quota_check_GET (HEYGEN_API_KEY : option string)
  (quotaRes : upstream (option Z)) (sessionsRes : upstream (option nat))
  : nat * Session.quotaData :=
  let failure := (500, Session.mkQuota 0 0 0) in
  if falsy_opt HEYGEN_API_KEY then failure
  else
    match quotaRes with
    | Rejects _ => failure
    | Answers false _ => failure
    | Answers true None => failure
    | Answers true (Some quota) =>
        let remaining_quota :=
          match quota with Some q => q | None => 0%Z end in
        let credits := (remaining_quota / 60)%Z in
        let minutes := (credits * 5)%Z in
        match sessionsRes with
        | Rejects _ => failure
        | Answers true None => failure
        | Answers true (Some sessions) =>
            let activeSessions :=
              match sessions with Some n => n | None => 0 end in
            (200, Session.mkQuota credits minutes (Z.of_nat activeSessions))
        | Answers false _ =>
            (200, Session.mkQuota credits minutes 0)
        end
    end.

(** What [fetch("/api/quota-check")] gives the component when the request
    reaches the route. *)
Definition quota_via_route (r : nat * Session.quotaData) : Session.quota_outcome :=
  Session.QuotaResponse (status_ok (fst r)) (Some (snd r)).

(** ** [app/api/get-access-token/route.ts] *)

(** What the route reads of the parsed body: [data.data] is missing, or
    [data.data.token]. *)
Inductive token_json : Type :=
| NoData
| TokenField (token : option string).

Definition token_failure : nat * string :=
  (500, "Failed to retrieve access token").

(** [POST]: the status and the text of the body. *)
Definition get_access_token_POST (HEYGEN_API_KEY : option string)
  (res : upstream token_json) : nat * string :=
  if falsy_opt HEYGEN_API_KEY then token_failure
  else
    match res with
    | Rejects _ => token_failure
    | Answers _ None => token_failure
    | Answers false (Some _) => token_failure
    | Answers true (Some NoData) => token_failure
    | Answers true (Some (TokenField token)) =>
        (200, match token with Some t => t | None => EmptyString end)
    end.

(** [fetchAccessToken] reads the text of the response whatever its
    status. *)
Definition token_via_route (r : nat * string) : Session.token_outcome :=
  Session.TokenText (snd r).

(** ** [app/api/streaming-task/route.ts] *)

(** The fields the route reads of the request body. *)
Record task_body : Type := mkTaskBody {
  session_id : option string;
  text : option string;
  session_token : option string
}.

(** [POST]: the status; the body is JSON in every case.  [body = None] is
    a request that [request.json()] rejects. *)
Definition streaming_task_POST (HEYGEN_API_KEY : option string)
  (body : option task_body) (res : upstream unit) : nat :=
  if falsy_opt HEYGEN_API_KEY then 500
  else
    match body with
    | None => 500
    | Some b =>
        if falsy_opt (session_id b) || falsy_opt (text b)
           || falsy_opt (session_token b) then 500
        else
          match res with
          | Rejects _ => 500
          | Answers _ None => 500
          | Answers false (Some _) => 500
          | Answers true (Some _) => 200
          end
    end.

(** The request [sendChunkToAvatar] builds. *)
Definition task_request (E : LLMChat.env) (chunk : string) : option task_body :=
  Some (mkTaskBody (LLMChat.sessionId E) (Some chunk) (LLMChat.sessionToken E)).

(** What [fetch("/api/streaming-task")] gives the hook when the request
    reaches the route. *)
Definition task_via_route (status : nat) : LLMChat.tts_outcome :=
  LLMChat.TtsResponse status true.

(** ** Predicates used in the proofs *)

(** HeyGen accepted the task. *)
Definition accepted (res : upstream unit) : bool :=
  match res with
  | Answers true (Some _) => true
  | _ => false
  end.

End Routes.

(* ===================================================================== *)
(** * The avatar list and the default configuration *)
(* ===================================================================== *)

(** [app/lib/avatar-filter.ts] *)
Module AvatarFilter.

Import Js.

(** [interface HeyGenAvatar]; [pose_name = None] is the missing name the
    filter guards against. *)
Record HeyGenAvatar : Type := mkHeyGenAvatar {
  avatar_id : string;
  pose_name : option string;
  default_voice : string;
  is_public : bool;
  normal_preview : string;
  status : string;
  created_at : Z
}.

(** [interface AvatarOption] *)
Record AvatarOption : Type := mkAvatarOption {
  o_avatar_id : string;
  o_avatar_name : option string;
  o_default_voice : option string;
  o_preview_image_url : option string
}.

Definition MEDICAL_KEYWORDS : list string :=
  [ "doctor"; "nurse"; "medical"; "healthcare"; "therapist"; "physician";
    "clinic"; "hospital"; "health"; "care"; "surgeon"; "dentist";
    "pharmacist"; "counselor"; "psychologist"; "psychiatrist"; "clinical";
    "med"; "wellness"; "fitness" ].

(** The lower-case form of a code unit below 256: the letters A-Z and the
    Latin-1 capitals. *)
Definition to_lower (c : ascii) : ascii :=
  let n := nat_of_ascii c in
  if ((65 <=? n) && (n <=? 90))
     || ((192 <=? n) && (n <=? 222) && negb (n =? 215))
  then ascii_of_nat (n + 32)
  else c.

(** [s.toLowerCase()] *)
Fixpoint toLowerCase (s : string) : string :=
  match s with
  | EmptyString => EmptyString
  | String c rest => String (to_lower c) (toLowerCase rest)
  end.

(** [keywords.some((keyword) => name.toLowerCase().includes(keyword))] *)
Definition some_keyword (keywords : list string) (name : string) : bool :=
  existsb (fun keyword => includes keyword (toLowerCase name)) keywords.

(** The callback of the filter, for a list of keywords. *)
Definition keeps_with (keywords : list string) (avatar : HeyGenAvatar) : bool :=
  match pose_name avatar with
  | None => false
  | Some name => if truthy name then some_keyword keywords name else false
  end.

Definition filterMedicalAvatars (avatars : list HeyGenAvatar)
  : list HeyGenAvatar :=
  filter (keeps_with MEDICAL_KEYWORDS) avatars.

Definition convertToAvatarOption (avatar : HeyGenAvatar) : AvatarOption :=
  mkAvatarOption (avatar_id avatar) (pose_name avatar)
                 (Some (default_voice avatar)) (Some (normal_preview avatar)).

Definition getMedicalAvatarOptions (avatars : list HeyGenAvatar)
  : list AvatarOption :=
  map convertToAvatarOption (filterMedicalAvatars avatars).

(** ** Predicates used in the proofs *)

(** The keywords that contain no other keyword. *)
Definition MINIMAL_KEYWORDS : list string :=
  [ "doctor"; "nurse"; "therapist"; "physician"; "clinic"; "hospital";
    "health"; "care"; "surgeon"; "dentist"; "pharmacist"; "counselor";
    "psychologist"; "psychiatrist"; "med"; "wellness"; "fitness" ].

End AvatarFilter.

(** [createDefaultConfig] of [InteractiveAvatar.tsx] and the effect that
    applies it to the fetched avatars. *)
Module DefaultConfig.

Import Js DeepClean AvatarFilter.

Section Enums.

(** The members of the SDK's enumerations the configuration names. *)
Variables AvatarQuality_Low VoiceEmotion_FRIENDLY VoiceChatTransport_WEBSOCKET
          STTProvider_DEEPGRAM : string.

(** [x || ""] for an optional argument. *)
Definition or_empty (x : option string) : string :=
  match x with
  | Some s => s
  | None => EmptyString
  end.

Definition createDefaultConfig (avatarId voiceId : option string) : value :=
  VObj
    [ ("quality", VStr AvatarQuality_Low);
      ("avatarName", VStr (or_empty avatarId));
      ("voice", VObj [ ("voiceId", VStr (or_empty voiceId));
                       ("rate", VNum 1);
                       ("emotion", VStr VoiceEmotion_FRIENDLY) ]);
      ("language", VStr "en");
      ("voiceChatTransport", VStr VoiceChatTransport_WEBSOCKET);
      ("sttSettings", VObj [ ("provider", VStr STTProvider_DEEPGRAM) ]);
      ("disableIdleTimeout", VBool false) ].

(** The configuration state after the effect on [avatars] ran: the first
    option decides, and an empty list leaves the initial configuration. *)
Definition config_for (avatars : list AvatarOption) : value :=
  match avatars with
  | firstAvatar :: _ =>
      createDefaultConfig (Some (o_avatar_id firstAvatar))
                          (o_default_voice firstAvatar)
  | [] => createDefaultConfig None None
  end.

End Enums.

End DefaultConfig.

(* ===================================================================== *)
(** * Observations on sessions and turns *)
(* ===================================================================== *)

(** What a run of [startSessionV2] does, seen from outside. *)
Module SessionRuns.

Import Eff Js Session.

(** The quota gate lets [startSessionV2] go on to the session start. *)
Definition gate_passes (inp : inputs) : bool :=
  match quota inp with
  | QuotaRejects _ => false
  | QuotaResponse true None => false
  | QuotaResponse true (Some q) =>
      if (credits q =? 0)%Z then false
      else if (credits q <? 2)%Z then confirm_answer inp
      else true
  | QuotaResponse false _ => true
  end.

(** The gate ends in the [catch] block. *)
Definition gate_throws (inp : inputs) : bool :=
  match quota inp with
  | QuotaRejects _ => true
  | QuotaResponse true None => true
  | _ => false
  end.

(** The request and the dialog of the gate. *)
Definition gate_effects (inp : inputs) : list effect :=
  FetchQuota
    :: match quota inp with
       | QuotaResponse true (Some q) =>
           if (credits q =? 0)%Z then [Alert]
           else if (credits q <? 2)%Z then [Confirm]
           else []
       | _ => []
       end.

(** What the [catch] block does to a pending timeout. *)
Definition cleanup_effects (w : world) : list effect :=
  if streamReadyTimeoutRef w then [ClearTimeout] else [].

Definition is_create (e : effect) : bool :=
  match e with CreateStartAvatar _ => true | _ => false end.

Definition is_text (t : token_outcome) : bool :=
  match t with TokenText _ => true | TokenRejects _ => false end.

(** The effects [w'] has and [w] has not. *)
Definition new_effects (w w' : world) : list effect :=
  skipn (List.length (log w)) (log w').

(** The world in which [start] is called: a new avatar with the token and
    the logging listeners. *)
Definition before_start (isVoiceChat : bool) (token : string) (w : world) : world :=
  with_avatar (fun a => on_all (logging_listeners a) a)
    (setShouldStartVoiceChat isVoiceChat (init token (perform FetchToken w))).

(** The world in which [createStartAvatar] has been called. *)
Definition create_called (config : DeepClean.value) (w : world) : world :=
  perform (CreateStartAvatar (DeepClean.deepClean config))
    (with_avatar (on_all start_registrations) (setSessionState CONNECTING w)).

(** The [catch] block as a function. *)
Definition cleaned_up (w : world) : world :=
  if streamReadyTimeoutRef w
  then setStreamReadyTimeout false
         (perform ClearTimeout (setShouldStartVoiceChat false w))
  else setShouldStartVoiceChat false w.

(** What [start] does with the answer of [createStartAvatar]. *)
Definition with_session_id (session_id : option string) (w : world) : world :=
  match session_id with
  | Some i => if truthy i then setSessionId (Some i) w else w
  | None => w
  end.

(** The timeout [startSessionV2] sets for a voice chat. *)
Definition with_timeout (isVoiceChat : bool) (w : world) : world :=
  if isVoiceChat
  then setStreamReadyTimeout true (perform (SetTimeout 10000) w)
  else w.

(** Every configuration sent to [createStartAvatar] is free of undefined
    keys and is a fixed point of [deepClean]. *)
Definition clean_configs (w : world) : Prop :=
  forall c, In (CreateStartAvatar c) (log w) ->
            DeepClean.no_undefined_keys c = true /\ DeepClean.deepClean c = c.

(** The world after the gate. *)
Definition after_gate (inp : inputs) (w : world) : world :=
  fold_left (fun acc e => perform e acc) (gate_effects inp) w.

(** The world [startSessionV2] leaves, path by path. *)
Definition world_after (inp : inputs) (isVoiceChat : bool) (w : world) : world :=
  let w1 := after_gate inp w in
  if gate_throws inp then cleaned_up w1
  else if negb (gate_passes inp) then w1
  else
    match token inp with
    | TokenRejects _ => cleaned_up (perform FetchToken w1)
    | TokenText t =>
        if state_eqb (sessionState w) INACTIVE then
          match create inp with
          | CreateRejects _ =>
              cleaned_up (create_called (config inp) (before_start isVoiceChat t w1))
          | CreateResolves session_id =>
              with_timeout isVoiceChat
                (with_session_id session_id
                   (create_called (config inp) (before_start isVoiceChat t w1)))
          end
        else cleaned_up (before_start isVoiceChat t w1)
    end.

(** The effects [startSessionV2] performs, path by path. *)
Definition effects_of (inp : inputs) (isVoiceChat : bool) (w : world)
  : list effect :=
  gate_effects inp
    ++ (if gate_throws inp then cleanup_effects w
        else if negb (gate_passes inp) then []
        else
          FetchToken
            :: match token inp with
               | TokenRejects _ => cleanup_effects w
               | TokenText _ =>
                   if state_eqb (sessionState w) INACTIVE then
                     CreateStartAvatar (DeepClean.deepClean (config inp))
                       :: match create inp with
                          | CreateRejects _ => cleanup_effects w
                          | CreateResolves _ =>
                              if isVoiceChat then [SetTimeout 10000] else []
                          end
                   else cleanup_effects w
               end).

End SessionRuns.

(** The events of a turn. *)
Module TurnEvents.

Import Eff Js LLMChat.

(** What [sendToLLM] may add to the trace of a turn for [userMessage]. *)
Definition turn_event (userMessage : string) (e : event) : bool :=
  match e with
  | FetchChat message => String.eqb message userMessage
  | FetchStreamingTask text =>
      truthy text && String.eqb (trim text) text
  | Sleep ms =>
      (ms =? CHUNK_RETRY_DELAY)%Z || (ms =? CHUNK_DELAY_MS)%Z
      || (ms =? 1000)%Z || (ms =? 2000)%Z
  | Speak text =>
      String.eqb text timeout_fallback || String.eqb text error_fallback
  | AddTextMessage CLIENT text => String.eqb text userMessage
  | AddTextMessage AVATAR text => negb (String.eqb (trim text) EmptyString)
  | SetIsLLMProcessing _ => true
  | SetCurrentLLMResponse _ => true
  | SetLLMError _ => true
  | SetSuppressAvatarEvents _ => true
  end.

(** The events of the relay among them. *)
Definition relay_turn_event (userMessage : string) (e : event) : bool :=
  relay_event e && turn_event userMessage e.

(** The SDK's [speak] was called. *)
Definition speaks (t : list event) : bool :=
  existsb (fun e => match e with Speak _ => true | _ => false end) t.

(** The texts [sendChunkToAvatar] is called with: not empty, and
    trimmed. *)
Definition is_batch (text : string) : Prop :=
  truthy text = true /\ trim text = text.

(** A dispatch function that returns on every batch and adds only
    [Q]-events. *)
Definition tame_on_batches (Q : event -> bool) (send : string -> M world unit)
  : Prop :=
  forall text w,
    is_batch text ->
    exists w', send text w = (Returned tt, w') /\ grows Q w w'.

(** Whether the avatar can speak the fallback. *)
Definition can_speak (E : env) : bool :=
  avatar_present E && state_eqb (sessionState E) CONNECTED.

(** The message [sendToLLM] reports for the last error. *)
Definition reported (e : JsError) : string :=
  if String.eqb (name e) "AbortError"
  then "Request timed out after 3 attempts. The LLM backend may be unavailable or overloaded."
  else message e.

(** The apology it asks the avatar to speak. *)
Definition fallback (e : JsError) : string :=
  if String.eqb (name e) "AbortError" then timeout_fallback else error_fallback.

(** How a turn ends. *)
Definition succeeded (r : LLMChatResponse) (added : list event) : Prop :=
  exists text,
    r = mkResponse true (Some text) None
    /\ trim text <> EmptyString
    /\ exists before, added = before ++ [AddTextMessage AVATAR text]
                      /\ history_added before = []
                      /\ speaks before = false.

Definition failed (E : env) (r : LLMChatResponse) (added : list event) : Prop :=
  exists e before,
    r = mkResponse false None (Some (reported e))
    /\ added = before
                ++ [SetLLMError (Some (reported e)); SetCurrentLLMResponse EmptyString]
                ++ (if can_speak E then [Speak (fallback e)] else [])
    /\ history_added before = []
    /\ speaks before = false.

End TurnEvents.

(** Observations on the history and on the voice trigger. *)
Module HistoryObs.

(** What identifies a message in the list: its id and its sender. *)
Definition identity (m : Message) : string * MessageSender := (id m, sender m).

(** A history in which the user was speaking when the answer arrived:
    the tracker names the client. *)
Definition user_speaking : History.state :=
  History.mkState [mkMessage "1700000000000" CLIENT "What is" false] (Some CLIENT).

End HistoryObs.

Module TriggerObs.

Import VoiceTrigger.

(** The evaluations in which the guard of the effect can let a message
    through: voice chat is active and no turn is shown as processing. *)
Definition eligible (e : event) : bool :=
  match e with
  | Evaluate d => isVoiceChatActive d && negb (isLLMProcessing d)
  | Settle => false
  end.

(** A call [sendToLLM(content, true)] with a transcript that is not
    blank. *)
Definition voice_call (invocation : string * bool) : Prop :=
  snd invocation = true /\ Js.trim (fst invocation) <> EmptyString.

End TriggerObs.

(** Sample environments of a turn and of a session start. *)
Module Samples.

Import Eff LLMChat.

(** A live session whose chat route answers [200] with a stream of one
    line, an error line. *)
Definition error_line_env : env :=
  mkEnv (Some "session-1") (Some "session-token")
        (fun _ =>
           LlmResponse 200 "OK"
             (Some (mkBody [[Some (mkLine "Backend unavailable" EmptyString true)]]
                           None)))
        (fun _ => TtsResponse 200 true) true CONNECTED None.

(** Inputs of [startSessionV2] under which the SDK rejects the creation of
    the session. *)
Definition rejecting_inputs : Session.inputs :=
  Session.mkInputs (Session.quota_of 10) true (Session.TokenText "session-token")
    (Session.CreateRejects
       (Session.mkSdkError Session.network_failure None None None))
    Session.sample_config.

End Samples.

(** The chat route as the client of [sendToLLM] sees it. *)
Module ChatClient.

Import Eff Js AdapterFactory ChatRoute.

(** The environment names a provider that the factory cannot build: the
    custom provider (also when none is named) without a URL, the OpenAI
    provider without a key, or any other name. *)
Definition misconfigured (env : environment) : bool :=
  let provider := or_default (LLM_PROVIDER env) "custom" in
  if String.eqb provider "custom" then falsy_opt (CUSTOM_LLM_API_URL env)
  else if String.eqb provider "openai" then falsy_opt (OPENAI_API_KEY env)
  else true.

(** [fetch("/api/chat")] answered by the route: the status of the response,
    the status text the transport gives it, and its lines in one read. *)
Definition chat_via_route (statusText : string) (r : response)
  : LLMChat.llm_outcome :=
  LLMChat.LlmResponse (status r) statusText
    (Some (LLMChat.mkBody (wire [sent r]) None)).

(** An environment that names no provider and no URL. *)
Definition empty_environment : environment :=
  mkEnvironment None None None None None None None.

End ChatClient.

(* ===================================================================== *)
(** * Properties of [deepClean] *)
(* ===================================================================== *)

Module DeepCleanFacts.

Import DeepClean.

(** Induction over values, with the hypothesis available for every item of
    an array and every entry of an object. *)
Lemma value_induction (P : value -> Prop) :
  P VUndefined -> P VNull ->
  (forall b, P (VBool b)) -> (forall n, P (VNum n)) -> (forall s, P (VStr s)) ->
  (forall items, Forall P items -> P (VArr items)) ->
  (forall entries, Forall (fun kv => P (snd kv)) entries -> P (VObj entries)) ->
  forall v, P v.
Proof.
  intros HU HN HB HZ HS HA HO.
  fix IH 1.
  intros [ | | b | n | s | items | entries ].
  - exact HU.
  - exact HN.
  - apply HB.
  - apply HZ.
  - apply HS.
  - apply HA.
    induction items as [ | x xs IHxs ]; constructor; [ apply IH | exact IHxs ].
  - apply HO.
    induction entries as [ | [k x] es IHes ]; constructor;
      [ apply IH | exact IHes ].
Qed.

Lemma fold_clean_step entries :
  forall acc,
    fold_left
      (fun acc kv =>
         match kv with
         | (key, v) =>
             if is_undefined v then acc else set_prop acc key (deepClean v)
         end) entries acc
    = clean_entries entries acc.
Proof.
  induction entries as [ | [k v] es IH ]; intro acc; simpl.
  - reflexivity.
  - rewrite IH. reflexivity.
Qed.

Lemma deepClean_object entries :
  deepClean (VObj entries) = VObj (clean_entries entries []).
Proof. simpl. now rewrite fold_clean_step. Qed.

Lemma is_undefined_deepClean v : is_undefined (deepClean v) = is_undefined v.
Proof. destruct v; reflexivity. Qed.



(** ** [set_prop] and [get] *)

Lemma keys_set_prop acc k v :
  keys (set_prop acc k v) = if existsb (String.eqb k) (keys acc)
                            then keys acc else keys acc ++ [k].
Proof.
  induction acc as [ | [k0 w0] acc IH ]; simpl.
  - reflexivity.
  - destruct (String.eqb k k0) eqn:E; simpl.
    + reflexivity.
    + rewrite IH. destruct (existsb (String.eqb k) (keys acc)); reflexivity.
Qed.

Lemma existsb_eqb_In k ks : existsb (String.eqb k) ks = true <-> In k ks.
Proof.
  rewrite existsb_exists. split.
  - intros [x [Hin Heq]]. apply String.eqb_eq in Heq. now subst.
  - intro Hin. exists k. split; [ exact Hin | apply String.eqb_refl ].
Qed.

Lemma NoDup_snoc (A : Type) (l : list A) (x : A) :
  NoDup l -> ~ In x l -> NoDup (l ++ [x]).
Proof.
  induction 1 as [ | y l Hy Hl IH ]; intro Hx; simpl.
  - constructor; [ intros [] | constructor ].
  - constructor.
    + rewrite in_app_iff. intros [H | [H | []]]; [ now apply Hy | ].
      apply Hx. left. now symmetry.
    + apply IH. intro H. apply Hx. now right.
Qed.

Lemma NoDup_keys_set_prop acc k v :
  NoDup (keys acc) -> NoDup (keys (set_prop acc k v)).
Proof.
  intro H. rewrite keys_set_prop.
  destruct (existsb (String.eqb k) (keys acc)) eqn:E.
  - exact H.
  - apply NoDup_snoc; [ exact H | ].
    intro Hin. apply existsb_eqb_In in Hin. congruence.
Qed.

Lemma Forall_set_prop (P : string * value -> Prop) acc k v :
  (forall k', P (k', v)) -> Forall P acc -> Forall P (set_prop acc k v).
Proof.
  intros Hv. induction 1 as [ | [k0 w0] acc H0 Hacc IH ]; simpl.
  - constructor; [ apply Hv | constructor ].
  - destruct (String.eqb k k0); constructor; auto.
Qed.

Lemma set_prop_fresh acc k v :
  ~ In k (keys acc) -> set_prop acc k v = acc ++ [(k, v)].
Proof.
  induction acc as [ | [k0 w0] acc IH ]; simpl; intro H.
  - reflexivity.
  - destruct (String.eqb k k0) eqn:E.
    + apply String.eqb_eq in E. exfalso. apply H. left. now symmetry.
    + rewrite IH; [ reflexivity | ]. intro Hin. apply H. now right.
Qed.





(** ** The entries of a cleaned object *)

Lemma clean_step_keeps acc kv :
  (is_undefined (snd kv) = false ->
   deepClean (deepClean (snd kv)) = deepClean (snd kv)
   /\ no_undefined_keys (deepClean (snd kv)) = true) ->
  NoDup (keys acc) /\ Forall (fun e => settled (snd e)) acc ->
  NoDup (keys (clean_step acc kv))
  /\ Forall (fun e => settled (snd e)) (clean_step acc kv).
Proof.
  intros Hkv [Hnd Hall]. unfold clean_step.
  destruct (is_undefined (snd kv)) eqn:E.
  - now split.
  - destruct (Hkv eq_refl) as [Hidem Hkeys]. split.
    + now apply NoDup_keys_set_prop.
    + apply Forall_set_prop; [ | exact Hall ].
      intro k'. simpl. repeat split; try assumption.
      now rewrite is_undefined_deepClean.
Qed.

Lemma clean_entries_keeps entries :
  Forall (fun kv => deepClean (deepClean (snd kv)) = deepClean (snd kv)
                    /\ no_undefined_keys (deepClean (snd kv)) = true) entries ->
  forall acc,
    NoDup (keys acc) /\ Forall (fun e => settled (snd e)) acc ->
    NoDup (keys (clean_entries entries acc))
    /\ Forall (fun e => settled (snd e)) (clean_entries entries acc).
Proof.
  induction 1 as [ | kv es Hkv Hes IH ]; intros acc Hacc; simpl.
  - exact Hacc.
  - apply IH. apply clean_step_keeps; [ intros _; exact Hkv | exact Hacc ].
Qed.

(** Cleaning entries that are settled and have distinct keys adds them to
    the accumulator as they are. *)
Lemma clean_entries_settled entries :
  NoDup (keys entries) ->
  Forall (fun e => settled (snd e)) entries ->
  forall acc,
    (forall k, In k (keys entries) -> ~ In k (keys acc)) ->
    clean_entries entries acc = acc ++ entries.
Proof.
  induction entries as [ | [k v] es IH ]; intros Hnd Hall acc Hdisj; simpl.
  - now rewrite app_nil_r.
  - inversion Hnd as [ | ? ? Hk Hes ]; subst.
    inversion Hall as [ | ? ? Hv Hall' ]; subst.
    destruct Hv as [Hdef [Hfix _]]. simpl in Hdef, Hfix.
    unfold clean_step at 1. simpl. rewrite Hdef, Hfix.
    rewrite set_prop_fresh by (apply Hdisj; now left).
    rewrite IH; try assumption.
    + now rewrite <- app_assoc.
    + intros k' Hk' Hin. unfold keys in Hin.
      rewrite map_app, in_app_iff in Hin. destruct Hin as [Hin | [Hin | []]].
      * apply (Hdisj k'); [ now right | exact Hin ].
      * simpl in Hin. subst k'. now apply Hk.
Qed.

Lemma forallb_settled (entries : list (string * value)) :
  Forall (fun e => settled (snd e)) entries ->
  forallb (fun kv => negb (is_undefined (snd kv)) && no_undefined_keys (snd kv))
          entries = true.
Proof.
  induction 1 as [ | kv es [Hdef [_ Hkeys]] Hes IH ]; simpl.
  - reflexivity.
  - now rewrite Hdef, Hkeys, IH.
Qed.

(** The two recursive properties, proved together. *)
Lemma deepClean_settles v :
  deepClean (deepClean v) = deepClean v
  /\ no_undefined_keys (deepClean v) = true.
Proof.
  induction v as [ | | b | n | s | items IH | entries IH ] using value_induction;
    try (split; reflexivity).
  - simpl. rewrite map_map. split.
    + f_equal. apply map_ext_in. intros x Hx.
      rewrite Forall_forall in IH. now apply IH.
    + rewrite forallb_forall. intros y Hy.
      apply in_map_iff in Hy. destruct Hy as [x [<- Hx]].
      rewrite Forall_forall in IH. now apply IH.
  - rewrite deepClean_object.
    destruct (clean_entries_keeps IH (acc := []))
      as [Hnd Hall]; [ split; constructor | ].
    split.
    + rewrite deepClean_object. f_equal.
      rewrite clean_entries_settled; auto.
    + simpl. now apply forallb_settled.
Qed.




(** What [map] leaves in an array: an item that is [undefined] stays. *)
Example deepClean_array_item :
  deepClean (VObj [("a", VArr [VUndefined; VObj [("b", VUndefined)]])])
  = VObj [("a", VArr [VUndefined; VObj []])].
Proof. reflexivity. Qed.



End DeepCleanFacts.

(* ===================================================================== *)
(** * Properties of strings *)
(* ===================================================================== *)

Module StringFacts.

Lemma append_nil_r (s : string) : (s ++ "")%string = s.
Proof. induction s as [ | c s IH ]; simpl; [ | rewrite IH ]; reflexivity. Qed.

Lemma append_assoc (a b c : string) :
  ((a ++ b) ++ c)%string = (a ++ (b ++ c))%string.
Proof. induction a as [ | x a IH ]; simpl; [ | rewrite IH ]; reflexivity. Qed.

Lemma join_cons (t : string) (ts : list string) :
  History.join (t :: ts) = (t ++ History.join ts)%string.
Proof.
  unfold History.join. destruct ts as [ | u us ]; simpl.
  - now rewrite append_nil_r.
  - reflexivity.
Qed.

End StringFacts.

(* ===================================================================== *)
(** * Properties of the message history *)
(* ===================================================================== *)

Module HistoryFacts.

Import History StringFacts.

Lemma last_message_snoc (l : list Message) (m : Message) :
  last_message (l ++ [m]) = Some m.
Proof. unfold last_message. rewrite map_app. simpl. apply last_last. Qed.

Lemma last_message_none (l : list Message) :
  last_message l = None -> l = [].
Proof.
  destruct l as [ | m l ] using rev_ind; [ reflexivity | ].
  rewrite last_message_snoc. discriminate.
Qed.

Lemma extend_last_snoc (text : string) (l : list Message) (m : Message) :
  extend_last text (l ++ [m])
  = Some (l ++ [mkMessage (id m) (sender m) (content m ++ text)%string false]).
Proof.
  unfold extend_last. rewrite last_message_snoc. now rewrite removelast_last.
Qed.

(** The first event of a turn opens a message. *)
Lemma talking_opens who now text st :
  currentSenderRef st <> Some who ->
  talking who now text st
  = Some (mkState (messages st ++ [mkMessage now who text false]) (Some who)).
Proof.
  intro H. unfold talking.
  destruct (currentSenderRef st) as [ cur | ]; [ | reflexivity ].
  destruct cur, who; simpl; try reflexivity; now contradiction H.
Qed.

(** A later event of the turn extends the last message. *)
Lemma talking_extends who now text l m :
  talking who now text (mkState (l ++ [m]) (Some who))
  = Some (mkState
            (l ++ [mkMessage (id m) (sender m) (content m ++ text)%string false])
            (Some who)).
Proof.
  unfold talking. simpl.
  replace (sender_eqb who who) with true by now destruct who.
  now rewrite extend_last_snoc.
Qed.

Lemma partial_not_suppressed suppress who now text st :
  (who = AVATAR -> suppress = false) ->
  partial suppress who now text st = talking who now text st.
Proof.
  intro H. destruct who; simpl.
  - reflexivity.
  - unfold handleStreamingTalkingMessage. now rewrite (H eq_refl).
Qed.

(** A run of events on an open message appends their texts in order. *)
Lemma partials_extend suppress who events :
  (who = AVATAR -> suppress = false) ->
  forall l i s c,
    partials suppress who events
      (mkState (l ++ [mkMessage i s c false]) (Some who))
    = Some (mkState
              (l ++ [mkMessage i s (c ++ join (map snd events))%string false])
              (Some who)).
Proof.
  intro Hs. induction events as [ | [now text] rest IH ]; intros l i s c; simpl.
  - unfold join. simpl. now rewrite append_nil_r.
  - rewrite (partial_not_suppressed _ _ _ Hs), talking_extends. simpl.
    rewrite IH. fold (join (text :: map snd rest)).
    now rewrite join_cons, append_assoc.
Qed.

(** From a state in which [who] has no message open, a non-empty run
    leaves one new message whose content is the concatenation. *)
Lemma partials_open suppress who first rest st :
  (who = AVATAR -> suppress = false) ->
  currentSenderRef st <> Some who ->
  partials suppress who (first :: rest) st
  = Some (mkState
            (messages st
               ++ [mkMessage (fst first) who
                             (join (map snd (first :: rest))) false])
            (Some who)).
Proof.
  intros Hs Hcur. destruct first as [now text]. simpl.
  rewrite (partial_not_suppressed _ _ _ Hs), (talking_opens _ _ _ Hcur).
  rewrite partials_extend by exact Hs.
  fold (join (text :: map snd rest)). now rewrite join_cons.
Qed.

Lemma apply_keeps_tracker e st st' :
  tracker_has_message st -> apply e st = Some st' -> tracker_has_message st'.
Proof.
  unfold tracker_has_message. intros Hst He.
  assert (Hsnoc : forall (l : list Message) x, l ++ [x] <> [])
    by (intros l x H; now destruct l).
  assert (Htalk : forall who now text,
             talking who now text st = Some st' ->
             currentSenderRef st' <> None -> messages st' <> []).
  { intros who now text Ht _. unfold talking in Ht.
    destruct (currentSenderRef st) as [ cur | ] eqn:Ecur.
    - destruct (sender_eqb cur who).
      + unfold extend_last in Ht.
        destruct (last_message (messages st)); [ | discriminate ].
        injection Ht as <-. simpl. apply Hsnoc.
      + injection Ht as <-. simpl. apply Hsnoc.
    - injection Ht as <-. simpl. apply Hsnoc. }
  destruct e as [ now text | sup now text | | now who text | ]; simpl in He.
  - eapply Htalk; exact He.
  - unfold handleStreamingTalkingMessage in He. destruct sup.
    + injection He as <-. exact Hst.
    + eapply Htalk; exact He.
  - injection He as <-. simpl. intro H. now contradiction H.
  - injection He as <-. simpl. intros _. apply Hsnoc.
  - injection He as <-. simpl. intro H. now contradiction H.
Qed.

Lemma reachable_tracker st : reachable st -> tracker_has_message st.
Proof.
  induction 1 as [ | e st st' Hr IH He ].
  - intro H. now contradiction H.
  - eapply apply_keeps_tracker; eassumption.
Qed.

(** On a reachable history no handler throws. *)
Lemma reachable_apply_total st e :
  reachable st -> exists st', apply e st = Some st'.
Proof.
  intro Hr. pose proof (reachable_tracker Hr) as Ht.
  assert (Htalk : forall who now text, exists st', talking who now text st = Some st').
  { intros who now text. unfold talking.
    destruct (currentSenderRef st) as [ cur | ] eqn:Ecur; [ | eauto ].
    destruct (sender_eqb cur who); [ | eauto ].
    unfold extend_last.
    destruct (last_message (messages st)) eqn:El; [ eauto | ].
    apply last_message_none in El. exfalso. apply Ht; [ | exact El ].
    rewrite Ecur. discriminate. }
  destruct e as [ now text | sup now text | | now who text | ]; simpl; eauto.
  unfold handleStreamingTalkingMessage. destruct sup; eauto.
Qed.

(** C8, as stated, fails for avatar events that arrive while
    [suppressAvatarEvents] is set: the handler returns before it touches
    the history, so no message is opened. *)
Lemma suppressed_avatar_events_open_nothing :
  partials true AVATAR [("1", "Hello"); ("2", " there")] initial = Some initial
  /\ ~ concatenates true AVATAR [("1", "Hello"); ("2", " there")] initial.
Proof.
  split; [ reflexivity | ].
  intros [st' [m [Hrun [Hopen _]]]].
  simpl in Hrun. injection Hrun as <-. discriminate Hopen.
Qed.

(** C8, amended.  Take a run of partial-transcript events of one sender,
    with no other event in between, that starts where this sender has no
    message open, and for the avatar let [suppressAvatarEvents] be unset.
    After every event of the run the history is the old one followed by
    one open message of the sender whose content is the concatenation of
    the texts received so far and whose [isComplete] is [false]. *)
Theorem partials_concatenate suppress who first rest st n :
  (who = AVATAR -> suppress = false) ->
  currentSenderRef st <> Some who ->
  let seen := firstn (S n) (first :: rest) in
  exists st',
    partials suppress who seen st = Some st'
    /\ messages st'
       = messages st
           ++ [mkMessage (fst first) who (join (map snd seen)) false]
    /\ currentSenderRef st' = Some who
    /\ concatenates suppress who seen st.
Proof.
  intros Hs Hcur seen. subst seen. rewrite firstn_cons.
  pose proof (partials_open first (firstn n rest) st Hs Hcur) as Hrun.
  eexists. split; [ exact Hrun | ]. split; [ reflexivity | ].
  split; [ reflexivity | ].
  eexists. eexists. split; [ exact Hrun | ].
  unfold open_message. simpl. rewrite last_message_snoc. simpl.
  repeat split; reflexivity.
Qed.

Lemma partials_concatenate_witness :
  exists st',
    partials false AVATAR [("10", "Hel"); ("11", "lo ")] 
      (addTextMessage "9" CLIENT "hi" initial) = Some st'
    /\ messages st'
       = [mkMessage "9" CLIENT "hi" true; mkMessage "10" AVATAR "Hello " false]
    /\ currentSenderRef st' = Some AVATAR
    /\ concatenates false AVATAR [("10", "Hel"); ("11", "lo ")]
         (addTextMessage "9" CLIENT "hi" initial).
Proof.
  apply (partials_concatenate (suppress := false) (who := AVATAR)
           ("10", "Hel") [("11", "lo "); ("12", "world")]
           (addTextMessage "9" CLIENT "hi" initial) 1).
  - reflexivity.
  - simpl. discriminate.
Defined.

End HistoryFacts.

(* ===================================================================== *)
(** * Properties of the voice trigger *)
(* ===================================================================== *)

Module VoiceTriggerFacts.

Import VoiceTrigger.

Lemma effect_cases d st :
  effect d st = st
  \/ (processingRef st = false
      /\ exists m,
           History.last_message (messages d) = Some m
           /\ is_new_complete_client_message m st = true
           /\ effect d st
              = mkState (Some (id m)) true
                        (invocations st ++ [(content m, true)])
                        (S (in_flight st))).
Proof.
  unfold effect.
  destruct (negb (isVoiceChatActive d) || isLLMProcessing d || processingRef st)
    eqn:G; [ now left | ].
  apply orb_false_iff in G. destruct G as [_ Hp].
  destruct (History.last_message (messages d)) as [ m | ]; [ | now left ].
  destruct (is_new_complete_client_message m st) eqn:N; [ | now left ].
  right. split; [ exact Hp | ]. exists m. simpl. now repeat split.
Qed.

Lemma step_guarded e st : guarded st -> guarded (step e st).
Proof.
  intros G. destruct e as [ d | ]; simpl.
  - destruct (effect_cases d st) as [ -> | [Hp [m [_ [_ ->]]]] ]; [ exact G | ].
    left. simpl. destruct G as [[Ht _] | [_ H0]]; [ congruence | ].
    now rewrite H0.
  - destruct (0 <? in_flight st) eqn:E; [ | exact G ].
    right. unfold settle. simpl. destruct G as [[_ H1] | [_ H0]].
    + now rewrite H1.
    + rewrite H0 in E. discriminate.
Qed.

Lemma run_guarded events : forall st, guarded st -> guarded (run events st).
Proof.
  induction events as [ | e es IH ]; intros st G; simpl.
  - exact G.
  - apply IH, step_guarded, G.
Qed.

(** At most one turn started by the trigger is in flight, whatever the
    order of evaluations and completions. *)
Lemma at_most_one_in_flight events : in_flight (run events initial) <= 1.
Proof.
  assert (G : guarded initial) by (right; now split).
  destruct (run_guarded events G) as [[_ ->] | [_ ->]]; lia.
Qed.

Lemma differs_same i : differs i (Some i) = false.
Proof. simpl. now rewrite String.eqb_refl. Qed.

(** Once [m] is the marked message, no evaluation that sees [m] calls
    [sendToLLM], whether or not the turn has completed. *)
Lemma marked_message_is_skipped m events :
  all_see m events ->
  forall st,
    lastProcessedMessageIdRef st = Some (id m) ->
    invocations (run events st) = invocations st
    /\ lastProcessedMessageIdRef (run events st) = Some (id m).
Proof.
  induction 1 as [ | e es He Hes IH ]; intros st Hmark; simpl.
  - now split.
  - assert (Hstep : invocations (step e st) = invocations st
                    /\ lastProcessedMessageIdRef (step e st) = Some (id m)).
    { destruct e as [ d | ]; simpl.
      - destruct (effect_cases d st) as [ -> | [_ [m' [Hl [Hn _]]]] ];
          [ now split | ].
        rewrite He in Hl. injection Hl as <-.
        unfold is_new_complete_client_message in Hn.
        rewrite Hmark, differs_same in Hn.
        rewrite andb_false_r in Hn. discriminate.
      - destruct (0 <? in_flight st); now split. }
    destruct Hstep as [Hi Hl]. destruct (IH _ Hl) as [Hi' Hl'].
    split; [ congruence | exact Hl' ].
Qed.

(** C9.  Let an evaluation of the effect find a new complete CLIENT message
    [m] while no turn is in flight, and let any number of further
    evaluations that see [m], and completions, follow in any order.  The
    first evaluation sets [processingRef] and the marker and calls
    [sendToLLM] in the same step; none of the others calls it.  So
    [sendToLLM] is called exactly once for [m], and at no point is more
    than one turn in flight. *)
Theorem one_invocation_per_message d m st events :
  triggers d m st ->
  in_flight st = 0 ->
  all_see m events ->
  processingRef (effect d st) = true
  /\ lastProcessedMessageIdRef (effect d st) = Some (id m)
  /\ invocations (run (Evaluate d :: events) st)
     = invocations st ++ [(content m, true)]
  /\ in_flight (run (Evaluate d :: events) st) <= 1.
Proof.
  intros [Hv [Hl [Hp [Hlast Hnew]]]] H0 Hsee.
  assert (Heff : effect d st
                 = mkState (Some (id m)) true
                           (invocations st ++ [(content m, true)]) 1).
  { unfold effect. rewrite Hv, Hl, Hp, Hlast, Hnew. simpl. now rewrite H0. }
  simpl. rewrite Heff. simpl. repeat split.
  - destruct (marked_message_is_skipped Hsee
                (mkState (Some (id m)) true
                         (invocations st ++ [(content m, true)]) 1) eq_refl)
      as [Hi _].
    exact Hi.
  - assert (G : guarded (mkState (Some (id m)) true
                           (invocations st ++ [(content m, true)]) 1))
      by (left; now split).
    destruct (run_guarded events G) as [[_ ->] | [_ ->]]; lia.
Qed.

Lemma one_invocation_per_message_witness :
  let m := mkMessage "1700000000000" CLIENT "What is a cell?" true in
  let d := mkDeps [mkMessage "1699999999000" AVATAR "Hello." true; m] true false in
  let events := [Evaluate d; Settle; Evaluate d; Evaluate (mkDeps [m] true true)] in
  processingRef (effect d initial) = true
  /\ lastProcessedMessageIdRef (effect d initial) = Some (id m)
  /\ invocations (run (Evaluate d :: events) initial)
     = invocations initial ++ [(content m, true)]
  /\ in_flight (run (Evaluate d :: events) initial) <= 1.
Proof.
  intros m d events.
  apply (one_invocation_per_message (d := d) (m := m) (st := initial)
           (events := events)).
  - repeat split; reflexivity.
  - reflexivity.
  - repeat constructor.
Defined.

End VoiceTriggerFacts.

(* ===================================================================== *)
(** * Properties of the session *)
(* ===================================================================== *)

Module SessionFacts.

Import Eff Session.

(** ** The identifiers and the state *)


Lemma frames_compose f g : frames f -> frames g -> frames (fun w => f (g w)).
Proof.
  intros Hf Hg w. destruct (Hf (g w)) as [A1 [A2 A3]].
  destruct (Hg w) as [B1 [B2 B3]]. repeat split; congruence.
Qed.



Lemma frames_with_avatar f : frames (with_avatar f).
Proof. intro w. unfold with_avatar. destruct (avatarRef w); now repeat split. Qed.











Lemma stop_before_await_clears w :
  stream (stop_before_await w) = None
  /\ sessionId (stop_before_await w) = None
  /\ sessionToken (stop_before_await w) = None
  /\ sessionState (stop_before_await w) = sessionState w.
Proof.
  unfold stop_before_await, stopVoiceChat, with_avatar.
  destruct (avatarRef w) eqn:Ea; simpl; rewrite ?Ea; now repeat split.
Qed.

Lemma stop_result e w :
  let w1 := stop_before_await w in
  snd (stop e w)
  = match avatarRef w1, e with
    | Some _, Some _ => perform StopAvatar w1
    | Some _, None => setSessionState INACTIVE (perform StopAvatar w1)
    | None, _ => setSessionState INACTIVE w1
    end.
Proof.
  cbv zeta. unfold stop, bind, modify, gets. cbv beta.
  generalize (stop_before_await w). intro w1.
  destruct (avatarRef w1); [ | reflexivity ].
  destruct e; reflexivity.
Qed.


(** A stop whose SDK call resolves leaves the three identifiers null and
    the state [INACTIVE], from any state. *)
Lemma stop_resets w :
  let w' := snd (stop None w) in
  sessionState w' = INACTIVE /\ stream w' = None
  /\ sessionId w' = None /\ sessionToken w' = None.
Proof.
  simpl. rewrite stop_result.
  destruct (stop_before_await_clears w) as [Hs [Hi [Ht _]]].
  destruct (avatarRef (stop_before_await w)); simpl; now repeat split.
Qed.










(** ** Listeners *)









(** C4 at its failing input: a session is started by [startSessionV2] and
    torn down by [stop].  The ten arrow functions that [startSessionV2]
    attached during the start are still registered afterwards; [stop]
    removed the eleven pairs of [start] only. *)
Theorem logging_listeners_survive_stop :
  let started := snd (startSessionV2 (inputs_with (quota_of 10) true) false
                                     initial) in
  let stopped := snd (stop None started) in
  current_listeners started
  = logging_listeners (mkAvatar 0 []) ++ start_registrations
  /\ sessionState stopped = INACTIVE
  /\ current_listeners stopped = logging_listeners (mkAvatar 0 [])
  /\ List.length (current_listeners stopped) = 10.
Proof. repeat split. Qed.

(** ** The quota gate *)

(** With no credits the function alerts and returns; it fetches no token
    and creates no session. *)
Lemma no_credits_block_start inp v w q :
  quota inp = QuotaResponse true (Some q) ->
  credits q = 0%Z ->
  startSessionV2 inp v w = (Returned tt, perform Alert (perform FetchQuota w)).
Proof.
  intros Hq Hc. unfold startSessionV2, try_catch, bind, quota_gate, modify.
  simpl. rewrite Hq, Hc. reflexivity.
Qed.

(** With one credit (below two, not zero) the user is asked; a refusal
    returns at once. *)
Lemma low_credits_declined inp v w q :
  quota inp = QuotaResponse true (Some q) ->
  credits q <> 0%Z -> (credits q < 2)%Z ->
  confirm_answer inp = false ->
  startSessionV2 inp v w
  = (Returned tt, perform Confirm (perform FetchQuota w)).
Proof.
  intros Hq H0 H2 Ha.
  unfold startSessionV2, try_catch, bind, quota_gate, modify.
  simpl. rewrite Hq.
  apply Z.eqb_neq in H0. apply Z.ltb_lt in H2. rewrite H0, H2. simpl.
  rewrite Ha. reflexivity.
Qed.

(** ... and a confirmation goes on to the session start. *)
Lemma low_credits_confirmed inp v w q :
  quota inp = QuotaResponse true (Some q) ->
  credits q <> 0%Z -> (credits q < 2)%Z ->
  confirm_answer inp = true ->
  startSessionV2 inp v w
  = try_catch (session_start_logic inp v) clean_up_on_error
      (perform Confirm (perform FetchQuota w)).
Proof.
  intros Hq H0 H2 Ha.
  unfold startSessionV2, try_catch, bind, quota_gate, modify.
  simpl. rewrite Hq.
  apply Z.eqb_neq in H0. apply Z.ltb_lt in H2. rewrite H0, H2. simpl.
  rewrite Ha. reflexivity.
Qed.

(** With two credits or more nobody is asked. *)
Lemma enough_credits_proceed inp v w q :
  quota inp = QuotaResponse true (Some q) ->
  (2 <= credits q)%Z ->
  startSessionV2 inp v w
  = try_catch (session_start_logic inp v) clean_up_on_error
      (perform FetchQuota w).
Proof.
  intros Hq H2.
  unfold startSessionV2, try_catch, bind, quota_gate, modify.
  simpl. rewrite Hq.
  replace (credits q =? 0)%Z with false by (symmetry; apply Z.eqb_neq; lia).
  replace (credits q <? 2)%Z with false by (symmetry; apply Z.ltb_ge; lia).
  reflexivity.
Qed.

(** A response that is not [ok] is passed over. *)
Lemma quota_not_ok_proceeds inp v w data :
  quota inp = QuotaResponse false data ->
  startSessionV2 inp v w
  = try_catch (session_start_logic inp v) clean_up_on_error
      (perform FetchQuota w).
Proof.
  intros Hq.
  unfold startSessionV2, try_catch, bind, quota_gate, modify.
  simpl. rewrite Hq. reflexivity.
Qed.

(** A rejected quota request lands in the [catch] block of
    [startSessionV2]: nothing of the session start runs. *)
Lemma quota_rejection_aborts inp v w e :
  quota inp = QuotaRejects e ->
  startSessionV2 inp v w = clean_up_on_error e (perform FetchQuota w).
Proof.
  intros Hq.
  unfold startSessionV2, try_catch, bind, quota_gate, modify.
  simpl. rewrite Hq. reflexivity.
Qed.

(** The session start, once reached, fetches a token and creates the
    session. *)
Example start_after_gate :
  log (snd (startSessionV2 (inputs_with (quota_of 10) true) true initial))
  = [FetchQuota; FetchToken;
     CreateStartAvatar (DeepClean.deepClean sample_config); SetTimeout 10000]
  /\ log (snd (startSessionV2 (inputs_with (quota_of 1) true) true initial))
     = [FetchQuota; Confirm; FetchToken;
        CreateStartAvatar (DeepClean.deepClean sample_config); SetTimeout 10000]
  /\ log (snd (startSessionV2 (inputs_with (quota_of 1) false) true initial))
     = [FetchQuota; Confirm]
  /\ log (snd (startSessionV2 (inputs_with (quota_of 0) true) true initial))
     = [FetchQuota; Alert]
  /\ log (snd (startSessionV2 (inputs_with (QuotaResponse false None) true)
                              true initial))
     = [FetchQuota; FetchToken;
        CreateStartAvatar (DeepClean.deepClean sample_config); SetTimeout 10000].
Proof. repeat split. Qed.

(** C7 at its failing input: the request to [/api/quota-check] is rejected
    (the network is down).  The session start does not proceed: no token is
    fetched, no session is created, the state stays [INACTIVE]. *)
Theorem rejected_quota_check_blocks_start :
  let w := snd (startSessionV2
                  (inputs_with (QuotaRejects network_failure) true) true
                  initial) in
  log w = [FetchQuota]
  /\ did FetchToken w = false
  /\ created_session w = false
  /\ sessionState w = INACTIVE
  /\ avatarRef w = None.
Proof. repeat split. Qed.

End SessionFacts.

(* ===================================================================== *)
(** * Properties of sentence batching *)
(* ===================================================================== *)

Module BatchingFacts.

Import LLMChat Js StringFacts.

Lemma config_eqb_eq (a b : config) : config_eqb a b = true -> a = b.
Proof.
  destruct a as [ab as_], b as [bb bs]. unfold config_eqb. simpl.
  intro H. apply andb_prop in H. destruct H as [H1 H2].
  apply String.eqb_eq in H1.
  destruct (list_eq_dec string_dec as_ bs); [ | discriminate ].
  congruence.
Qed.

Lemma existsb_config_In (c : config) (cs : list config) :
  existsb (config_eqb c) cs = true -> In c cs.
Proof.
  intro H. apply existsb_exists in H. destruct H as [x [Hin Heq]].
  apply config_eqb_eq in Heq. now subst.
Qed.

Lemma splits_complete (f r : string) :
  f <> EmptyString -> In (f, r) (splits (f ++ r)).
Proof.
  induction f as [ | c f IH ]; intro Hne; [ now contradiction Hne | ].
  simpl. destruct f as [ | d f ].
  - now left.
  - right.
    change (String c (String d f), r)
      with ((fun fr : string * string => (String c (fst fr), snd fr))
              (String d f, r)).
    apply in_map, IH. discriminate.
Qed.

Lemma lookup_entry (t : table) (s : string) (c : config) :
  In c (lookup t s) -> In (s, lookup t s) t.
Proof.
  unfold lookup. destruct (find (fun e => String.eqb (fst e) s) t) as [ e | ] eqn:F.
  - intros _. apply find_some in F. destruct F as [Hin Heq].
    apply String.eqb_eq in Heq. destruct e as [k v]. simpl in *. now subst.
  - intros [].
Qed.

(** In a closed table a first fragment leads from a known configuration
    to a known configuration. *)
Lemma closed_advance (t : table) (f r : string) (c : config) :
  closed t = true ->
  f <> EmptyString ->
  In c (lookup t (f ++ r)) ->
  In (advance c f) (lookup t r).
Proof.
  intros Hcl Hf Hc. unfold closed in Hcl. rewrite forallb_forall in Hcl.
  specialize (Hcl _ (lookup_entry _ _ _ Hc)). simpl in Hcl.
  rewrite forallb_forall in Hcl. specialize (Hcl _ Hc).
  rewrite forallb_forall in Hcl.
  specialize (Hcl _ (splits_complete r Hf)). simpl in Hcl.
  now apply existsb_config_In.
Qed.

Lemma advance_empty (c : config) : advance c EmptyString = c.
Proof.
  destruct c as [buf sent]. unfold advance, batch_step. simpl.
  now rewrite app_nil_r.
Qed.

(** However the text is cut, the relay ends in a configuration the table
    lists for the end of the text. *)
Lemma fragments_stay_in_table (t : table) :
  closed t = true ->
  forall fragments s c,
    History.join fragments = s ->
    In c (lookup t s) ->
    In (fold_left advance fragments c) (lookup t EmptyString).
Proof.
  intro Hcl. induction fragments as [ | f fs IH ]; intros s c Hs Hc; simpl.
  - now subst s.
  - rewrite join_cons in Hs. destruct f as [ | x f ].
    + rewrite advance_empty. now apply (IH s).
    + apply (IH (History.join fs)); [ reflexivity | ].
      apply closed_advance; [ exact Hcl | discriminate | now rewrite Hs ].
Qed.

Lemma batches_advance fragments :
  forall c,
    fold_left advance fragments c
    = (snd (batches (fst c) fragments), snd c ++ fst (batches (fst c) fragments)).
Proof.
  induction fragments as [ | f fs IH ]; intros [buf sent]; simpl.
  - now rewrite app_nil_r.
  - rewrite IH. unfold advance. simpl.
    destruct (batch_step buf f) as [o b]. simpl.
    destruct (batches b fs) as [o' b']. simpl.
    now rewrite app_assoc.
Qed.

Lemma chunks_of_advance fragments :
  chunks_of fragments
  = snd (fold_left advance fragments (EmptyString, []))
      ++ last_batch (fst (fold_left advance fragments (EmptyString, []))).
Proof.
  rewrite batches_advance. unfold chunks_of. simpl.
  now destruct (batches EmptyString fragments).
Qed.

(** A batch cut from a buffer of at most [MAX_BUFFER_LENGTH] characters
    was cut at a sentence boundary, not by the length fallback. *)
Lemma short_buffer_is_not_forced (buf textToSend remainingText : string) :
  String.length buf <= MAX_BUFFER_LENGTH ->
  next_batch buf = Some (textToSend, remainingText) ->
  (0 < lastSentenceEnd buf)%Z.
Proof.
  intros Hlen. unfold next_batch.
  destruct (0 <? lastSentenceEnd buf)%Z eqn:E.
  - intros _. now apply Z.ltb_lt.
  - replace (MAX_BUFFER_LENGTH <? String.length buf) with false
      by (symmetry; apply Nat.ltb_ge; exact Hlen).
    discriminate.
Qed.

(** The batches of the sample text do not depend on how the stream cuts
    it into fragments. *)
Lemma hello_chunks (fragments : list string) :
  History.join fragments = hello_text ->
  chunks_of fragments = ["Hello world."; "How are you?"].
Proof.
  intro Hjoin.
  assert (Hcl : closed hello_table = true) by (vm_compute; reflexivity).
  assert (Hinit : In (EmptyString, @nil string) (lookup hello_table hello_text))
    by (apply existsb_config_In; vm_compute; reflexivity).
  pose proof (@fragments_stay_in_table hello_table Hcl fragments _ _
                Hjoin Hinit) as Hend.
  assert (Hexp : ends_with hello_table ["Hello world."; "How are you?"] = true)
    by (vm_compute; reflexivity).
  unfold ends_with in Hexp. rewrite forallb_forall in Hexp.
  specialize (Hexp _ Hend). rewrite chunks_of_advance.
  destruct (list_eq_dec string_dec _ _) as [ Heq | ] in Hexp;
    [ exact Heq | discriminate ].
Qed.

End BatchingFacts.

(* ===================================================================== *)
(** * Properties of speech dispatch *)
(* ===================================================================== *)

Module DispatchFacts.

Import Eff LLMChat Js.

Lemma chunk_attempt_first E text w :
  chunk_attempt E text 1 w
  = if retried (tts E (tts_requests w))
    then (Returned Continue, record (Sleep CHUNK_RETRY_DELAY) (requested text w))
    else (Returned Return, requested text w).
Proof.
  unfold chunk_attempt, try_catch, bind, fetch_streaming_task, requested.
  destruct (tts E (tts_requests w)) as [ e | status json ]; simpl.
  - reflexivity.
  - destruct json; simpl; [ | reflexivity ].
    destruct (status =? 500) eqn:E500; simpl.
    + apply Nat.eqb_eq in E500. subst status. reflexivity.
    + rewrite ?andb_false_r. destruct (status_ok status); reflexivity.
Qed.

Lemma chunk_attempt_last E text w :
  chunk_attempt E text MAX_CHUNK_RETRIES w = (Returned Return, requested text w).
Proof.
  unfold chunk_attempt, try_catch, bind, fetch_streaming_task, requested.
  destruct (tts E (tts_requests w)) as [ e | status json ]; simpl.
  - reflexivity.
  - destruct json; simpl; [ | reflexivity ].
    rewrite ?andb_false_r. destruct (status_ok status); reflexivity.
Qed.

(** C3, as stated, fails: a 503 answer is a 5xx answer, and the chunk is
    given up after the first request. *)
Lemma status_503_is_not_retried :
  let E := mkEnv (Some "session-1") (Some "session-token")
                 (fun _ => LlmRejects (Error "unused"))
                 (fun _ => TtsResponse 503 true) true CONNECTED None in
  sendChunkToAvatar E "Hello world." world0
  = (Returned tt, mkWorld 0 1 [FetchStreamingTask "Hello world."]).
Proof. reflexivity. Qed.

(** Without a session id or a session token nothing is sent and nothing
    is thrown. *)
Lemma sendChunkToAvatar_without_session E text w :
  falsy_opt (sessionId E) || falsy_opt (sessionToken E) = true ->
  sendChunkToAvatar E text w = (Returned tt, w).
Proof. intro H. unfold sendChunkToAvatar. now rewrite H. Qed.

Lemma sendChunkToAvatar_with_session E text w :
  falsy_opt (sessionId E) || falsy_opt (sessionToken E) = false ->
  sendChunkToAvatar E text w
  = (Returned tt,
     if retried (tts E (tts_requests w))
     then requested text (record (Sleep CHUNK_RETRY_DELAY) (requested text w))
     else requested text w).
Proof.
  intro H. unfold sendChunkToAvatar. rewrite H.
  change (seq 1 MAX_CHUNK_RETRIES) with [1; MAX_CHUNK_RETRIES].
  unfold for_attempts, bind. rewrite chunk_attempt_first.
  destruct (retried (tts E (tts_requests w))); [ | reflexivity ].
  now rewrite chunk_attempt_last.
Qed.

(** C3, amended.  With a session, a chunk is requested once; it is
    requested a second time, [CHUNK_RETRY_DELAY] = 500 ms later, exactly
    when the first request was rejected, answered with a body that is not
    JSON, or answered with status 500; and never a third time.  Any other
    answer that is not [ok] (a 4xx, or a 5xx other than 500) ends the
    dispatch after the first request, and so does the second request
    whatever its outcome.  In every case the function returns without
    throwing. *)
Theorem chunk_dispatch_policy E text w :
  falsy_opt (sessionId E) = false ->
  falsy_opt (sessionToken E) = false ->
  exists w',
    sendChunkToAvatar E text w = (Returned tt, w')
    /\ chat_requests w' = chat_requests w
    /\ ((exists e, tts E (tts_requests w) = TtsRejects e)
        \/ (exists status, tts E (tts_requests w) = TtsResponse status false)
        \/ tts E (tts_requests w) = TtsResponse 500 true ->
        trace w' = trace w ++ [FetchStreamingTask text; Sleep 500;
                               FetchStreamingTask text]
        /\ tts_requests w' = tts_requests w + 2)
    /\ (forall status,
          tts E (tts_requests w) = TtsResponse status true ->
          status <> 500 ->
          trace w' = trace w ++ [FetchStreamingTask text]
          /\ tts_requests w' = tts_requests w + 1).
Proof.
  intros Hi Ht.
  rewrite sendChunkToAvatar_with_session by (rewrite Hi, Ht; reflexivity).
  eexists. split; [ reflexivity | ].
  split; [ now destruct (retried (tts E (tts_requests w))) | ].
  split.
  - intro Hcase.
    assert (Hr : retried (tts E (tts_requests w)) = true).
    { destruct Hcase as [[e ->] | [[status ->] | ->]]; reflexivity. }
    rewrite Hr. cbn [requested record trace tts_requests].
    split; [ now rewrite <- !app_assoc | lia ].
  - intros status Hcase Hne.
    assert (Hr : retried (tts E (tts_requests w)) = false).
    { rewrite Hcase. simpl. now apply Nat.eqb_neq. }
    rewrite Hr. cbn [requested trace tts_requests].
    split; [ reflexivity | lia ].
Qed.

Lemma chunk_dispatch_policy_witness :
  let E := mkEnv (Some "session-1") (Some "session-token")
                 (fun _ => LlmRejects (Error "unused"))
                 (fun k => match k with
                           | 0 => TtsResponse 500 true
                           | _ => TtsResponse 404 true
                           end) true CONNECTED None in
  exists w',
    sendChunkToAvatar E "Hello world." world0 = (Returned tt, w')
    /\ chat_requests w' = 0
    /\ trace w' = [FetchStreamingTask "Hello world."; Sleep 500;
                   FetchStreamingTask "Hello world."]
    /\ tts_requests w' = 2.
Proof.
  intro E.
  destruct (@chunk_dispatch_policy E "Hello world." world0 eq_refl eq_refl)
    as [w' [Hrun [Hc [Hretry _]]]].
  exists w'. split; [ exact Hrun | ]. split; [ exact Hc | ].
  apply Hretry. right. right. reflexivity.
Defined.

End DispatchFacts.

(* ===================================================================== *)
(** * Properties of the relay loop *)
(* ===================================================================== *)

Module RelayFacts.

Import Eff LLMChat Js StringFacts DispatchFacts.

Lemma grows_refl Q w : grows Q w w.
Proof. split; [ reflexivity | ]. exists []. now rewrite app_nil_r. Qed.

Lemma grows_trans Q w1 w2 w3 : grows Q w1 w2 -> grows Q w2 w3 -> grows Q w1 w3.
Proof.
  intros [H1 [a1 [T1 F1]]] [H2 [a2 [T2 F2]]]. split; [ congruence | ].
  exists (a1 ++ a2). split.
  - now rewrite T2, T1, app_assoc.
  - now rewrite forallb_app, F1, F2.
Qed.

Lemma grows_record Q e w : Q e = true -> grows Q w (record e w).
Proof.
  intro H. split; [ reflexivity | ]. exists [e]. simpl. now rewrite H.
Qed.

Lemma grows_weaken (Q Q' : event -> bool) w w' :
  (forall e, Q e = true -> Q' e = true) -> grows Q w w' -> grows Q' w w'.
Proof.
  intros HQ [H1 [a [T F]]]. split; [ exact H1 | ]. exists a. split; [ exact T | ].
  rewrite forallb_forall in *. auto.
Qed.

(** Whatever the endpoint answers, [sendChunkToAvatar] returns. *)
Lemma sendChunkToAvatar_tame E : tame speech_event (sendChunkToAvatar E).
Proof.
  intros text w.
  destruct (falsy_opt (sessionId E) || falsy_opt (sessionToken E)) eqn:H.
  - rewrite sendChunkToAvatar_without_session by exact H.
    eexists. split; [ reflexivity | apply grows_refl ].
  - rewrite sendChunkToAvatar_with_session by exact H.
    eexists. split; [ reflexivity | ].
    destruct (retried (tts E (tts_requests w))).
    + split; [ reflexivity | ].
      exists [FetchStreamingTask text; Sleep CHUNK_RETRY_DELAY;
              FetchStreamingTask text].
      split; [ simpl; now rewrite <- !app_assoc | reflexivity ].
    + split; [ reflexivity | ]. exists [FetchStreamingTask text]. now split.
Qed.

(** Without a session it adds nothing at all. *)
Lemma sendChunkToAvatar_silent E :
  falsy_opt (sessionId E) || falsy_opt (sessionToken E) = true ->
  tame pause_event (sendChunkToAvatar E).
Proof.
  intros H text w. rewrite sendChunkToAvatar_without_session by exact H.
  eexists. split; [ reflexivity | apply grows_refl ].
Qed.

Lemma line_texts_cons line rest :
  line_texts (line :: rest)
  = (fst (line_text line)
       ++ (if snd (line_text line) then EmptyString else line_texts rest))%string.
Proof.
  destruct line as [ data | ]; simpl; [ | reflexivity ].
  destruct (truthy (l_error data)); reflexivity.
Qed.

Section Loop.

Variable Q : event -> bool.
Hypothesis Q_pause : forall e, pause_event e = true -> Q e = true.
Variable send : string -> M world unit.
Hypothesis send_tame : tame Q send.

Lemma on_content_runs st content w :
  exists buf w',
    on_content send st content w
    = (Returned (mkRelay (accumulatedResponse st ++ content)%string buf), w')
    /\ grows Q w w'.
Proof.
  unfold on_content, bind, emit, modify, sleep.
  set (w1 := record (SetCurrentLLMResponse (accumulatedResponse st ++ content)) w).
  assert (G1 : grows Q w w1) by (apply grows_record, Q_pause; reflexivity).
  destruct (next_batch (sentenceBuffer st ++ content)) as [ [t r] | ].
  - destruct (send_tame t w1) as [w2 [Hs G2]]. rewrite Hs.
    eexists. eexists. split; [ reflexivity | ].
    eapply grows_trans; [ exact G1 | ].
    eapply grows_trans; [ exact G2 | ].
    apply grows_record, Q_pause. reflexivity.
  - eexists. eexists. split; [ reflexivity | exact G1 ].
Qed.

Lemma process_line_runs st line w :
  exists buf w',
    process_line send st line w
    = (Returned (mkRelay (accumulatedResponse st ++ fst (line_text line))%string
                         buf,
                 snd (line_text line)), w')
    /\ grows Q w w'.
Proof.
  unfold process_line, try_catch, bind, json_parse.
  destruct line as [ data | ]; simpl.
  - destruct (truthy (l_error data)); simpl.
    + exists (sentenceBuffer st), w. rewrite append_nil_r.
      destruct st. split; [ reflexivity | apply grows_refl ].
    + destruct (truthy (l_content data)) eqn:Hc.
      * destruct (on_content_runs st (l_content data) w) as [buf [w' [Hrun G]]].
        rewrite Hrun. exists buf, w'. now split.
      * destruct (l_content data); [ | discriminate ].
        exists (sentenceBuffer st), w. rewrite append_nil_r.
        destruct st. split; [ reflexivity | apply grows_refl ].
  - exists (sentenceBuffer st), w. rewrite append_nil_r.
    destruct st. split; [ reflexivity | apply grows_refl ].
Qed.

Lemma process_lines_runs lines :
  forall st w,
    exists buf w',
      process_lines send st lines w
      = (Returned (mkRelay (accumulatedResponse st ++ line_texts lines)%string
                           buf), w')
      /\ grows Q w w'.
Proof.
  induction lines as [ | line rest IH ]; intros st w.
  - exists (sentenceBuffer st), w. simpl. rewrite append_nil_r.
    destruct st. split; [ reflexivity | apply grows_refl ].
  - rewrite line_texts_cons.
    destruct (process_line_runs st line w) as [buf [w1 [Hrun G1]]].
    simpl. unfold bind. rewrite Hrun. simpl.
    destruct (snd (line_text line)).
    + exists buf, w1. rewrite append_nil_r. now split.
    + destruct (IH (mkRelay (accumulatedResponse st ++ fst (line_text line)) buf)
                   w1) as [buf' [w2 [Hrest G2]]].
      rewrite Hrest. simpl. rewrite append_assoc.
      exists buf', w2. split; [ reflexivity | ].
      eapply grows_trans; eassumption.
Qed.

Lemma flush_runs st w :
  exists buf w',
    flush send st w = (Returned (mkRelay (accumulatedResponse st) buf), w')
    /\ grows Q w w'.
Proof.
  unfold flush, bind.
  destruct (0 <? String.length (trim (sentenceBuffer st))).
  - destruct (send_tame (trim (sentenceBuffer st)) w) as [w' [Hs G]].
    rewrite Hs. eexists. eexists. split; [ reflexivity | exact G ].
  - exists (sentenceBuffer st), w. destruct st.
    split; [ reflexivity | apply grows_refl ].
Qed.

(** The read loop ends as the stream ends: it returns the whole text at
    [done], and throws what a rejected read throws. *)
Lemma read_loop_runs values read_error :
  forall st w,
    exists buf w',
      read_loop send values read_error st w
      = (match read_error with
         | None =>
             Returned (mkRelay (accumulatedResponse st ++ received values)%string
                               buf)
         | Some e => Thrown e
         end, w')
      /\ grows Q w w'.
Proof.
  induction values as [ | value rest IH ]; intros st w; simpl.
  - destruct read_error as [ e | ].
    + exists EmptyString, w. split; [ reflexivity | apply grows_refl ].
    + rewrite append_nil_r. apply flush_runs.
  - unfold bind.
    destruct (process_lines_runs value st w) as [buf [w1 [Hrun G1]]].
    rewrite Hrun.
    destruct (IH (mkRelay (accumulatedResponse st ++ line_texts value) buf) w1)
      as [buf' [w2 [Hrest G2]]].
    rewrite Hrest. simpl. rewrite append_assoc.
    exists buf', w2. split; [ reflexivity | ].
    eapply grows_trans; eassumption.
Qed.

End Loop.

End RelayFacts.

(* ===================================================================== *)
(** * Properties of the retry classification *)
(* ===================================================================== *)

Module RetryFacts.

Import Eff LLMChat Js.

Lemma digit_char_is_digit d : d < 10 -> is_digit (digit_char d) = true.
Proof. intro H. do 10 (destruct d as [ | d ]; [ reflexivity | ]). lia. Qed.

Lemma digit_char_value d : d < 10 -> digit_value (digit_char d) = d.
Proof. intro H. do 10 (destruct d as [ | d ]; [ reflexivity | ]). lia. Qed.

Lemma match_three_digits_skip a b c rest :
  is_digit a = false ->
  match_three_digits (String a (String b (String c rest)))
  = match_three_digits (String b (String c rest)).
Proof. intro H. simpl. now rewrite H. Qed.

Lemma match_three_digits_hit a b c rest :
  is_digit a = true -> is_digit b = true -> is_digit c = true ->
  match_three_digits (String a (String b (String c rest)))
  = Some (100 * digit_value a + 10 * digit_value b + digit_value c).
Proof. intros Ha Hb Hc. simpl. now rewrite Ha, Hb, Hc. Qed.

Lemma status_digits status :
  status < 1000 ->
  100 * (status / 100) + 10 * ((status / 10) mod 10) + status mod 10 = status.
Proof.
  intro H.
  pose proof (Nat.div_mod_eq status 10) as H1.
  pose proof (Nat.div_mod_eq (status / 10) 10) as H2.
  pose proof (Nat.Div0.div_div status 10 10) as H3.
  change (10 * 10) with 100 in H3. lia.
Qed.

(** The message of a failed response shows its status to the
    classification, whatever the status text is. *)
Lemma failure_message_status status statusText :
  status < 1000 ->
  match_three_digits (failure_message status statusText) = Some status.
Proof.
  intro H. unfold failure_message, status_string.
  cbn [String.append].
  do 24 (rewrite match_three_digits_skip by reflexivity).
  assert (H1 : status / 100 < 10) by (apply Nat.Div0.div_lt_upper_bound; lia).
  assert (H2 : (status / 10) mod 10 < 10) by (apply Nat.mod_upper_bound; lia).
  assert (H3 : status mod 10 < 10) by (apply Nat.mod_upper_bound; lia).
  rewrite match_three_digits_hit by (apply digit_char_is_digit; assumption).
  rewrite !digit_char_value by assumption.
  now rewrite status_digits.
Qed.

(** A 5xx answer is classified as retryable. *)
Lemma server_error_is_retryable status statusText :
  500 <= status < 600 ->
  isRetryableError (Error (failure_message status statusText)) = true.
Proof.
  intros [Hlo Hhi]. unfold isRetryableError. simpl name. simpl message.
  change (String.eqb "Error" "AbortError") with false. cbv iota.
  destruct (includes "Failed to fetch" (failure_message status statusText)
            || includes "network" (failure_message status statusText));
    [ reflexivity | ].
  rewrite failure_message_status by lia.
  apply andb_true_intro. split; [ now apply Nat.leb_le | now apply Nat.ltb_lt ].
Qed.

Lemma includes_skip n needle c hay :
  n <> c ->
  includes (String n needle) (String c hay) = includes (String n needle) hay.
Proof.
  intro H. simpl. destruct (ascii_dec n c); [ contradiction | reflexivity ].
Qed.

Lemma digit_char_not n d :
  is_digit n = false -> d < 10 -> n <> digit_char d.
Proof.
  intros Hn Hd ->. rewrite digit_char_is_digit in Hn by exact Hd. discriminate.
Qed.

(** A needle that starts with a letter other than those of the fixed part
    of the message can only be found in the status text. *)
Lemma includes_failure_message n needle status statusText :
  is_digit n = false ->
  existsb (Ascii.eqb n) (list_ascii_of_string "LLM API request failed: ") = false ->
  status < 1000 ->
  includes (String n needle) (failure_message status statusText)
  = includes (String n needle) statusText.
Proof.
  intros Hd Hfixed H. unfold failure_message, status_string.
  cbn [String.append].
  assert (Hne : forall c,
             In c (list_ascii_of_string "LLM API request failed: ") -> n <> c).
  { intros c Hc ->.
    assert (existsb (Ascii.eqb c)
              (list_ascii_of_string "LLM API request failed: ") = true).
    { apply existsb_exists. exists c. split; [ exact Hc | apply Ascii.eqb_refl ]. }
    congruence. }
  do 24 (rewrite includes_skip by (apply Hne; simpl; tauto)).
  rewrite !includes_skip; try reflexivity.
  - apply Hne. simpl. tauto.
  - apply digit_char_not; [ exact Hd | apply Nat.mod_upper_bound; lia ].
  - apply digit_char_not; [ exact Hd | apply Nat.mod_upper_bound; lia ].
  - apply digit_char_not;
      [ exact Hd | apply Nat.Div0.div_lt_upper_bound; lia ].
Qed.

(** A 4xx answer is classified as not retryable, unless its status text
    contains one of the two phrases the classification looks for. *)
Lemma client_error_is_not_retryable status statusText :
  400 <= status < 500 ->
  includes "Failed to fetch" statusText = false ->
  includes "network" statusText = false ->
  isRetryableError (Error (failure_message status statusText)) = false.
Proof.
  intros [Hlo Hhi] HF HN. unfold isRetryableError. simpl name. simpl message.
  change (String.eqb "Error" "AbortError") with false. cbv iota.
  assert (Hs : status < 1000) by lia.
  rewrite (@includes_failure_message "F" "ailed to fetch" status statusText
             eq_refl eq_refl Hs).
  rewrite (@includes_failure_message "n" "etwork" status statusText
             eq_refl eq_refl Hs).
  rewrite HF, HN. cbv iota. simpl orb. cbv iota.
  rewrite failure_message_status by lia.
  apply andb_false_intro1. apply Nat.leb_gt. lia.
Qed.

End RetryFacts.

(* ===================================================================== *)
(** * Properties of the LLM turn *)
(* ===================================================================== *)

Module TurnFacts.

Import Eff LLMChat Js StringFacts DispatchFacts RelayFacts RetryFacts.

(** ** Observations distribute over traces *)

Lemma chat_fetches_app a b : chat_fetches (a ++ b) = chat_fetches a + chat_fetches b.
Proof. unfold chat_fetches. now rewrite filter_app, length_app. Qed.

Lemma spoken_app a b : spoken (a ++ b) = spoken a ++ spoken b.
Proof.
  induction a as [ | e a IH ]; simpl; [ reflexivity | ].
  destruct e; simpl; now rewrite IH.
Qed.

Lemma history_added_app a b :
  history_added (a ++ b) = history_added a ++ history_added b.
Proof.
  induction a as [ | e a IH ]; simpl; [ reflexivity | ].
  destruct e; simpl; now rewrite IH.
Qed.

Lemma no_chat_fetches added :
  forallb no_chat_fetch added = true -> chat_fetches added = 0.
Proof.
  unfold chat_fetches. induction added as [ | e a IH ]; simpl; [ reflexivity | ].
  intro H. apply andb_prop in H. destruct H as [He Ha].
  unfold no_chat_fetch in He. destruct (is_chat_fetch e); [ discriminate | ].
  now apply IH.
Qed.

Lemma relay_event_no_chat_fetch e : relay_event e = true -> no_chat_fetch e = true.
Proof. destruct e; simpl; intro H; try reflexivity; discriminate. Qed.

Lemma pause_events_are_silent added :
  forallb pause_event added = true ->
  spoken added = [] /\ history_added added = [].
Proof.
  induction added as [ | e a IH ]; simpl; [ now split | ].
  intro H. apply andb_prop in H. destruct H as [He Ha].
  destruct e; simpl in *; try discriminate; now apply IH.
Qed.

Lemma relay_events_add_no_history added :
  forallb relay_event added = true -> history_added added = [].
Proof.
  induction added as [ | e a IH ]; simpl; [ reflexivity | ].
  intro H. apply andb_prop in H. destruct H as [He Ha].
  destruct e; simpl in *; try discriminate; now apply IH.
Qed.

(** ** One attempt *)

Lemma attempt_not_ok E userMessage w status statusText body :
  llm E (S (chat_requests w)) = LlmResponse status statusText body ->
  status_ok status = false ->
  attempt_body E userMessage w
  = (Thrown (Error (failure_message status statusText)), asked userMessage w).
Proof.
  intros Hllm Hok. unfold attempt_body, bind, fetch_chat.
  rewrite Hllm, Hok. reflexivity.
Qed.

Lemma trim_empty_of_empty s : trim s <> EmptyString -> truthy s = true.
Proof. destruct s; [ intro H; now contradiction H | reflexivity ]. Qed.

Lemma attempt_ok Q E userMessage w status statusText values :
  (forall e, pause_event e = true -> Q e = true) ->
  tame Q (sendChunkToAvatar E) ->
  llm E (S (chat_requests w))
  = LlmResponse status statusText (Some (mkBody values None)) ->
  status_ok status = true ->
  trim (received values) <> EmptyString ->
  exists w1,
    grows Q (asked userMessage w) w1
    /\ attempt_body E userMessage w
       = (Returned (mkResponse true (Some (received values)) None),
          record (AddTextMessage AVATAR (received values)) w1).
Proof.
  intros HQ Hsend Hllm Hok Htext. unfold attempt_body, bind, fetch_chat.
  rewrite Hllm, Hok. cbn [negb chunks read_error].
  fold (asked userMessage w).
  destruct (read_loop_runs HQ Hsend values None
              (mkRelay EmptyString EmptyString) (asked userMessage w))
    as [buf [w1 [Hrun G]]].
  cbn [accumulatedResponse String.append] in Hrun. rewrite Hrun.
  cbn [accumulatedResponse].
  rewrite (trim_empty_of_empty _ Htext). cbn [negb orb].
  apply String.eqb_neq in Htext. rewrite Htext.
  exists w1. split; [ exact G | reflexivity ].
Qed.

(** Whatever happens in an attempt, it sends one request to [/api/chat]. *)
Lemma attempt_asks_once E userMessage w :
  exists r w1,
    attempt_body E userMessage w = (r, w1)
    /\ grows no_chat_fetch (asked userMessage w) w1.
Proof.
  unfold attempt_body, bind, fetch_chat. cbv zeta. fold (asked userMessage w).
  destruct (llm E (S (chat_requests w))) as [ e | status statusText body ].
  - eexists. eexists. split; [ reflexivity | apply grows_refl ].
  - cbv iota beta. destruct (status_ok status); cbn [negb]; cbv iota beta.
    + destruct body as [ stream | ].
      * assert (Hsend : tame no_chat_fetch (sendChunkToAvatar E)).
        { intros t w0. destruct (sendChunkToAvatar_tame E t w0) as [w' [Hs G]].
          exists w'. split; [ exact Hs | ].
          eapply grows_weaken; [ | exact G ]. now destruct e. }
        assert (HQ : forall e, pause_event e = true -> no_chat_fetch e = true)
          by (destruct e; simpl; intro H; try reflexivity; discriminate).
        destruct (read_loop_runs HQ Hsend (chunks stream) (read_error stream)
                    (mkRelay EmptyString EmptyString) (asked userMessage w))
          as [buf [w1 [Hrun G]]].
        rewrite Hrun. destruct (read_error stream) as [ e | ].
        -- eexists. eexists. split; [ reflexivity | exact G ].
        -- cbv iota beta.
           destruct (negb (truthy _) || String.eqb _ _).
           ++ eexists. eexists. split; [ reflexivity | exact G ].
           ++ eexists. eexists. split; [ reflexivity | ].
              eapply grows_trans; [ exact G | ]. now apply grows_record.
      * eexists. eexists. split; [ reflexivity | apply grows_refl ].
    + eexists. eexists. split; [ reflexivity | apply grows_refl ].
Qed.

(** ** The retry loop *)

Lemma attempt_loop_returns E userMessage attempt rest lastError w r w1 :
  attempt_body E userMessage w = (Returned r, w1) ->
  attempt_loop E userMessage (attempt :: rest) lastError w = (Returned r, w1).
Proof. intro H. simpl. now rewrite H. Qed.

Lemma attempt_loop_retries E userMessage attempt rest lastError w e w1 :
  attempt_body E userMessage w = (Thrown e, w1) ->
  isRetryableError e = true ->
  (attempt <? MAX_RETRY_ATTEMPTS) = true ->
  attempt_loop E userMessage (attempt :: rest) lastError w
  = attempt_loop E userMessage rest (Some e) (record (Sleep (backoff attempt)) w1).
Proof. intros H Hr Ha. simpl. rewrite H, Hr, Ha. reflexivity. Qed.

Lemma sendMessage_adds_no_fetch E text w :
  exists r w', sendMessage E text w = (r, w') /\ grows no_chat_fetch w w'.
Proof.
  unfold sendMessage, bind, emit, modify.
  destruct (negb (avatar_present E));
    [ eexists; eexists; split; [ reflexivity | apply grows_refl ] | ].
  destruct (negb (state_eqb (sessionState E) CONNECTED));
    [ eexists; eexists; split; [ reflexivity | apply grows_refl ] | ].
  destruct (negb (truthy text) || String.eqb (trim text) EmptyString);
    [ eexists; eexists; split; [ reflexivity | apply grows_refl ] | ].
  destruct (speak_error E); eexists; eexists;
    (split; [ reflexivity | now apply grows_record ]).
Qed.

Lemma after_loop_returns E lastError w :
  exists r w', after_loop E lastError w = (Returned r, w')
               /\ grows no_chat_fetch w w'.
Proof.
  unfold after_loop. destruct lastError as [ e | ].
  - unfold bind, emit, modify, try_catch.
    set (w2 := record (SetCurrentLLMResponse EmptyString) (record _ w)).
    assert (G2 : grows no_chat_fetch w w2).
    { eapply grows_trans; apply grows_record; reflexivity. }
    destruct (sendMessage_adds_no_fetch E
                (if String.eqb (name e) "AbortError"
                 then timeout_fallback else error_fallback) w2)
      as [r [w3 [Hs G3]]].
    rewrite Hs. destruct r as [ [] | e' ]; eexists; eexists;
      (split; [ reflexivity | eapply grows_trans; eassumption ]).
  - eexists. eexists. split; [ reflexivity | apply grows_refl ].
Qed.

Lemma grows_chat_fetches w w' :
  grows no_chat_fetch w w' -> chat_fetches (trace w') = chat_fetches (trace w).
Proof.
  intros [_ [added [T F]]]. rewrite T, chat_fetches_app, (no_chat_fetches _ F).
  lia.
Qed.

Lemma asked_chat_fetches userMessage w :
  chat_fetches (trace (asked userMessage w)) = S (chat_fetches (trace w)).
Proof.
  unfold asked. cbn [trace]. rewrite chat_fetches_app.
  change (chat_fetches [FetchChat userMessage]) with 1. lia.
Qed.

(** The loop returns, and sends at most one request per attempt. *)
Lemma attempt_loop_bound E userMessage attempts :
  forall lastError w,
    exists r w',
      attempt_loop E userMessage attempts lastError w = (Returned r, w')
      /\ chat_fetches (trace w')
         <= chat_fetches (trace w) + List.length attempts.
Proof.
  induction attempts as [ | attempt rest IH ]; intros lastError w.
  - destruct (after_loop_returns E lastError w) as [r [w' [H G]]].
    exists r, w'. split; [ exact H | ].
    rewrite (grows_chat_fetches G). simpl. lia.
  - destruct (attempt_asks_once E userMessage w) as [r [w1 [Hrun G1]]].
    pose proof (grows_chat_fetches G1) as F1.
    rewrite asked_chat_fetches in F1.
    simpl attempt_loop. rewrite Hrun. destruct r as [ r | e ].
    + exists r, w1. split; [ reflexivity | cbn [List.length]; lia ].
    + destruct (isRetryableError e && (attempt <? MAX_RETRY_ATTEMPTS)).
      * unfold bind, sleep, emit, modify.
        destruct (IH (Some e) (record (Sleep (backoff attempt)) w1))
          as [r [w2 [Hrest F2]]].
        exists r, w2. split; [ exact Hrest | ].
        cbn [record trace] in F2. rewrite chat_fetches_app in F2.
        change (chat_fetches [Sleep (backoff attempt)]) with 0 in F2.
        cbn [List.length]. lia.
      * destruct (after_loop_returns E (Some e) w1) as [r [w2 [H G2]]].
        exists r, w2. split; [ exact H | ].
        rewrite (grows_chat_fetches G2). cbn [List.length]. lia.
Qed.

Lemma sendToLLM_unfold E userMessage skip w :
  sendToLLM E userMessage skip w
  = let (r, w') := attempt_loop E userMessage (seq 1 MAX_RETRY_ATTEMPTS) None
                     (opened userMessage skip w) in
    (r, mkWorld (chat_requests w') (tts_requests w') (trace w' ++ closing)).
Proof.
  assert (Hopen : forall k : M world LLMChatResponse,
             bind (emit (SetIsLLMProcessing true))
               (fun _ => bind (emit (SetCurrentLLMResponse EmptyString))
               (fun _ => bind (emit (SetLLMError None))
               (fun _ => bind (emit (SetSuppressAvatarEvents true))
               (fun _ => bind (when (negb skip)
                                 (emit (AddTextMessage CLIENT userMessage)))
               (fun _ => k))))) w
             = k (opened userMessage skip w)).
  { intro k. unfold bind, emit, modify, when, ret, record, opened, opening.
    destruct skip; cbn [negb trace chat_requests tts_requests];
      rewrite <- ?app_assoc; reflexivity. }
  unfold sendToLLM, finally. rewrite Hopen.
  destruct (attempt_loop E userMessage (seq 1 MAX_RETRY_ATTEMPTS) None
              (opened userMessage skip w)) as [r w'].
  unfold record, closing. cbn [trace chat_requests tts_requests].
  now rewrite <- app_assoc.
Qed.

(** Under no input does a turn send more than three requests to
    [/api/chat]; and [sendToLLM] always returns. *)
Lemma at_most_three_attempts E userMessage skip w :
  exists r w',
    sendToLLM E userMessage skip w = (Returned r, w')
    /\ chat_fetches (trace w') <= chat_fetches (trace w) + 3.
Proof.
  rewrite sendToLLM_unfold.
  destruct (attempt_loop_bound E userMessage (seq 1 MAX_RETRY_ATTEMPTS) None
              (opened userMessage skip w)) as [r [w' [Hrun F]]].
  rewrite Hrun. exists r. eexists. split; [ reflexivity | ].
  simpl trace. rewrite chat_fetches_app. simpl in F.
  rewrite chat_fetches_app in F.
  assert (chat_fetches (opening userMessage skip) = 0) by now destruct skip.
  assert (chat_fetches closing = 0) by reflexivity.
  lia.
Qed.

(** ** Two failures, then success *)

Lemma sendChunkToAvatar_relay E : tame relay_event (sendChunkToAvatar E).
Proof.
  intros t w. destruct (sendChunkToAvatar_tame E t w) as [w' [Hs G]].
  exists w'. split; [ exact Hs | ].
  eapply grows_weaken; [ | exact G ].
  intros e He. unfold relay_event. now rewrite He.
Qed.

Lemma pause_is_relay_event e : pause_event e = true -> relay_event e = true.
Proof. intro H. unfold relay_event. rewrite H. apply orb_true_r. Qed.

(** A turn whose first two requests are answered with 503 and whose third
    is answered with a stream of text sends exactly three requests, waits
    1000 ms after the first and 2000 ms after the second, and succeeds
    with the text of the stream. *)
Lemma two_server_errors_then_success
  E userMessage skip w t1 b1 t2 b2 status statusText values :
  llm E (S (chat_requests w)) = LlmResponse 503 t1 b1 ->
  llm E (S (S (chat_requests w))) = LlmResponse 503 t2 b2 ->
  llm E (S (S (S (chat_requests w))))
  = LlmResponse status statusText (Some (mkBody values None)) ->
  status_ok status = true ->
  trim (received values) <> EmptyString ->
  exists relay w',
    sendToLLM E userMessage skip w
    = (Returned (mkResponse true (Some (received values)) None), w')
    /\ trace w'
       = trace w ++ opening userMessage skip
           ++ [FetchChat userMessage; Sleep 1000;
               FetchChat userMessage; Sleep 2000; FetchChat userMessage]
           ++ relay
           ++ AddTextMessage AVATAR (received values) :: closing
    /\ forallb relay_event relay = true
    /\ chat_fetches (trace w') = chat_fetches (trace w) + 3.
Proof.
  intros H1 H2 H3 Hok Htext. rewrite sendToLLM_unfold.
  assert (H503 : 500 <= 503 < 600) by lia.
  change (seq 1 MAX_RETRY_ATTEMPTS) with [1; 2; 3].
  set (w0 := opened userMessage skip w).
  rewrite (@attempt_loop_retries E userMessage 1 [2; 3] None w0 _ _
             (@attempt_not_ok E userMessage w0 503 t1 b1 H1 eq_refl)
             (@server_error_is_retryable 503 t1 H503) eq_refl).
  change (backoff 1) with 1000%Z.
  set (wa := record (Sleep 1000) (asked userMessage w0)).
  rewrite (@attempt_loop_retries E userMessage 2 [3] _ wa _ _
             (@attempt_not_ok E userMessage wa 503 t2 b2 H2 eq_refl)
             (@server_error_is_retryable 503 t2 H503) eq_refl).
  change (backoff 2) with 2000%Z.
  set (wb := record (Sleep 2000) (asked userMessage wa)).
  destruct (@attempt_ok relay_event E userMessage wb status statusText values
              pause_is_relay_event (sendChunkToAvatar_relay E) H3 Hok Htext)
    as [w3 [[Hc [relay [Ht Hf]]] Hrun]].
  rewrite (@attempt_loop_returns E userMessage 3 [] _ wb _ _ Hrun).
  exists relay. eexists. split; [ reflexivity | ].
  assert (Htrace :
            trace w3 ++ [AddTextMessage AVATAR (received values)] ++ closing
            = trace w ++ opening userMessage skip
                ++ [FetchChat userMessage; Sleep 1000;
                    FetchChat userMessage; Sleep 2000; FetchChat userMessage]
                ++ relay
                ++ AddTextMessage AVATAR (received values) :: closing).
  { rewrite Ht. unfold wb, wa, w0, asked, record, opened.
    cbn [trace]. rewrite <- !app_assoc. reflexivity. }
  split; [ | split; [ exact Hf | ] ].
  - cbn [record trace chat_requests tts_requests].
    rewrite <- app_assoc. exact Htrace.
  - cbn [record trace chat_requests tts_requests].
    rewrite <- app_assoc, Htrace. rewrite !chat_fetches_app.
    rewrite (no_chat_fetches relay).
    + assert (chat_fetches (opening userMessage skip) = 0) by now destruct skip.
      change (chat_fetches [FetchChat userMessage; Sleep 1000;
                            FetchChat userMessage; Sleep 2000;
                            FetchChat userMessage]) with 3.
      change (chat_fetches (AddTextMessage AVATAR (received values) :: closing))
        with 0.
      lia.
    + rewrite forallb_forall in *. intros e He.
      apply relay_event_no_chat_fetch. now apply Hf.
Qed.

(** C5 at its failing input: the first request is answered with 403 and a
    status text that contains the word "network".  The classification
    reads the phrase in the message and the request is sent again, one
    second later. *)
Theorem client_error_naming_network_is_retried :
  let E := live_env (fun attempt =>
                       match attempt with
                       | 1 => LlmResponse 403 "Blocked by network policy" no_body
                       | _ => LlmResponse 200 "OK" (Some hello_stream)
                       end) in
  isRetryableError (Error (failure_message 403 "Blocked by network policy"))
  = true
  /\ sendToLLM E "Hi" true world0
     = (Returned (mkResponse true (Some hello_text) None),
        mkWorld 2 2
          [ SetIsLLMProcessing true; SetCurrentLLMResponse "";
            SetLLMError None; SetSuppressAvatarEvents true;
            FetchChat "Hi"; Sleep 1000; FetchChat "Hi";
            SetCurrentLLMResponse "Hello world. How";
            FetchStreamingTask "Hello world."; Sleep 800;
            SetCurrentLLMResponse "Hello world. How are you? ";
            FetchStreamingTask "How are you?"; Sleep 800;
            AddTextMessage AVATAR "Hello world. How are you? ";
            SetIsLLMProcessing false; SetSuppressAvatarEvents false ]).
Proof. split; vm_compute; reflexivity. Qed.

(** ** A turn without a session *)

(** C10.  Let the session id or the session token be null.  Then every
    dispatch returns at once, without an error and without a request; and
    a turn whose first request is answered with a stream of text still
    succeeds: nothing is spoken, and the whole text is added to the
    history as one AVATAR message. *)
Theorem dropped_chunks_keep_the_turn
  E userMessage skip w status statusText values :
  sessionId E = None \/ sessionToken E = None ->
  llm E (S (chat_requests w))
  = LlmResponse status statusText (Some (mkBody values None)) ->
  status_ok status = true ->
  trim (received values) <> EmptyString ->
  (forall text w0, sendChunkToAvatar E text w0 = (Returned tt, w0))
  /\ exists w',
       sendToLLM E userMessage skip w
       = (Returned (mkResponse true (Some (received values)) None), w')
       /\ spoken (trace w') = spoken (trace w)
       /\ history_added (trace w')
          = history_added (trace w)
              ++ (if skip then [] else [(CLIENT, userMessage)])
              ++ [(AVATAR, received values)].
Proof.
  intros Hnull Hllm Hok Htext.
  assert (Hfalsy : falsy_opt (sessionId E) || falsy_opt (sessionToken E) = true).
  { destruct Hnull as [ -> | -> ]; [ reflexivity | apply orb_true_r ]. }
  split; [ intros text w0; now apply sendChunkToAvatar_without_session | ].
  rewrite sendToLLM_unfold. change (seq 1 MAX_RETRY_ATTEMPTS) with [1; 2; 3].
  set (w0 := opened userMessage skip w).
  destruct (@attempt_ok pause_event E userMessage w0 status statusText values
              (fun e H => H) (sendChunkToAvatar_silent E Hfalsy) Hllm Hok Htext)
    as [w1 [[Hc [added [Ht Hf]]] Hrun]].
  rewrite (@attempt_loop_returns E userMessage 1 [2; 3] None w0 _ _ Hrun).
  destruct (pause_events_are_silent _ Hf) as [Hs Hh].
  eexists. split; [ reflexivity | ].
  cbn [record trace chat_requests tts_requests]. rewrite Ht.
  unfold w0, asked, opened. cbn [trace].
  split.
  - rewrite !spoken_app, Hs. destruct skip; simpl; now rewrite !app_nil_r.
  - rewrite !history_added_app, Hh.
    destruct skip; simpl; rewrite ?app_nil_r; try reflexivity.
    now rewrite <- app_assoc.
Qed.

Lemma dropped_chunks_keep_the_turn_witness :
  let E := mkEnv None (Some "session-token")
                 (fun _ => LlmResponse 200 "OK" (Some hello_stream))
                 (fun _ => TtsResponse 200 true) true CONNECTING None in
  (forall text w0, sendChunkToAvatar E text w0 = (Returned tt, w0))
  /\ exists w',
       sendToLLM E "Hi" true world0
       = (Returned (mkResponse true
                      (Some (received (chunks hello_stream))) None), w')
       /\ spoken (trace w') = spoken (trace world0)
       /\ history_added (trace w')
          = history_added (trace world0)
              ++ []
              ++ [(AVATAR, received (chunks hello_stream))].
Proof.
  intro E.
  apply (@dropped_chunks_keep_the_turn E "Hi" true world0 200 "OK"
           (chunks hello_stream)).
  - left. reflexivity.
  - reflexivity.
  - reflexivity.
  - vm_compute. discriminate.
Defined.

(** ** A stream of content fragments with a live session *)

Section Live.

Variable E : env.
Hypothesis session : live E.

Lemma send_live text w :
  exists w',
    sendChunkToAvatar E text w = (Returned tt, w')
    /\ spoken (trace w')
       = spoken (trace w) ++ repeat text (attempts_for E (tts_requests w))
    /\ tts_requests w' = tts_requests w + attempts_for E (tts_requests w).
Proof.
  destruct session as [Hi Ht].
  rewrite sendChunkToAvatar_with_session by (rewrite Hi, Ht; reflexivity).
  unfold attempts_for. eexists. split; [ reflexivity | ].
  destruct (retried (tts E (tts_requests w)));
    cbn [requested record trace tts_requests repeat].
  - rewrite !spoken_app. simpl. rewrite app_nil_r, <- app_assoc.
    split; [ reflexivity | lia ].
  - rewrite spoken_app. split; [ reflexivity | lia ].
Qed.

Lemma requests_for_one k text :
  requests_for E k [text]
  = (repeat text (attempts_for E k), k + attempts_for E k).
Proof. simpl. now rewrite app_nil_r. Qed.

Lemma requests_for_app k a :
  forall k' b,
    k' = snd (requests_for E k a) ->
    requests_for E k (a ++ b)
    = (fst (requests_for E k a) ++ fst (requests_for E k' b),
       snd (requests_for E k' b)).
Proof.
  revert k. induction a as [ | text rest IH ]; intros k k' b Hk; simpl in *.
  - subst k'. now destruct (requests_for E k b).
  - destruct (requests_for E (k + attempts_for E k) rest) as [ra ka] eqn:Ra.
    simpl in Hk. subst k'.
    rewrite (IH (k + attempts_for E k) ka b) by now rewrite Ra.
    rewrite Ra. simpl. now rewrite app_assoc.
Qed.

Lemma content_line_live st fragment w :
  exists w',
    process_line (sendChunkToAvatar E) st (content_line fragment) w
    = (Returned
         (mkRelay (accumulatedResponse st ++ fragment)%string
                  (snd (batch_step (sentenceBuffer st) fragment)), false), w')
    /\ spoken (trace w')
       = spoken (trace w)
           ++ fst (requests_for E (tts_requests w)
                     (fst (batch_step (sentenceBuffer st) fragment)))
    /\ tts_requests w'
       = snd (requests_for E (tts_requests w)
                (fst (batch_step (sentenceBuffer st) fragment))).
Proof.
  unfold process_line, try_catch, bind, json_parse, content_line, batch_step.
  cbn [l_error l_content l_done truthy ret].
  destruct (truthy fragment) eqn:Hf.
  - unfold on_content, bind, emit, modify, sleep.
    destruct (next_batch (sentenceBuffer st ++ fragment)) as [ [t r] | ].
    + destruct (send_live t
                  (record (SetCurrentLLMResponse
                             (accumulatedResponse st ++ fragment)) w))
        as [w1 [Hs [S1 K1]]].
      rewrite Hs. eexists. split; [ reflexivity | ].
      cbn [fst snd]. rewrite requests_for_one. cbn [fst snd].
      cbn [record trace tts_requests] in *.
      rewrite spoken_app, S1, spoken_app. simpl.
      rewrite !app_nil_r. split; [ reflexivity | exact K1 ].
    + eexists. split; [ reflexivity | ].
      cbn [record trace fst snd requests_for tts_requests].
      rewrite spoken_app. simpl. now rewrite !app_nil_r.
  - destruct fragment; [ | discriminate ].
    exists w. rewrite append_nil_r. destruct st. simpl.
    split; [ reflexivity | now rewrite app_nil_r ].
Qed.

Lemma content_lines_live fragments :
  forall st w,
    exists w',
      process_lines (sendChunkToAvatar E) st (map content_line fragments) w
      = (Returned
           (mkRelay (accumulatedResponse st ++ History.join fragments)%string
                    (snd (batches (sentenceBuffer st) fragments))), w')
      /\ spoken (trace w')
         = spoken (trace w)
             ++ fst (requests_for E (tts_requests w)
                       (fst (batches (sentenceBuffer st) fragments)))
      /\ tts_requests w'
         = snd (requests_for E (tts_requests w)
                  (fst (batches (sentenceBuffer st) fragments))).
Proof.
  induction fragments as [ | f fs IH ]; intros st w.
  - exists w. simpl. unfold History.join. simpl. rewrite append_nil_r.
    destruct st. split; [ reflexivity | now rewrite app_nil_r ].
  - destruct (content_line_live st f w) as [w1 [Hrun [S1 K1]]].
    cbn [map process_lines]. unfold bind. rewrite Hrun. cbn [snd fst].
    destruct (IH (mkRelay (accumulatedResponse st ++ f)
                          (snd (batch_step (sentenceBuffer st) f))) w1)
      as [w2 [Hrest [S2 K2]]].
    rewrite Hrest. cbn [accumulatedResponse sentenceBuffer] in *.
    exists w2. rewrite join_cons, append_assoc. cbn [batches].
    destruct (batch_step (sentenceBuffer st) f) as [o b]. cbn [fst snd] in *.
    destruct (batches b fs) as [o' b']. cbn [fst snd] in *.
    split; [ reflexivity | ].
    rewrite (requests_for_app (tts_requests w) o o' K1). cbn [fst snd].
    split; [ now rewrite S2, S1, app_assoc | exact K2 ].
Qed.

Lemma batches_app buf a b :
  batches buf (a ++ b)
  = (fst (batches buf a) ++ fst (batches (snd (batches buf a)) b),
     snd (batches (snd (batches buf a)) b)).
Proof.
  revert buf. induction a as [ | f fs IH ]; intro buf; simpl.
  - now destruct (batches buf b).
  - destruct (batch_step buf f) as [o b1]. rewrite IH.
    destruct (batches b1 fs) as [o1 b2]. simpl.
    destruct (batches b2 b) as [o2 b3]. simpl. now rewrite app_assoc.
Qed.

Lemma join_app a b :
  History.join (a ++ b) = (History.join a ++ History.join b)%string.
Proof.
  induction a as [ | x xs IH ].
  - reflexivity.
  - rewrite <- app_comm_cons, !join_cons, IH. now rewrite append_assoc.
Qed.

(** The requests of a whole stream are those for its batches, in order,
    each batch requested once or, after a retry, twice. *)
Lemma content_stream_live reads :
  forall st w,
    exists buf w',
      read_loop (sendChunkToAvatar E) (content_stream reads) None st w
      = (Returned
           (mkRelay
              (accumulatedResponse st ++ History.join (List.concat reads))%string
              buf), w')
      /\ spoken (trace w')
         = spoken (trace w)
             ++ fst (requests_for E (tts_requests w)
                       (fst (batches (sentenceBuffer st) (List.concat reads))
                          ++ last_batch
                               (snd (batches (sentenceBuffer st)
                                       (List.concat reads))))).
Proof.
  induction reads as [ | fragments rest IH ]; intros st w.
  - cbn [content_stream map read_loop List.concat batches fst snd app].
    unfold flush, bind, last_batch, History.join. simpl String.concat.
    rewrite append_nil_r.
    destruct (0 <? String.length (trim (sentenceBuffer st))).
    + destruct (send_live (trim (sentenceBuffer st)) w) as [w1 [Hs [S1 _]]].
      rewrite Hs. eexists. eexists. split; [ reflexivity | ].
      rewrite requests_for_one. exact S1.
    + exists (sentenceBuffer st), w. destruct st.
      split; [ reflexivity | simpl; now rewrite app_nil_r ].
  - cbn [content_stream map read_loop List.concat]. unfold bind.
    destruct (content_lines_live fragments st w) as [w1 [Hrun [S1 K1]]].
    rewrite Hrun.
    destruct (IH (mkRelay (accumulatedResponse st ++ History.join fragments)
                          (snd (batches (sentenceBuffer st) fragments))) w1)
      as [buf [w2 [Hrest S2]]].
    fold (content_stream rest). rewrite Hrest.
    cbn [accumulatedResponse sentenceBuffer] in *.
    exists buf, w2. rewrite join_app, append_assoc.
    split; [ reflexivity | ].
    rewrite batches_app. cbn [fst snd]. rewrite <- app_assoc.
    rewrite (requests_for_app (tts_requests w) _ _ K1). cbn [fst].
    rewrite S2, S1. now rewrite <- app_assoc.
Qed.

End Live.

(** C2.  Let the session be live, and let the relay consume a stream of
    content fragments whose concatenation is "Hello world. How are you? ",
    cut into fragments and reads in any way, and then ended.  The relay
    returns with that text accumulated, having dispatched "Hello world."
    and then "How are you?" and nothing else: the requests it sent to the
    speech endpoint are those for the first chunk (one, or two when the
    first is retried) followed by those for the second.  When the endpoint
    accepts every request these are exactly two requests.  (Both batches
    come from buffers far below [MAX_BUFFER_LENGTH]; see
    [short_buffer_is_not_forced].) *)
Theorem hello_world_is_two_chunks E (reads : list (list string)) w :
  live E ->
  History.join (List.concat reads) = hello_text ->
  exists buf w',
    read_loop (sendChunkToAvatar E) (content_stream reads) None
              (mkRelay EmptyString EmptyString) w
    = (Returned (mkRelay hello_text buf), w')
    /\ (let n1 := attempts_for E (tts_requests w) in
        let n2 := attempts_for E (tts_requests w + n1) in
        spoken (trace w')
        = spoken (trace w)
            ++ repeat "Hello world." n1 ++ repeat "How are you?" n2)
    /\ (speech_accepts E ->
        spoken (trace w')
        = spoken (trace w) ++ ["Hello world."; "How are you?"]).
Proof.
  intros Hlive Hjoin.
  destruct (content_stream_live Hlive reads
              (mkRelay EmptyString EmptyString) w) as [buf [w' [Hrun S]]].
  cbn [accumulatedResponse sentenceBuffer String.append] in *.
  pose proof (BatchingFacts.hello_chunks (List.concat reads) Hjoin) as Hc.
  unfold chunks_of in Hc.
  destruct (batches EmptyString (List.concat reads)) as [o b].
  cbn [fst snd] in S. rewrite Hc in S.
  assert (Hspoken :
            spoken (trace w')
            = spoken (trace w)
                ++ repeat "Hello world." (attempts_for E (tts_requests w))
                ++ repeat "How are you?"
                     (attempts_for E
                        (tts_requests w + attempts_for E (tts_requests w)))).
  { rewrite S. cbn [requests_for fst]. now rewrite app_nil_r. }
  exists buf, w'. rewrite <- Hjoin. split; [ exact Hrun | ].
  split; [ exact Hspoken | ].
  intros [_ [_ Htts]]. rewrite Hspoken. unfold attempts_for.
  now rewrite !Htts.
Qed.

Lemma hello_world_is_two_chunks_witness :
  let E := live_env (fun _ => LlmResponse 200 "OK" (Some hello_stream)) in
  let reads := [["Hel"; "lo world"]; ["."; " How are you"]; ["? "]] in
  exists buf w',
    read_loop (sendChunkToAvatar E) (content_stream reads) None
              (mkRelay EmptyString EmptyString) world0
    = (Returned (mkRelay hello_text buf), w')
    /\ (let n1 := attempts_for E (tts_requests world0) in
        let n2 := attempts_for E (tts_requests world0 + n1) in
        spoken (trace w')
        = spoken (trace world0)
            ++ repeat "Hello world." n1 ++ repeat "How are you?" n2)
    /\ (speech_accepts E ->
        spoken (trace w')
        = spoken (trace world0) ++ ["Hello world."; "How are you?"]).
Proof.
  intros E reads.
  apply (@hello_world_is_two_chunks E reads world0).
  - split; reflexivity.
  - reflexivity.
Defined.

End TurnFacts.

(* ===================================================================== *)
(** * Properties of the role mapping and of the chat route's messages *)
(* ===================================================================== *)

Module ListFacts.

Lemma last_Some_snoc (A : Type) (l : list A) (x : A) :
  last (map Some (l ++ [x])) None = Some x.
Proof.
  induction l as [ | y l IH ]; [ reflexivity | ].
  simpl. simpl in IH. rewrite IH.
  destruct (map Some (l ++ [x])) eqn:H; [ | reflexivity ].
  destruct l; discriminate.
Qed.

Lemma last_Some_nil (A : Type) (l : list A) :
  last (map Some l) None = None -> l = [].
Proof.
  destruct l as [ | y l ] using rev_ind; [ reflexivity | ].
  rewrite last_Some_snoc. discriminate.
Qed.

Lemma last_Some_inv (A : Type) (l : list A) (x : A) :
  last (map Some l) None = Some x -> l = removelast l ++ [x].
Proof.
  destruct l as [ | y l ] using rev_ind; [ discriminate | ].
  rewrite last_Some_snoc. intro H. injection H as ->.
  now rewrite removelast_last.
Qed.

Lemma concat_app_string (a b : list string) :
  String.concat EmptyString (a ++ b)
  = (String.concat EmptyString a ++ String.concat EmptyString b)%string.
Proof.
  exact (TurnFacts.join_app a b).
Qed.

End ListFacts.

Module RoleMappingFacts.

Import Eff Js RoleMapping ListFacts.

Lemma llmMessagesToMessages_from (clock : nat -> string) (ls : list LLMMessage) :
  forall k,
    no_system ls ->
    map messageToLLMMessage
        (map (fun kl => llmMessageToMessage (clock (fst kl)) (snd kl))
             (combine (seq k (List.length ls)) ls))
    = ls.
Proof.
  induction ls as [ | l ls IH ]; intros k H; [ reflexivity | ].
  inversion H as [ | ? ? Hl Hls ]; subst. simpl. rewrite IH by exact Hls.
  f_equal. destruct l as [ [ | | ] c ]; try reflexivity.
  now contradiction Hl.
Qed.

(** X1.  Converting LLM messages to history messages and back gives the
    same list when none of them has the role [system]; every converted
    message is marked complete.  A [system] message does not survive the
    round trip: it comes back with the role [assistant]. *)
Theorem llm_messages_round_trip (clock : nat -> string) (ls : list LLMMessage) :
  no_system ls ->
  messagesToLLMMessages (llmMessagesToMessages clock ls) = ls
  /\ Forall (fun m => j_isComplete m = Some true) (llmMessagesToMessages clock ls)
  /\ (forall now text,
        messageToLLMMessage (llmMessageToMessage now (createSystemMessage text))
        = createAssistantMessage text)
  /\ (forall s, roleToSender (senderToRole s) = s).
Proof.
  intro H. split; [ | split; [ | split ] ].
  - apply llmMessagesToMessages_from. exact H.
  - unfold llmMessagesToMessages. apply Forall_forall. intros m Hin.
    apply in_map_iff in Hin. destruct Hin as [kl [<- _]]. reflexivity.
  - reflexivity.
  - intros [ | ]; reflexivity.
Qed.

Lemma llm_messages_round_trip_witness :
  let ls := [createUserMessage "What is a cell?";
             createAssistantMessage "The unit of life."] in
  let clock := fun k => match k with 0 => "1700000000000" | _ => "1700000000001" end in
  messagesToLLMMessages (llmMessagesToMessages clock ls) = ls
  /\ Forall (fun m => j_isComplete m = Some true) (llmMessagesToMessages clock ls)
  /\ (forall now text,
        messageToLLMMessage (llmMessageToMessage now (createSystemMessage text))
        = createAssistantMessage text)
  /\ (forall s, roleToSender (senderToRole s) = s).
Proof.
  apply (@llm_messages_round_trip
           (fun k => match k with 0 => "1700000000000" | _ => "1700000000001" end)
           [createUserMessage "What is a cell?";
            createAssistantMessage "The unit of life."]).
  repeat constructor; discriminate.
Defined.

(** X2.  [ensureSystemMessage] always returns a list that starts with a
    system message; it returns its argument when that already starts with
    one (the prompt is then ignored) and puts the prompt in front
    otherwise; applying it again, with any prompt, changes nothing. *)
Theorem ensureSystemMessage_settles (ms : list LLMMessage) (p q : string) :
  (exists first rest,
      ensureSystemMessage ms p = first :: rest /\ llm_role first = system)
  /\ (ensureSystemMessage ms p = ms
      \/ ensureSystemMessage ms p = createSystemMessage p :: ms)
  /\ (ensureSystemMessage ms p = ms
      <-> exists first rest, ms = first :: rest /\ llm_role first = system)
  /\ ensureSystemMessage (ensureSystemMessage ms p) q = ensureSystemMessage ms p.
Proof.
  destruct ms as [ | [ [ | | ] c ] rest ]; simpl;
    (split; [ eexists; eexists; split; reflexivity | ]);
    (split; [ auto | ]); (split; [ | reflexivity ]).
  - split; [ discriminate | intros [f [r [H _]]]; discriminate ].
  - split; [ intros _; eexists; eexists; split; reflexivity | reflexivity ].
  - split; [ intro H; exfalso | intros [f [r [H R]]]; injection H as <- <-;
                                 discriminate ].
    assert (L : List.length (createSystemMessage p :: mkLLMMessage user c :: rest)
                = List.length (mkLLMMessage user c :: rest)) by now rewrite H.
    simpl in L. lia.
  - split; [ intro H; exfalso | intros [f [r [H R]]]; injection H as <- <-;
                                 discriminate ].
    assert (L : List.length (createSystemMessage p
                               :: mkLLMMessage assistant c :: rest)
                = List.length (mkLLMMessage assistant c :: rest)) by now rewrite H.
    simpl in L. lia.
Qed.


End RoleMappingFacts.

Module ChatRouteFacts.

Import Eff Js RoleMapping AdapterFactory ChatRoute ListFacts RoleMappingFacts.



Lemma last_user_message (front : list LLMMessage) (message : string) :
  CustomBackend.formatMessagesForBackend (front ++ [mkLLMMessage user message])
  = Returned message.
Proof.
  unfold CustomBackend.formatMessagesForBackend.
  rewrite filter_app. simpl. now rewrite last_Some_snoc.
Qed.

(** X4.  The question the custom backend is asked is the current message
    and nothing else: on a list the route prepared
    [formatMessagesForBackend] never throws and returns the message, so the
    adapter's answer does not depend on the history or the system
    prompt. *)
Theorem backend_is_asked_the_current_message
  (JSON_parse : string -> option CustomBackend.SSEEvent)
  (backend : string -> CustomBackend.backend_response)
  (p1 p2 message : string) (h1 h2 : list MessageJson) :
  CustomBackend.formatMessagesForBackend (prepareMessagesForLLM p1 message h1)
  = Returned message
  /\ CustomBackend.stream JSON_parse backend (prepareMessagesForLLM p1 message h1)
     = CustomBackend.stream JSON_parse backend (prepareMessagesForLLM p2 message h2).
Proof.
  assert (H : forall p h,
             CustomBackend.formatMessagesForBackend
               (prepareMessagesForLLM p message h) = Returned message)
    by (intros p h; unfold prepareMessagesForLLM; apply last_user_message).
  split; [ apply H | ].
  unfold CustomBackend.stream. now rewrite !H.
Qed.

End ChatRouteFacts.

(* ===================================================================== *)
(** * Properties of the adapters' streams *)
(* ===================================================================== *)

Module CustomBackendFacts.

Import Eff Js RoleMapping CustomBackend ListFacts StringFacts.

Lemma split_newline_cons (s : string) :
  exists piece pieces, split_newline s = piece :: pieces.
Proof.
  destruct s as [ | c rest ]; simpl; [ now eexists; eexists | ].
  destruct (Ascii.eqb c line_feed); [ now eexists; eexists | ].
  destruct (split_newline rest); now eexists; eexists.
Qed.

Lemma removelast_cons2 (A : Type) (x y : A) (l : list A) :
  removelast (x :: y :: l) = x :: removelast (y :: l).
Proof. reflexivity. Qed.

Lemma last_cons2 (A : Type) (x y d : A) (l : list A) :
  last (x :: y :: l) d = last (y :: l) d.
Proof. reflexivity. Qed.

(** Splitting a text that arrives in two parts: the complete lines of the
    first part, then the split of what the first part left with the second
    part behind it. *)
Lemma split_newline_app (x y : string) :
  split_newline (x ++ y)
  = removelast (split_newline x)
      ++ split_newline (last (split_newline x) EmptyString ++ y).
Proof.
  induction x as [ | c x IH ]; [ reflexivity | ].
  cbn [append split_newline].
  destruct (split_newline_cons x) as [p [ps Hx]].
  destruct (Ascii.eqb c line_feed) eqn:E.
  - rewrite IH, Hx. rewrite removelast_cons2, last_cons2. reflexivity.
  - rewrite IH, Hx. destruct ps as [ | p2 ps ].
    + cbn [removelast last app append split_newline]. now rewrite E.
    + rewrite !removelast_cons2, !last_cons2. reflexivity.
Qed.

Lemma split_newline_plain (s : string) :
  has_line_feed s = false -> split_newline s = [s].
Proof.
  unfold has_line_feed. induction s as [ | c s IH ]; [ reflexivity | ].
  cbn [list_ascii_of_string existsb split_newline].
  rewrite Ascii.eqb_sym. intro H. apply orb_false_elim in H.
  destruct H as [H1 H2]. rewrite H1, IH by exact H2. reflexivity.
Qed.

Lemma last_piece_plain (s : string) :
  has_line_feed (last (split_newline s) EmptyString) = false.
Proof.
  unfold has_line_feed. induction s as [ | c s IH ]; [ reflexivity | ].
  cbn [split_newline]. destruct (split_newline_cons s) as [p [ps Hs]].
  rewrite Hs in *. destruct (Ascii.eqb c line_feed) eqn:E.
  - rewrite last_cons2. exact IH.
  - destruct ps as [ | p2 ps ].
    + cbn [last list_ascii_of_string existsb] in *.
      rewrite Ascii.eqb_sym, E. exact IH.
    + rewrite last_cons2. rewrite last_cons2 in IH. exact IH.
Qed.

Lemma removelast_app_cons (A : Type) (l : list A) (x : A) (l' : list A) :
  removelast (l ++ x :: l') = l ++ removelast (x :: l').
Proof. apply removelast_app. discriminate. Qed.

Section Parser.

Variable JSON_parse : string -> option SSEEvent.

Lemma for_lines_app (a b : list string) :
  for_lines JSON_parse (a ++ b)
  = if snd (for_lines JSON_parse a) then for_lines JSON_parse a
    else (fst (for_lines JSON_parse a) ++ fst (for_lines JSON_parse b),
          snd (for_lines JSON_parse b)).
Proof.
  induction a as [ | line a IH ].
  - simpl. now destruct (for_lines JSON_parse b).
  - cbn [app for_lines]. destruct (handle_line JSON_parse line).
    + exact IH.
    + rewrite IH. destruct (for_lines JSON_parse a) as [ys [ | ]]; simpl.
      * reflexivity.
      * now destruct (for_lines JSON_parse b).
    + reflexivity.
Qed.

(** One read of a buffer without a line feed and a text. *)
Lemma read_loop_one (b s : string) (read_error : option JsError) :
  read_loop JSON_parse b [s] read_error
  = let pieces := split_newline (b ++ s)%string in
    let r := for_lines JSON_parse (removelast pieces) in
    if snd r then (fst r, None)
    else match read_error with
         | None => (fst r ++ [mkChunk EmptyString true None], None)
         | Some e => (fst r ++ [], Some e)
         end.
Proof.
  cbn [read_loop]. cbv zeta.
  destruct (for_lines JSON_parse (removelast (split_newline (b ++ s))))
    as [ys [ | ]]; simpl; [ reflexivity | ].
  now destruct read_error.
Qed.

(** Reading in pieces is reading at once. *)
Lemma read_loop_join (read_error : option JsError) (reads : list string) :
  forall b,
    has_line_feed b = false ->
    read_loop JSON_parse b reads read_error
    = read_loop JSON_parse EmptyString
        [(b ++ String.concat EmptyString reads)%string] read_error.
Proof.
  induction reads as [ | v rest IH ]; intros b Hb.
  - rewrite read_loop_one. cbn [String.concat append]. rewrite append_nil_r.
    cbv zeta. rewrite split_newline_plain by exact Hb. simpl.
    now destruct read_error.
  - cbn [read_loop]. cbv zeta.
    rewrite IH by apply last_piece_plain.
    rewrite !read_loop_one. cbn [append]. cbv zeta.
    change (String.concat EmptyString (v :: rest)) with (History.join (v :: rest)).
    rewrite join_cons. unfold History.join. rewrite <- append_assoc.
    rewrite (split_newline_app (b ++ v)).
    destruct (split_newline_cons
                (last (split_newline (b ++ v)) EmptyString
                   ++ String.concat EmptyString rest)) as [p [ps Hp]].
    rewrite Hp. rewrite removelast_app_cons. rewrite for_lines_app.
    destruct (for_lines JSON_parse (removelast (split_newline (b ++ v))))
      as [ys [ | ]]; cbn [fst snd]; [ reflexivity | ].
    destruct (for_lines JSON_parse (removelast (p :: ps))) as [ys2 [ | ]];
      cbn [fst snd]; [ reflexivity | ].
    destruct read_error; now rewrite <- ?app_assoc.
Qed.

Lemma handle_line_yields (line : string) :
  match handle_line JSON_parse line with
  | Skip => True
  | Yield chunk => is_content_chunk chunk = true
  | YieldReturn chunk =>
      c_done chunk = true /\ c_content chunk = EmptyString
      /\ exists e, c_error chunk = Some e /\ truthy e = true
  end.
Proof.
  unfold handle_line. cbv zeta.
  destruct (negb (truthy (trim line))); [ exact I | ].
  destruct (String.prefix "event:" (trim line)); [ exact I | ].
  destruct (String.prefix "data:" (trim line)); [ | exact I ].
  destruct (String.eqb _ "[DONE]"); [ exact I | ].
  destruct (JSON_parse _) as [ [ | content | success msg | success msg | ] | ];
    simpl; try exact I.
  - destruct (truthy content) eqn:T; [ | exact I ].
    unfold is_content_chunk. simpl. now rewrite T.
  - destruct (negb success && truthy msg) eqn:T; [ | exact I ].
    apply andb_prop in T. simpl. split; [ reflexivity | ]. split; [ reflexivity | ].
    exists msg. now split.
  - destruct (negb success && truthy msg) eqn:T; [ | exact I ].
    apply andb_prop in T. simpl. split; [ reflexivity | ]. split; [ reflexivity | ].
    exists msg. now split.
Qed.

(** The chunks of a run of lines: content chunks, then the error chunk if
    the generator returned. *)
Lemma for_lines_shape (lines : list string) :
  (snd (for_lines JSON_parse lines) = false
   /\ forallb is_content_chunk (fst (for_lines JSON_parse lines)) = true)
  \/ (snd (for_lines JSON_parse lines) = true
      /\ exists body final,
           fst (for_lines JSON_parse lines) = body ++ [final]
           /\ forallb is_content_chunk body = true
           /\ c_done final = true /\ c_content final = EmptyString).
Proof.
  induction lines as [ | line lines IH ]; [ now left | ].
  cbn [for_lines]. pose proof (handle_line_yields line) as H.
  destruct (handle_line JSON_parse line) as [ | chunk | chunk ].
  - exact IH.
  - destruct (for_lines JSON_parse lines) as [ys r]. cbn [fst snd] in *.
    destruct IH as [ [-> IH] | [-> [body [final [-> [Hb Hf]]]]] ].
    + left. split; [ reflexivity | ]. simpl. now rewrite H, IH.
    + right. split; [ reflexivity | ]. exists (chunk :: body), final.
      split; [ reflexivity | ]. split; [ | exact Hf ]. simpl. now rewrite H, Hb.
  - right. split; [ reflexivity | ]. exists [], chunk.
    split; [ reflexivity | ]. split; [ reflexivity | ]. now destruct H as [H1 [H2 _]].
Qed.

Lemma read_loop_shape (read_error : option JsError) (reads : list string) :
  forall b,
    match snd (read_loop JSON_parse b reads read_error) with
    | None =>
        exists body final,
          fst (read_loop JSON_parse b reads read_error) = body ++ [final]
          /\ forallb is_content_chunk body = true
          /\ c_done final = true /\ c_content final = EmptyString
    | Some e =>
        read_error = Some e
        /\ forallb is_content_chunk
             (fst (read_loop JSON_parse b reads read_error)) = true
    end.
Proof.
  induction reads as [ | v rest IH ]; intro b.
  - simpl. destruct read_error; simpl.
    + now split.
    + exists [], (mkChunk EmptyString true None). now repeat split.
  - cbn [read_loop]. cbv zeta.
    set (lines := removelast (split_newline (b ++ v))).
    set (b' := last (split_newline (b ++ v)) EmptyString).
    specialize (IH b').
    destruct (for_lines_shape lines) as [ [Hr Hc] | [Hr Hshape] ];
      destruct (for_lines JSON_parse lines) as [ys r]; cbn [fst snd] in *;
      subst r.
    + destruct (read_loop JSON_parse b' rest read_error) as [ys' thrown].
      cbn [fst snd] in *. destruct thrown as [ e | ].
      * destruct IH as [He IH]. split; [ exact He | ].
        now rewrite forallb_app, Hc, IH.
      * destruct IH as [body [final [-> [Hb Hf]]]].
        exists (ys ++ body), final. split; [ now rewrite app_assoc | ].
        split; [ | exact Hf ]. now rewrite forallb_app, Hc, Hb.
    + exact Hshape.
Qed.

End Parser.

(** X5.  The SSE parser of the custom adapter does not depend on how the
    transport cuts the backend's text into reads: two sequences of reads
    with the same concatenation give the same chunks and the same
    error. *)
Theorem reads_may_be_cut_anywhere
  (JSON_parse : string -> option SSEEvent) (reads reads' : list string)
  (read_error : option JsError) (messages : list LLMMessage) :
  String.concat EmptyString reads = String.concat EmptyString reads' ->
  stream JSON_parse (fun _ => Streaming reads read_error) messages
  = stream JSON_parse (fun _ => Streaming reads' read_error) messages.
Proof.
  intro H. unfold stream.
  destruct (formatMessagesForBackend messages); [ | reflexivity ].
  rewrite (read_loop_join JSON_parse read_error reads EmptyString eq_refl).
  rewrite (read_loop_join JSON_parse read_error reads' EmptyString eq_refl).
  now rewrite H.
Qed.

Lemma reads_may_be_cut_anywhere_witness :
  stream sample_parse (fun _ => Streaming sample_reads None)
         [createUserMessage "Hi"]
  = stream sample_parse (fun _ => Streaming sample_reads_cut None)
           [createUserMessage "Hi"].
Proof.
  apply (@reads_may_be_cut_anywhere sample_parse sample_reads sample_reads_cut
           None [createUserMessage "Hi"]).
  reflexivity.
Defined.

End CustomBackendFacts.

Module AdapterStreamFacts.

Import Eff Js RoleMapping AdapterFactory ChatRoute ListFacts StringFacts.

(** ** What the generators yield *)

Lemma rethrow_is_adapter_error (e : JsError) :
  is_adapter_error (CustomBackend.rethrow e) = true.
Proof.
  unfold CustomBackend.rethrow.
  destruct (is_adapter_error e) eqn:H; [ exact H | reflexivity ].
Qed.

Lemma custom_stream_shape
  (JSON_parse : string -> option CustomBackend.SSEEvent)
  (backend : string -> CustomBackend.backend_response)
  (messages : list LLMMessage) :
  match snd (CustomBackend.stream JSON_parse backend messages) with
  | None =>
      exists body final,
        fst (CustomBackend.stream JSON_parse backend messages) = body ++ [final]
        /\ forallb CustomBackend.is_content_chunk body = true
        /\ c_done final = true
        /\ (c_error final = None \/ c_content final = EmptyString)
  | Some e =>
      forallb CustomBackend.is_content_chunk
        (fst (CustomBackend.stream JSON_parse backend messages)) = true
      /\ is_adapter_error e = true
  end.
Proof.
  unfold CustomBackend.stream.
  destruct (CustomBackend.formatMessagesForBackend messages) as [ q | e ] eqn:F.
  - destruct (backend q) as [ e | st stt [ t | e ] | [ d | e ] | | reads re ];
      cbn [fst snd].
    + split; [ reflexivity | apply rethrow_is_adapter_error ].
    + now split.
    + split; [ reflexivity | apply rethrow_is_adapter_error ].
    + exists [], (mkChunk (CustomBackend.fallback_text d) true None).
      repeat split. now left.
    + split; [ reflexivity | apply rethrow_is_adapter_error ].
    + now split.
    + pose proof (CustomBackendFacts.read_loop_shape JSON_parse re reads
                    EmptyString) as H.
      destruct (CustomBackend.read_loop JSON_parse EmptyString reads re)
        as [ys [ e | ]]; cbn [fst snd option_map] in *.
      * destruct H as [_ H]. split; [ exact H | apply rethrow_is_adapter_error ].
      * destruct H as [body [final [-> [Hb [Hd Hc]]]]].
        exists body, final. repeat split; auto.
  - unfold CustomBackend.formatMessagesForBackend in F.
    destruct (last _ None); [ discriminate | ]. injection F as <-.
    cbn [fst snd]. now split.
Qed.

(** X6.  Run to its end, the custom adapter's generator either yields
    content chunks (non-empty text, [done: false], no error) followed by
    exactly one chunk with [done: true], which is the last, or it yields
    content chunks only and throws an [LLMAdapterError].  A last chunk that
    carries an error has no text. *)
Theorem custom_stream_ends_once
  (JSON_parse : string -> option CustomBackend.SSEEvent)
  (backend : string -> CustomBackend.backend_response)
  (messages : list LLMMessage) :
  match snd (CustomBackend.stream JSON_parse backend messages) with
  | None =>
      exists body final,
        fst (CustomBackend.stream JSON_parse backend messages) = body ++ [final]
        /\ forallb CustomBackend.is_content_chunk body = true
        /\ c_done final = true
        /\ (c_error final = None \/ c_content final = EmptyString)
  | Some e =>
      forallb CustomBackend.is_content_chunk
        (fst (CustomBackend.stream JSON_parse backend messages)) = true
      /\ is_adapter_error e = true
  end.
Proof. apply custom_stream_shape. Qed.

(** The OpenAI adapter's loop: it goes on to the end of the SDK's stream,
    or it ends at the first chunk with a finish reason it knows. *)
Lemma for_chunks_shape (chunks : list OpenAIStream.sdk_chunk)
  (iteration_error : option OpenAIStream.sdk_failure) :
  (forallb goes_on chunks = true
   /\ snd (OpenAIStream.for_chunks chunks iteration_error) = iteration_error
   /\ forallb CustomBackend.is_content_chunk
        (fst (OpenAIStream.for_chunks chunks iteration_error)) = true)
  \/ (forallb goes_on chunks = false
      /\ snd (OpenAIStream.for_chunks chunks iteration_error) = None
      /\ exists body final,
           fst (OpenAIStream.for_chunks chunks iteration_error) = body ++ [final]
           /\ forallb CustomBackend.is_content_chunk body = true
           /\ c_done final = true /\ c_content final = EmptyString).
Proof.
  induction chunks as [ | chunk chunks IH ]; [ now left | ].
  cbn [OpenAIStream.for_chunks forallb]. unfold goes_on at 1 3. cbv zeta.
  set (text := if truthy (OpenAIStream.delta_content chunk)
               then [mkChunk (OpenAIStream.delta_content chunk) false None]
               else []).
  assert (Ht : forallb CustomBackend.is_content_chunk text = true).
  { unfold text. destruct (truthy (OpenAIStream.delta_content chunk)) eqn:T;
      [ | reflexivity ].
    unfold CustomBackend.is_content_chunk. simpl. now rewrite T. }
  destruct (OpenAIStream.finished (OpenAIStream.finish_reason chunk)).
  - right. split; [ reflexivity | ]. split; [ reflexivity | ].
    exists text, (mkChunk EmptyString true None). now repeat split.
  - destruct (OpenAIStream.filtered (OpenAIStream.finish_reason chunk)).
    + right. split; [ reflexivity | ]. split; [ reflexivity | ].
      eexists text, _. split; [ reflexivity | ]. now repeat split.
    + cbn [negb andb].
      destruct (OpenAIStream.for_chunks chunks iteration_error) as [ys thrown].
      cbn [fst snd] in *.
      destruct IH as [ [-> [-> IH]] | [-> [-> [body [final [-> [Hb Hf]]]]]] ].
      * left. split; [ reflexivity | ]. split; [ reflexivity | ].
        now rewrite forallb_app, Ht, IH.
      * right. split; [ reflexivity | ]. split; [ reflexivity | ].
        exists (text ++ body), final. split; [ now rewrite app_assoc | ].
        split; [ | exact Hf ]. now rewrite forallb_app, Ht, Hb.
Qed.

(** ** What the route forwards *)

Lemma content_chunk_goes_on (c : LLMStreamChunk) :
  CustomBackend.is_content_chunk c = true -> ends_stream c = false.
Proof.
  unfold CustomBackend.is_content_chunk, ends_stream, has_error.
  destruct (c_done c), (c_error c), (truthy (c_content c)); simpl;
    try discriminate; reflexivity.
Qed.

Lemma forward_content (body rest : list LLMStreamChunk) (thrown : option JsError) :
  forallb CustomBackend.is_content_chunk body = true ->
  forward (body ++ rest) thrown
  = (body ++ fst (forward rest thrown), snd (forward rest thrown)).
Proof.
  induction body as [ | c body IH ]; intro H.
  - cbn [app]. now destruct (forward rest thrown).
  - simpl in H. apply andb_prop in H. destruct H as [Hc Hb].
    pose proof (content_chunk_goes_on c Hc) as He.
    unfold ends_stream in He. apply orb_false_elim in He. destruct He as [H1 H2].
    cbn [app forward]. rewrite H1, H2, IH by exact Hb. reflexivity.
Qed.

Lemma forward_done (final : LLMStreamChunk) (thrown : option JsError) :
  c_done final = true -> forward [final] thrown = ([final], true).
Proof. intro H. cbn [forward]. now rewrite H. Qed.

(** A stream with one ending chunk, the last, is forwarded whole; content
    chunks followed by a throw are forwarded with an error chunk behind. *)
Lemma forward_ended (body : list LLMStreamChunk) (final : LLMStreamChunk)
  (thrown : option JsError) :
  forallb CustomBackend.is_content_chunk body = true ->
  c_done final = true ->
  forward (body ++ [final]) thrown = (body ++ [final], true).
Proof.
  intros Hb Hf. rewrite forward_content by exact Hb.
  now rewrite forward_done by exact Hf.
Qed.

Lemma forward_unended (ys : list LLMStreamChunk) (thrown : option JsError) :
  forallb CustomBackend.is_content_chunk ys = true ->
  forward ys thrown
  = match thrown with
    | Some e => (ys ++ [mkChunk EmptyString true (Some (message e))], true)
    | None => (ys, false)
    end.
Proof.
  intro H. rewrite <- (app_nil_r ys) at 1. rewrite forward_content by exact H.
  destruct thrown; cbn [forward fst snd]; [ reflexivity | now rewrite app_nil_r ].
Qed.

(** X7.  The body of a chat response ends in every case but one: the
    route never closes it exactly when the request was read, the adapter is
    the OpenAI adapter, and the SDK's stream ends without throwing and
    without a chunk whose finish reason is [stop], [length] or
    [content_filter]. *)
Theorem response_ends_unless_openai_never_finishes
  (JSON_parse : string -> option CustomBackend.SSEEvent)
  (backend : string -> CustomBackend.backend_response)
  (openai : OpenAIStream.sdk_response)
  (env : environment) (request : request_body) :
  closed (POST JSON_parse backend openai env request) = false
  <-> (exists message conversationHistory,
          request = Body message conversationHistory)
      /\ (exists apiKey baseURL defaultModel organization,
             createLLMAdapterFromEnv env
             = Returned (OpenAIAdapter apiKey baseURL defaultModel organization))
      /\ (exists chunks,
             openai = OpenAIStream.CreateStreams chunks None
             /\ forallb goes_on chunks = true).
Proof.
  unfold POST. destruct request as [ e | message history ].
  { split; [ discriminate | intros [[m [h H]] _]; discriminate ]. }
  destruct (createLLMAdapterFromEnv env) as [ [ url prompt | k b m o ] | e ].
  - cbn [adapter_stream].
    pose proof (custom_stream_shape JSON_parse backend
                  (prepareMessagesForLLM (ChatRoute.LLM_SYSTEM_PROMPT env)
                                         message history)) as H.
    destruct (CustomBackend.stream JSON_parse backend _) as [ys [ e | ]];
      cbn [fst snd] in H.
    + destruct H as [H _]. rewrite forward_unended by exact H.
      split; [ discriminate | intros [_ [[? [? [? [? A]]]] _]]; discriminate ].
    + destruct H as [body [final [-> [Hb [Hd _]]]]].
      rewrite forward_ended by assumption.
      split; [ discriminate | intros [_ [[? [? [? [? A]]]] _]]; discriminate ].
  - cbn [adapter_stream]. unfold OpenAIStream.stream.
    destruct openai as [ f | chunks ie ].
    + cbn [forward closed].
      split; [ discriminate | intros [_ [_ [c [A _]]]]; discriminate ].
    + destruct (for_chunks_shape chunks ie) as [ [Hn [Ht Hc]] | [Hn [Ht Hs]] ];
        destruct (OpenAIStream.for_chunks chunks ie) as [ys thrown];
        cbn [fst snd] in *; subst thrown.
      * rewrite forward_unended by exact Hc. destruct ie as [ f | ];
          cbn [option_map closed].
        -- split; [ discriminate | intros [_ [_ [c [A _]]]]; discriminate ].
        -- split; [ intros _ | reflexivity ].
           split; [ now exists message, history | ].
           split; [ now exists k, b, m, o | ]. now exists chunks.
      * destruct Hs as [body [final [-> [Hb [Hd _]]]]].
        cbn [option_map]. rewrite forward_ended by assumption. cbn [closed].
        split; [ discriminate | ]. intros [_ [_ [c [A B]]]].
        injection A as <-. rewrite Hn in B. discriminate.
  - cbn [closed].
    split; [ discriminate | intros [_ [[? [? [? [? A]]]] _]]; discriminate ].
Qed.

End AdapterStreamFacts.

Module WireFacts.

Import Eff Js RoleMapping AdapterFactory ChatRoute ListFacts StringFacts
       AdapterStreamFacts.

Lemma text_of_cons (c : LLMStreamChunk) (rest : list LLMStreamChunk) :
  text_of (c :: rest) = (c_content c ++ text_of rest)%string.
Proof. apply (join_cons (c_content c) (map c_content rest)). Qed.

Lemma text_of_app (a b : list LLMStreamChunk) :
  text_of (a ++ b) = (text_of a ++ text_of b)%string.
Proof. unfold text_of. rewrite map_app. apply concat_app_string. Qed.

Lemma only_last_stops_app (a b : list LLMStreamChunk) :
  only_last_stops (a ++ b) = true ->
  only_last_stops a = true /\ only_last_stops b = true.
Proof.
  induction a as [ | c a IH ]; [ now split | ].
  cbn [app only_last_stops].
  destruct a as [ | c' a ].
  - destruct b as [ | c' b ]; [ now split | ].
    cbn [app]. intro H. apply andb_prop in H. now split.
  - cbn [app] in *. intro H. apply andb_prop in H. destruct H as [H1 H2].
    destruct (IH H2) as [Ha Hb]. split; [ | exact Hb ].
    now rewrite H1, Ha.
Qed.

(** What the relay reads of the lines of one read. *)
Lemma line_texts_wire (g : list LLMStreamChunk) :
  only_last_stops g = true ->
  forallb quiet_error g = true ->
  LLMChat.line_texts (map (fun c => Some (to_line c)) g) = text_of g.
Proof.
  induction g as [ | c g IH ]; [ reflexivity | ].
  intros Hs Hq. cbn [forallb] in Hq. apply andb_prop in Hq. destruct Hq as [Hc Hq].
  cbn [map]. rewrite RelayFacts.line_texts_cons, text_of_cons.
  assert (Hg : only_last_stops g = true)
    by (destruct g; [ reflexivity | cbn [only_last_stops] in Hs;
                                    now apply andb_prop in Hs ]).
  specialize (IH Hg Hq). rewrite IH.
  unfold LLMChat.line_text, to_line. cbn [LLMChat.l_error LLMChat.l_content
                                          LLMChat.l_done].
  unfold quiet_error, has_error, falsy_opt in Hc.
  destruct (c_error c) as [ e | ] eqn:He.
  - destruct (truthy e) eqn:Te; cbn [fst snd].
    + simpl in Hc. destruct (c_content c); [ reflexivity | discriminate ].
    + destruct g as [ | c' g ].
      * destruct (c_done c); reflexivity.
      * cbn [only_last_stops] in Hs. apply andb_prop in Hs. destruct Hs as [Hs _].
        unfold stops, has_error, falsy_opt in Hs. rewrite He, Te in Hs.
        simpl in Hs. rewrite andb_true_r in Hs.
        apply negb_true_iff in Hs. now rewrite Hs.
  - cbn [truthy fst snd]. destruct g as [ | c' g ].
    + destruct (c_done c); reflexivity.
    + cbn [only_last_stops] in Hs. apply andb_prop in Hs. destruct Hs as [Hs _].
      unfold stops, has_error, falsy_opt in Hs. rewrite He in Hs.
      simpl in Hs. rewrite andb_true_r in Hs.
      apply negb_true_iff in Hs. now rewrite Hs.
Qed.

Lemma received_wire (groups : list (list LLMStreamChunk)) :
  only_last_stops (List.concat groups) = true ->
  forallb quiet_error (List.concat groups) = true ->
  LLMChat.received (wire groups) = text_of (List.concat groups).
Proof.
  induction groups as [ | g groups IH ]; [ reflexivity | ].
  cbn [List.concat wire map LLMChat.received]. intros Hs Hq.
  apply only_last_stops_app in Hs. destruct Hs as [Hg Hs].
  rewrite forallb_app in Hq. apply andb_prop in Hq. destruct Hq as [Hqg Hq].
  rewrite text_of_app. fold (wire groups). rewrite IH by assumption.
  now rewrite line_texts_wire by assumption.
Qed.

Lemma content_chunk_is_plain (c : LLMStreamChunk) :
  CustomBackend.is_content_chunk c = true ->
  stops c = false /\ quiet_error c = true.
Proof.
  unfold CustomBackend.is_content_chunk, stops, quiet_error, has_error.
  destruct (c_done c), (c_error c), (truthy (c_content c)); simpl;
    try discriminate; now split.
Qed.

(** Content chunks with at most one chunk behind them. *)
Lemma content_then_tail (body tail : list LLMStreamChunk) :
  forallb CustomBackend.is_content_chunk body = true ->
  List.length tail <= 1 ->
  forallb quiet_error tail = true ->
  only_last_stops (body ++ tail) = true
  /\ forallb quiet_error (body ++ tail) = true.
Proof.
  intros Hb Ht Hq. induction body as [ | c body IH ].
  - split; [ | exact Hq ]. destruct tail as [ | x [ | y tail ] ];
      [ reflexivity | reflexivity | simpl in Ht; lia ].
  - cbn [forallb] in Hb. apply andb_prop in Hb. destruct Hb as [Hc Hb].
    destruct (IH Hb) as [I1 I2]. destruct (content_chunk_is_plain c Hc) as [S Q].
    split.
    + cbn [app only_last_stops]. destruct (body ++ tail); [ reflexivity | ].
      now rewrite S, I1.
    + cbn [app forallb]. now rewrite Q, I2.
Qed.

Lemma final_is_quiet (final : LLMStreamChunk) :
  c_error final = None \/ c_content final = EmptyString ->
  forallb quiet_error [final] = true.
Proof.
  intro H. cbn [forallb]. rewrite andb_true_r.
  unfold quiet_error, has_error, falsy_opt.
  destruct H as [H | H]; rewrite H; simpl.
  - reflexivity.
  - now rewrite orb_true_r.
Qed.

(** What a streamed response carries. *)
Lemma streamed_chunks (ys : list LLMStreamChunk) (thrown : option JsError) :
  (forallb CustomBackend.is_content_chunk ys = true
   \/ exists body final,
        ys = body ++ [final]
        /\ forallb CustomBackend.is_content_chunk body = true
        /\ c_done final = true
        /\ (c_error final = None \/ c_content final = EmptyString)) ->
  only_last_stops (fst (forward ys thrown)) = true
  /\ forallb quiet_error (fst (forward ys thrown)) = true.
Proof.
  intros [H | [body [final [-> [Hb [Hd Hf]]]]]].
  - rewrite forward_unended by exact H. destruct thrown as [ e | ]; cbn [fst].
    + apply content_then_tail; [ exact H | simpl; lia | ].
      apply final_is_quiet. now right.
    + rewrite <- (app_nil_r ys).
      apply content_then_tail; [ exact H | simpl; lia | reflexivity ].
  - rewrite forward_ended by assumption. cbn [fst].
    apply content_then_tail; [ exact Hb | simpl; lia | now apply final_is_quiet ].
Qed.

Lemma error_body (text : string) :
  only_last_stops [mkChunk EmptyString true (Some text)] = true
  /\ forallb quiet_error [mkChunk EmptyString true (Some text)] = true.
Proof. split; [ reflexivity | apply final_is_quiet; now right ]. Qed.

Lemma response_chunks
  (JSON_parse : string -> option CustomBackend.SSEEvent)
  (backend : string -> CustomBackend.backend_response)
  (openai : OpenAIStream.sdk_response)
  (env : environment) (request : request_body) :
  only_last_stops (sent (POST JSON_parse backend openai env request)) = true
  /\ forallb quiet_error (sent (POST JSON_parse backend openai env request)) = true.
Proof.
  unfold POST. destruct request as [ e | message history ];
    [ apply error_body | ].
  destruct (createLLMAdapterFromEnv env) as [ [ url prompt | k b m o ] | e ];
    [ | | apply error_body ].
  - cbn [adapter_stream].
    pose proof (custom_stream_shape JSON_parse backend
                  (prepareMessagesForLLM (ChatRoute.LLM_SYSTEM_PROMPT env)
                                         message history)) as H.
    destruct (CustomBackend.stream JSON_parse backend _) as [ys thrown].
    cbn [fst snd] in H.
    pose proof (@streamed_chunks ys thrown) as S.
    destruct (forward ys thrown) as [out cl]. cbn [fst sent] in *.
    apply S. destruct thrown; [ left; apply H | right; exact H ].
  - cbn [adapter_stream]. unfold OpenAIStream.stream.
    destruct openai as [ f | chunks ie ]; [ apply error_body | ].
    pose proof (for_chunks_shape chunks ie) as H.
    destruct (OpenAIStream.for_chunks chunks ie) as [ys thrown].
    cbn [fst snd] in H.
    pose proof (@streamed_chunks ys (option_map OpenAIStream.wrap thrown)) as S.
    destruct (forward ys (option_map OpenAIStream.wrap thrown)) as [out cl].
    cbn [fst sent] in *. apply S.
    destruct H as [ [_ [_ H]] | [_ [_ [body [final [E [Hb [Hd Hc]]]]]]] ].
    + now left.
    + right. exists body, final. repeat split; auto.
Qed.

(** X8.  The text reaches the client unchanged: however the lines of a
    chat response are grouped into reads, the text the relay of [sendToLLM]
    accumulates is the concatenation of the [content] fields of the chunks
    the route forwarded, for every adapter and every answer of the
    backend. *)
Theorem client_accumulates_the_forwarded_text
  (JSON_parse : string -> option CustomBackend.SSEEvent)
  (backend : string -> CustomBackend.backend_response)
  (openai : OpenAIStream.sdk_response)
  (env : environment) (request : request_body)
  (groups : list (list LLMStreamChunk)) :
  List.concat groups = sent (POST JSON_parse backend openai env request) ->
  LLMChat.received (wire groups)
  = text_of (sent (POST JSON_parse backend openai env request)).
Proof.
  intro H.
  destruct (response_chunks JSON_parse backend openai env request) as [Hs Hq].
  rewrite <- H in *. now apply received_wire.
Qed.

Lemma client_accumulates_the_forwarded_text_witness :
  let response :=
    POST CustomBackend.sample_parse
         (fun _ => CustomBackend.Streaming CustomBackend.sample_reads None)
         (OpenAIStream.CreateStreams [] None)
         sample_environment (Body "Hi" []) in
  LLMChat.received
    (wire [ [mkChunk "Hello world. " false None];
            [mkChunk "How are you?" false None; mkChunk EmptyString true None] ])
  = text_of (sent response).
Proof.
  apply (@client_accumulates_the_forwarded_text
           CustomBackend.sample_parse
           (fun _ => CustomBackend.Streaming CustomBackend.sample_reads None)
           (OpenAIStream.CreateStreams [] None)
           sample_environment (Body "Hi" [])
           [ [mkChunk "Hello world. " false None];
             [mkChunk "How are you?" false None; mkChunk EmptyString true None] ]).
  reflexivity.
Defined.

End WireFacts.

(* ===================================================================== *)
(** * Properties of a turn as a whole *)
(* ===================================================================== *)

Module TrimFacts.

Import Js.

Lemma trimStart_head (c : ascii) (s : string) :
  is_space c = false -> trimStart (String c s) = String c s.
Proof. intro H. simpl. now rewrite H. Qed.

(** [trimStart] leaves the empty string or a string that starts with a
    character that is not white space. *)
Lemma trimStart_cases (s : string) :
  trimStart s = EmptyString
  \/ exists c rest, trimStart s = String c rest /\ is_space c = false.
Proof.
  induction s as [ | c s IH ]; [ now left | ].
  simpl. destruct (is_space c) eqn:H; [ exact IH | ].
  right. now exists c, s.
Qed.

Lemma trimEnd_head (c : ascii) (s : string) :
  is_space c = false -> exists rest, trimEnd (String c s) = String c rest.
Proof.
  intro H. simpl. destruct (trimEnd s); [ | now eexists ].
  rewrite H. now eexists.
Qed.

Lemma trimEnd_cons (c : ascii) (s : string) :
  trimEnd (String c s)
  = match trimEnd s with
    | EmptyString => if is_space c then EmptyString else String c EmptyString
    | kept => String c kept
    end.
Proof. reflexivity. Qed.

Lemma trimEnd_idempotent (s : string) : trimEnd (trimEnd s) = trimEnd s.
Proof.
  induction s as [ | c s IH ]; [ reflexivity | ].
  rewrite trimEnd_cons. destruct (trimEnd s) as [ | d kept ] eqn:E.
  - destruct (is_space c) eqn:H; [ reflexivity | ]. simpl. now rewrite H.
  - rewrite trimEnd_cons, IH. reflexivity.
Qed.

(** [trim] is idempotent. *)
Lemma trim_idempotent (s : string) : trim (trim s) = trim s.
Proof.
  unfold trim. destruct (trimStart_cases s) as [ -> | [c [rest [-> H]]] ];
    [ reflexivity | ].
  destruct (@trimEnd_head c rest H) as [rest' E]. rewrite E.
  rewrite trimStart_head by exact H. rewrite <- E. apply trimEnd_idempotent.
Qed.

Lemma length_truthy (s : string) :
  (0 <? String.length s) = true -> truthy s = true.
Proof. destruct s; [ discriminate | reflexivity ]. Qed.

End TrimFacts.

Module TurnOutcomeFacts.

Import Eff LLMChat Js StringFacts DispatchFacts RelayFacts RetryFacts TurnFacts
       TurnEvents TrimFacts.

(** ** The batches *)

Lemma next_batch_is_batch (buf t r : string) :
  next_batch buf = Some (t, r) -> is_batch t.
Proof.
  unfold next_batch. cbv zeta.
  destruct ((0 <? lastSentenceEnd buf)%Z
            || (MAX_BUFFER_LENGTH <? String.length buf)); [ | discriminate ].
  destruct (0 <? lastSentenceEnd buf)%Z.
  - destruct (0 <? String.length (trim _)) eqn:L; [ | discriminate ].
    intro H. injection H as <- _.
    split; [ now apply length_truthy | apply trim_idempotent ].
  - destruct (0 <? String.length (trim buf)) eqn:L; [ | discriminate ].
    intro H. injection H as <- _.
    split; [ now apply length_truthy | apply trim_idempotent ].
Qed.

Section Batches.

Variable Q : event -> bool.
Hypothesis Q_delay : Q (Sleep CHUNK_DELAY_MS) = true.
Hypothesis Q_response : forall s, Q (SetCurrentLLMResponse s) = true.
Variable send : string -> M world unit.
Hypothesis send_ok : tame_on_batches Q send.

Lemma on_content_batches st content w :
  exists buf w',
    on_content send st content w
    = (Returned (mkRelay (accumulatedResponse st ++ content)%string buf), w')
    /\ grows Q w w'.
Proof.
  unfold on_content, bind, emit, modify, sleep.
  set (w1 := record (SetCurrentLLMResponse (accumulatedResponse st ++ content)) w).
  assert (G1 : grows Q w w1) by (apply grows_record, Q_response).
  destruct (next_batch (sentenceBuffer st ++ content)) as [ [t r] | ] eqn:B.
  - destruct (send_ok w1 (next_batch_is_batch _ B)) as [w2 [Hs G2]]. rewrite Hs.
    eexists. eexists. split; [ reflexivity | ].
    eapply grows_trans; [ exact G1 | ].
    eapply grows_trans; [ exact G2 | ].
    apply grows_record, Q_delay.
  - eexists. eexists. split; [ reflexivity | exact G1 ].
Qed.

Lemma process_line_batches st line w :
  exists buf w',
    process_line send st line w
    = (Returned (mkRelay (accumulatedResponse st ++ fst (line_text line))%string
                         buf,
                 snd (line_text line)), w')
    /\ grows Q w w'.
Proof.
  unfold process_line, try_catch, bind, json_parse.
  destruct line as [ data | ]; simpl.
  - destruct (truthy (l_error data)); simpl.
    + exists (sentenceBuffer st), w. rewrite append_nil_r.
      destruct st. split; [ reflexivity | apply grows_refl ].
    + destruct (truthy (l_content data)) eqn:Hc.
      * destruct (on_content_batches st (l_content data) w) as [buf [w' [Hrun G]]].
        rewrite Hrun. exists buf, w'. now split.
      * destruct (l_content data); [ | discriminate ].
        exists (sentenceBuffer st), w. rewrite append_nil_r.
        destruct st. split; [ reflexivity | apply grows_refl ].
  - exists (sentenceBuffer st), w. rewrite append_nil_r.
    destruct st. split; [ reflexivity | apply grows_refl ].
Qed.

Lemma process_lines_batches lines :
  forall st w,
    exists buf w',
      process_lines send st lines w
      = (Returned (mkRelay (accumulatedResponse st ++ line_texts lines)%string
                           buf), w')
      /\ grows Q w w'.
Proof.
  induction lines as [ | line rest IH ]; intros st w.
  - exists (sentenceBuffer st), w. simpl. rewrite append_nil_r.
    destruct st. split; [ reflexivity | apply grows_refl ].
  - rewrite line_texts_cons.
    destruct (process_line_batches st line w) as [buf [w1 [Hrun G1]]].
    simpl. unfold bind. rewrite Hrun. simpl.
    destruct (snd (line_text line)).
    + exists buf, w1. rewrite append_nil_r. now split.
    + destruct (IH (mkRelay (accumulatedResponse st ++ fst (line_text line)) buf)
                   w1) as [buf' [w2 [Hrest G2]]].
      rewrite Hrest. simpl. rewrite append_assoc.
      exists buf', w2. split; [ reflexivity | ].
      eapply grows_trans; eassumption.
Qed.

Lemma flush_batches st w :
  exists buf w',
    flush send st w = (Returned (mkRelay (accumulatedResponse st) buf), w')
    /\ grows Q w w'.
Proof.
  unfold flush, bind.
  destruct (0 <? String.length (trim (sentenceBuffer st))) eqn:L.
  - assert (B : is_batch (trim (sentenceBuffer st)))
      by (split; [ now apply length_truthy | apply trim_idempotent ]).
    destruct (send_ok w B) as [w' [Hs G]].
    rewrite Hs. eexists. eexists. split; [ reflexivity | exact G ].
  - exists (sentenceBuffer st), w. destruct st.
    split; [ reflexivity | apply grows_refl ].
Qed.

Lemma read_loop_batches values read_error :
  forall st w,
    exists buf w',
      read_loop send values read_error st w
      = (match read_error with
         | None =>
             Returned (mkRelay (accumulatedResponse st ++ received values)%string
                               buf)
         | Some e => Thrown e
         end, w')
      /\ grows Q w w'.
Proof.
  induction values as [ | value rest IH ]; intros st w; simpl.
  - destruct read_error as [ e | ].
    + exists EmptyString, w. split; [ reflexivity | apply grows_refl ].
    + rewrite append_nil_r. apply flush_batches.
  - unfold bind.
    destruct (process_lines_batches value st w) as [buf [w1 [Hrun G1]]].
    rewrite Hrun.
    destruct (IH (mkRelay (accumulatedResponse st ++ line_texts value) buf) w1)
      as [buf' [w2 [Hrest G2]]].
    rewrite Hrest. simpl. rewrite append_assoc.
    exists buf', w2. split; [ reflexivity | ].
    eapply grows_trans; eassumption.
Qed.

End Batches.

(** ** What the events of the relay leave alone *)

Lemma relay_turn_events (userMessage : string) (added : list event) :
  forallb (relay_turn_event userMessage) added = true ->
  forallb (turn_event userMessage) added = true
  /\ history_added added = []
  /\ speaks added = false
  /\ chat_fetches added = 0.
Proof.
  induction added as [ | e added IH ]; [ now repeat split | ].
  cbn [forallb]. intro H. apply andb_prop in H. destruct H as [He H].
  destruct (IH H) as [I1 [I2 [I3 I4]]].
  unfold relay_turn_event in He. apply andb_prop in He. destruct He as [Hr Ht].
  cbn [forallb]. rewrite Ht, I1.
  destruct e; try discriminate Hr; now repeat split.
Qed.

Lemma speaks_app (a b : list event) : speaks (a ++ b) = speaks a || speaks b.
Proof. apply existsb_app. Qed.

Lemma fallback_is_not_blank (e : JsError) :
  negb (truthy (fallback e)) || String.eqb (trim (fallback e)) EmptyString
  = false.
Proof.
  unfold fallback. destruct (String.eqb (name e) "AbortError");
    vm_compute; reflexivity.
Qed.

Lemma backoff_is_known (attempt : nat) :
  (attempt <? MAX_RETRY_ATTEMPTS) = true ->
  backoff attempt = 1000%Z \/ backoff attempt = 2000%Z.
Proof.
  destruct attempt as [ | [ | [ | attempt ] ] ]; intro H;
    [ now left | now left | now right | discriminate ].
Qed.

Section Turn.

Variable E : env.
Variable userMessage : string.

Lemma dispatch_events :
  tame_on_batches (relay_turn_event userMessage) (sendChunkToAvatar E).
Proof.
  intros text w [Ht Htrim].
  assert (Q : relay_turn_event userMessage (FetchStreamingTask text) = true).
  { unfold relay_turn_event. cbn [relay_event speech_event turn_event orb andb].
    rewrite Ht, Htrim. now rewrite String.eqb_refl. }
  destruct (falsy_opt (sessionId E) || falsy_opt (sessionToken E)) eqn:H.
  - rewrite sendChunkToAvatar_without_session by exact H.
    eexists. split; [ reflexivity | apply grows_refl ].
  - rewrite sendChunkToAvatar_with_session by exact H.
    eexists. split; [ reflexivity | ].
    destruct (retried (tts E (tts_requests w))).
    + split; [ reflexivity | ].
      exists [FetchStreamingTask text; Sleep CHUNK_RETRY_DELAY;
              FetchStreamingTask text].
      split; [ simpl; now rewrite <- !app_assoc | ].
      cbn [forallb]. rewrite Q. reflexivity.
    + split; [ reflexivity | ]. exists [FetchStreamingTask text].
      split; [ reflexivity | ]. cbn [forallb]. now rewrite Q.
Qed.

(** One attempt: the request, the events of the relay, and then either an
    error or the answer added to the history. *)
Lemma attempt_ends (w : world) :
  exists w1,
    grows (relay_turn_event userMessage) (asked userMessage w) w1
    /\ ((exists e, attempt_body E userMessage w = (Thrown e, w1))
        \/ (exists text,
               trim text <> EmptyString
               /\ attempt_body E userMessage w
                  = (Returned (mkResponse true (Some text) None),
                     record (AddTextMessage AVATAR text) w1))).
Proof.
  unfold attempt_body, bind, fetch_chat. cbv zeta. fold (asked userMessage w).
  destruct (llm E (S (chat_requests w))) as [ e | status statusText body ].
  - eexists. split; [ apply grows_refl | left; now eexists ].
  - cbv iota beta. destruct (status_ok status); cbn [negb]; cbv iota beta.
    + destruct body as [ stream | ].
      * destruct (@read_loop_batches (relay_turn_event userMessage)
                    eq_refl (fun _ => eq_refl) (sendChunkToAvatar E)
                    dispatch_events (chunks stream) (read_error stream)
                    (mkRelay EmptyString EmptyString) (asked userMessage w))
          as [buf [w1 [Hrun G]]].
        rewrite Hrun. exists w1. split; [ exact G | ].
        destruct (read_error stream) as [ e | ]; [ left; now eexists | ].
        cbv iota beta. cbn [accumulatedResponse].
        destruct (negb (truthy _) || String.eqb _ _) eqn:B.
        -- left. now eexists.
        -- right. eexists. split; [ | reflexivity ].
           apply orb_false_elim in B. destruct B as [_ B].
           now apply String.eqb_neq.
      * eexists. split; [ apply grows_refl | left; now eexists ].
    + eexists. split; [ apply grows_refl | left; now eexists ].
Qed.

(** The code after the loop: the error is set, the response is cleared,
    and the apology is spoken when the avatar is connected. *)
Lemma after_loop_ends (e : JsError) (w : world) :
  exists w',
    after_loop E (Some e) w
    = (Returned (mkResponse false None (Some (reported e))), w')
    /\ trace w'
       = trace w
           ++ [SetLLMError (Some (reported e)); SetCurrentLLMResponse EmptyString]
           ++ (if can_speak E then [Speak (fallback e)] else []).
Proof.
  unfold after_loop. cbv zeta. fold (reported e). fold (fallback e).
  unfold bind, emit, modify, try_catch, sendMessage.
  rewrite fallback_is_not_blank. unfold can_speak.
  destruct (avatar_present E); cbn [negb andb].
  - destruct (state_eqb (sessionState E) CONNECTED); cbn [negb].
    + unfold bind, emit, modify.
      destruct (speak_error E); eexists; (split; [ reflexivity | ]);
        cbn [record trace]; now rewrite <- !app_assoc.
    + eexists. split; [ reflexivity | ].
      cbn [record trace]. now rewrite <- !app_assoc.
  - eexists. split; [ reflexivity | ].
    cbn [record trace]. now rewrite <- !app_assoc.
Qed.

Lemma succeeded_later (r : LLMChatResponse) (pre added : list event) :
  history_added pre = [] -> speaks pre = false ->
  succeeded r added -> succeeded r (pre ++ added).
Proof.
  intros Hh Hs [text [Hr [Ht [before [Ha [Hb Hsp]]]]]].
  exists text. split; [ exact Hr | ]. split; [ exact Ht | ].
  exists (pre ++ before). split; [ now rewrite Ha, app_assoc | ].
  split; [ now rewrite history_added_app, Hh, Hb | ].
  now rewrite speaks_app, Hs, Hsp.
Qed.

Lemma failed_later (r : LLMChatResponse) (pre added : list event) :
  history_added pre = [] -> speaks pre = false ->
  failed E r added -> failed E r (pre ++ added).
Proof.
  intros Hh Hs [e [before [Hr [Ha [Hb Hsp]]]]].
  exists e, (pre ++ before). split; [ exact Hr | ].
  split; [ now rewrite Ha, app_assoc | ].
  split; [ now rewrite history_added_app, Hh, Hb | ].
  now rewrite speaks_app, Hs, Hsp.
Qed.

Lemma turn_event_fallback (e : JsError) :
  turn_event userMessage (Speak (fallback e)) = true.
Proof.
  unfold fallback. cbn [turn_event].
  destruct (String.eqb (name e) "AbortError");
    rewrite String.eqb_refl; [ reflexivity | apply orb_true_r ].
Qed.

Lemma ending_events (e : JsError) :
  forallb (turn_event userMessage)
    ([SetLLMError (Some (reported e)); SetCurrentLLMResponse EmptyString]
       ++ (if can_speak E then [Speak (fallback e)] else [])) = true
  /\ chat_fetches
       ([SetLLMError (Some (reported e)); SetCurrentLLMResponse EmptyString]
          ++ (if can_speak E then [Speak (fallback e)] else [])) = 0.
Proof.
  destruct (can_speak E); split; try reflexivity.
  cbn [app forallb]. now rewrite turn_event_fallback.
Qed.

(** The retry loop: it returns; what it adds are events of the turn, with
    at most one request per attempt; and it ends in one of two ways. *)
Lemma attempt_loop_ends (attempts : list nat) :
  forall lastError w,
    attempts <> [] \/ lastError <> None ->
    exists r w' added,
      attempt_loop E userMessage attempts lastError w = (Returned r, w')
      /\ trace w' = trace w ++ added
      /\ forallb (turn_event userMessage) added = true
      /\ chat_fetches added <= List.length attempts
      /\ (succeeded r added \/ failed E r added).
Proof.
  induction attempts as [ | attempt rest IH ]; intros lastError w Hne.
  - destruct lastError as [ e | ]; [ | destruct Hne as [H | H]; now contradiction H ].
    destruct (after_loop_ends e w) as [w' [Hrun T]].
    eexists. exists w'. eexists. split; [ exact Hrun | ].
    destruct (ending_events e) as [Qe Ce].
    split; [ exact T | ]. split; [ exact Qe | ].
    split; [ rewrite Ce; cbn [List.length]; lia | ].
    right. exists e, []. now repeat split.
  - destruct (attempt_ends w) as [w1 [[_ [a1 [T1 F1]]] Hbody]].
    destruct (@relay_turn_events userMessage a1 F1) as [Q1 [H1 [S1 C1]]].
    cbn [asked trace] in T1.
    assert (Hreq : turn_event userMessage (FetchChat userMessage) = true)
      by apply String.eqb_refl.
    cbn [attempt_loop].
    destruct Hbody as [ [e Hrun] | [text [Htext Hrun]] ]; rewrite Hrun.
    + destruct (isRetryableError e && (attempt <? MAX_RETRY_ATTEMPTS)) eqn:R.
      * apply andb_prop in R. destruct R as [_ R].
        unfold bind, sleep, emit, modify.
        destruct (IH (Some e) (record (Sleep (backoff attempt)) w1))
          as [r [w2 [added [Hrest [T2 [Q2 [C2 O2]]]]]]];
          [ right; discriminate | ].
        exists r, w2, (FetchChat userMessage :: a1
                         ++ Sleep (backoff attempt) :: added).
        split; [ exact Hrest | ].
        split.
        { rewrite T2. cbn [record trace]. rewrite T1.
          now rewrite <- !app_assoc. }
        split.
        { cbn [forallb]. rewrite Hreq, forallb_app, Q1. cbn [forallb].
          rewrite Q2, andb_true_r. cbn [turn_event andb].
          destruct (backoff_is_known attempt R) as [-> | ->]; reflexivity. }
        split.
        { change (FetchChat userMessage :: a1 ++ Sleep (backoff attempt) :: added)
            with ([FetchChat userMessage]
                    ++ a1 ++ [Sleep (backoff attempt)] ++ added).
          rewrite !chat_fetches_app, C1.
          change (chat_fetches [FetchChat userMessage]) with 1.
          change (chat_fetches [Sleep (backoff attempt)]) with 0.
          cbn [List.length]. lia. }
        assert (Hpre : history_added
                         (FetchChat userMessage :: a1 ++ [Sleep (backoff attempt)])
                       = []
                       /\ speaks (FetchChat userMessage
                                    :: a1 ++ [Sleep (backoff attempt)]) = false).
        { cbn [history_added]. rewrite history_added_app, H1.
          change (speaks (FetchChat userMessage :: a1 ++ [Sleep (backoff attempt)]))
            with (speaks (a1 ++ [Sleep (backoff attempt)])).
          rewrite speaks_app, S1. now split. }
        destruct Hpre as [Hh Hs].
        replace (FetchChat userMessage :: a1 ++ Sleep (backoff attempt) :: added)
          with ((FetchChat userMessage :: a1 ++ [Sleep (backoff attempt)])
                  ++ added)
          by (cbn [app]; now rewrite <- app_assoc).
        destruct O2 as [O2 | O2];
          [ left; now apply succeeded_later | right; now apply failed_later ].
      * destruct (after_loop_ends e w1) as [w2 [Hafter T2]].
        eexists. exists w2. eexists. split; [ exact Hafter | ].
        split.
        { rewrite T2, T1. rewrite <- !app_assoc. reflexivity. }
        destruct (ending_events e) as [Qe Ce].
        split.
        { rewrite (forallb_app _ [FetchChat userMessage]), (forallb_app _ a1).
          rewrite Q1, Qe. cbn [forallb]. now rewrite Hreq. }
        split.
        { rewrite (chat_fetches_app [FetchChat userMessage]), (chat_fetches_app a1).
          rewrite C1, Ce.
          change (chat_fetches [FetchChat userMessage]) with 1.
          cbn [List.length]. lia. }
        right. exists e, ([FetchChat userMessage] ++ a1).
        split; [ reflexivity | ]. split; [ now rewrite <- !app_assoc | ].
        split; [ exact H1 | exact S1 ].
    + eexists. eexists. exists (FetchChat userMessage :: a1
                                  ++ [AddTextMessage AVATAR text]).
      split; [ reflexivity | ].
      split.
      { cbn [record trace]. rewrite T1. now rewrite <- !app_assoc. }
      split.
      { cbn [forallb]. rewrite Hreq, forallb_app, Q1. cbn [forallb turn_event].
        apply String.eqb_neq in Htext. now rewrite Htext. }
      split.
      { change (FetchChat userMessage :: a1 ++ [AddTextMessage AVATAR text])
          with ([FetchChat userMessage] ++ a1 ++ [AddTextMessage AVATAR text]).
        rewrite !chat_fetches_app, C1.
        change (chat_fetches [FetchChat userMessage]) with 1.
        change (chat_fetches [AddTextMessage AVATAR text]) with 0.
        cbn [List.length]. lia. }
      left. exists text. split; [ reflexivity | ]. split; [ exact Htext | ].
      exists (FetchChat userMessage :: a1). split; [ reflexivity | ].
      split; [ exact H1 | exact S1 ].
Qed.

End Turn.

End TurnOutcomeFacts.

Module TurnGuarantees.

Import Eff LLMChat Js StringFacts DispatchFacts RelayFacts RetryFacts TurnFacts
       TurnEvents TurnOutcomeFacts.

(** X9.  [sendToLLM] returns on every input and never throws.  Its trace
    is the opening events, then the events of at most three attempts, then
    the two closing events that release the processing flag and the
    suppression of avatar events.  It ends in one of two ways: with
    success, the answer being the last event before the closing ones, added
    to the history once; or with failure, the error being set and the
    apology spoken through the SDK exactly when an avatar is present and
    the session is connected.  In both cases nothing else reaches the
    history or the SDK's [speak]. *)
Theorem every_turn_ends (E : env) (userMessage : string) (skip : bool)
  (w : world) :
  exists r w' middle,
    sendToLLM E userMessage skip w = (Returned r, w')
    /\ trace w' = trace w ++ opening userMessage skip ++ middle ++ closing
    /\ chat_fetches middle <= 3
    /\ (succeeded r middle \/ failed E r middle).
Proof.
  rewrite sendToLLM_unfold.
  destruct (@attempt_loop_ends E userMessage (seq 1 MAX_RETRY_ATTEMPTS) None
              (opened userMessage skip w))
    as [r [w' [middle [Hrun [T [_ [C O]]]]]]]; [ left; discriminate | ].
  rewrite Hrun. exists r. eexists. exists middle.
  split; [ reflexivity | ]. split; [ | split; [ exact C | exact O ] ].
  cbn [trace]. rewrite T. cbn [opened trace]. now rewrite <- !app_assoc.
Qed.

(** X10.  Every event a turn adds to the trace is one of these: a request
    to [/api/chat] for the user's message; a speech request whose text is
    not empty and is trimmed; a pause of 500, 800, 1000 or 2000 ms (never
    the 4000 ms of the third back-off step); a call of the SDK's [speak]
    with one of the two apologies; the user's message or a non-blank
    answer added to the history; or a state setter. *)
Theorem turn_events_are_known (E : env) (userMessage : string) (skip : bool)
  (w : world) :
  exists r w' added,
    sendToLLM E userMessage skip w = (Returned r, w')
    /\ trace w' = trace w ++ added
    /\ forallb (turn_event userMessage) added = true.
Proof.
  rewrite sendToLLM_unfold.
  destruct (@attempt_loop_ends E userMessage (seq 1 MAX_RETRY_ATTEMPTS) None
              (opened userMessage skip w))
    as [r [w' [middle [Hrun [T [Q _]]]]]]; [ left; discriminate | ].
  rewrite Hrun. exists r. eexists.
  exists (opening userMessage skip ++ middle ++ closing).
  split; [ reflexivity | ]. split.
  - cbn [trace]. rewrite T. cbn [opened trace]. now rewrite <- !app_assoc.
  - rewrite !forallb_app, Q.
    destruct skip; cbn [opening app forallb turn_event closing andb];
      [ reflexivity | now rewrite String.eqb_refl ].
Qed.

(** X11.  Whether a response that is not [ok] is retried depends on its
    status alone, as long as the status text names neither "Failed to
    fetch" nor "network": the error is retryable exactly for the statuses
    500 to 599. *)
Theorem failed_response_is_classified_by_status (status : nat)
  (statusText : string) :
  100 <= status < 1000 ->
  includes "Failed to fetch" statusText = false ->
  includes "network" statusText = false ->
  isRetryableError (Error (failure_message status statusText))
  = (500 <=? status) && (status <? 600).
Proof.
  intros [Hlo Hhi] HF HN. unfold isRetryableError. simpl name. simpl message.
  change (String.eqb "Error" "AbortError") with false. cbv iota.
  rewrite (@includes_failure_message "F" "ailed to fetch" status statusText
             eq_refl eq_refl Hhi).
  rewrite (@includes_failure_message "n" "etwork" status statusText
             eq_refl eq_refl Hhi).
  rewrite HF, HN. cbv iota. simpl orb. cbv iota.
  now rewrite failure_message_status by exact Hhi.
Qed.

Lemma failed_response_is_classified_by_status_witness :
  isRetryableError (Error (failure_message 404 "Not Found"))
  = (500 <=? 404) && (404 <? 600).
Proof.
  apply (@failed_response_is_classified_by_status 404 "Not Found");
    [ lia | reflexivity | reflexivity ].
Defined.

(** An attempt whose stream carries no text throws, after the events of
    the relay. *)
Lemma attempt_empty (E : env) (userMessage : string) (w : world)
  (status : nat) (statusText : string) (values : list net_chunk) :
  llm E (S (chat_requests w))
  = LlmResponse status statusText (Some (mkBody values None)) ->
  status_ok status = true ->
  trim (received values) = EmptyString ->
  exists w1,
    grows relay_event (asked userMessage w) w1
    /\ attempt_body E userMessage w
       = (Thrown (Error "LLM returned an empty response"), w1).
Proof.
  intros Hllm Hok Htext. unfold attempt_body, bind, fetch_chat.
  rewrite Hllm, Hok. cbn [negb chunks read_error].
  fold (asked userMessage w).
  destruct (@read_loop_runs relay_event pause_is_relay_event
              (sendChunkToAvatar E) (sendChunkToAvatar_relay E) values None
              (mkRelay EmptyString EmptyString) (asked userMessage w))
    as [buf [w1 [Hrun G]]].
  cbn [accumulatedResponse String.append] in Hrun. rewrite Hrun.
  cbn [accumulatedResponse]. rewrite Htext. cbn [String.eqb].
  rewrite orb_true_r. exists w1. split; [ exact G | reflexivity ].
Qed.

(** X12.  A stream that ends without any text (blank content, lines that
    do not parse, or lines that carry an error) ends the turn at the first
    attempt: the error "LLM returned an empty response" is not retryable,
    so one request is sent, the error is set and the apology is spoken if
    the avatar is connected.  What an error line of the stream said is not
    reported. *)
Theorem empty_answer_is_not_retried (E : env) (userMessage : string)
  (skip : bool) (w : world) (status : nat) (statusText : string)
  (values : list net_chunk) :
  llm E (S (chat_requests w))
  = LlmResponse status statusText (Some (mkBody values None)) ->
  status_ok status = true ->
  trim (received values) = EmptyString ->
  exists relay w',
    sendToLLM E userMessage skip w
    = (Returned (mkResponse false None (Some "LLM returned an empty response")),
       w')
    /\ trace w'
       = trace w ++ opening userMessage skip
           ++ [FetchChat userMessage] ++ relay
           ++ [SetLLMError (Some "LLM returned an empty response");
               SetCurrentLLMResponse EmptyString]
           ++ (if can_speak E then [Speak error_fallback] else [])
           ++ closing
    /\ forallb relay_event relay = true
    /\ chat_fetches (trace w') = chat_fetches (trace w) + 1.
Proof.
  intros Hllm Hok Htext. rewrite sendToLLM_unfold.
  destruct (@attempt_empty E userMessage (opened userMessage skip w)
              status statusText values Hllm Hok Htext)
    as [w1 [[_ [relay [T1 F1]]] Hrun]].
  destruct (@after_loop_ends E (Error "LLM returned an empty response") w1)
    as [w2 [Hafter T2]].
  change (seq 1 MAX_RETRY_ATTEMPTS) with [1; 2; 3].
  cbn [attempt_loop]. rewrite Hrun.
  change (isRetryableError (Error "LLM returned an empty response")) with false.
  cbn [andb]. rewrite Hafter.
  exists relay. eexists. split; [ reflexivity | ].
  assert (T : trace w2 ++ closing
              = trace w ++ opening userMessage skip
                  ++ [FetchChat userMessage] ++ relay
                  ++ [SetLLMError (Some "LLM returned an empty response");
                      SetCurrentLLMResponse EmptyString]
                  ++ (if can_speak E then [Speak error_fallback] else [])
                  ++ closing).
  { rewrite T2, T1. cbn [asked opened trace].
    change (reported (Error "LLM returned an empty response"))
      with "LLM returned an empty response".
    change (fallback (Error "LLM returned an empty response"))
      with error_fallback.
    now rewrite <- !app_assoc. }
  cbn [trace]. split; [ exact T | ]. split; [ exact F1 | ].
  rewrite T, !chat_fetches_app.
  assert (chat_fetches relay = 0).
  { apply no_chat_fetches. rewrite forallb_forall in *. intros x Hx.
    apply relay_event_no_chat_fetch. now apply F1. }
  assert (chat_fetches (opening userMessage skip) = 0) by now destruct skip.
  assert (chat_fetches (if can_speak E then [Speak error_fallback] else []) = 0)
    by now destruct (can_speak E).
  change (chat_fetches [FetchChat userMessage]) with 1.
  change (chat_fetches closing) with 0.
  change (chat_fetches [SetLLMError (Some "LLM returned an empty response");
                        SetCurrentLLMResponse EmptyString]) with 0.
  lia.
Qed.

Lemma empty_answer_is_not_retried_witness :
  exists relay w',
    sendToLLM Samples.error_line_env "Hi" false world0
    = (Returned (mkResponse false None (Some "LLM returned an empty response")),
       w')
    /\ trace w'
       = trace world0 ++ opening "Hi" false
           ++ [FetchChat "Hi"] ++ relay
           ++ [SetLLMError (Some "LLM returned an empty response");
               SetCurrentLLMResponse EmptyString]
           ++ (if can_speak Samples.error_line_env then [Speak error_fallback]
               else [])
           ++ closing
    /\ forallb relay_event relay = true
    /\ chat_fetches (trace w') = chat_fetches (trace world0) + 1.
Proof.
  apply (@empty_answer_is_not_retried Samples.error_line_env "Hi" false world0
           200 "OK" [[Some (mkLine "Backend unavailable" EmptyString true)]]);
    reflexivity.
Defined.

End TurnGuarantees.

(* ===================================================================== *)
(** * Properties of session starts and stops *)
(* ===================================================================== *)

Module SessionRunFacts.

Import Eff Session SessionRuns SessionFacts.

(** ** The paths of [startSessionV2] *)

Lemma gate_run (inp : inputs) (w : world) :
  snd (quota_gate inp w) = after_gate inp w
  /\ (gate_throws inp = false ->
      fst (quota_gate inp w) = Returned (gate_passes inp))
  /\ (gate_throws inp = true -> exists e, fst (quota_gate inp w) = Thrown e).
Proof.
  unfold quota_gate, after_gate, gate_effects, gate_throws, gate_passes,
    bind, modify, throw, ret.
  destruct (quota inp) as [ e | [ | ] [ q | ] ]; cbn [fold_left fst snd].
  - split; [ reflexivity | ]. split; [ discriminate | now eexists ].
  - destruct (credits q =? 0)%Z; [ now repeat split | ].
    destruct (credits q <? 2)%Z; now repeat split.
  - split; [ reflexivity | ]. split; [ discriminate | now eexists ].
  - now repeat split.
  - now repeat split.
Qed.

Lemma clean_up_run (e : JsError) (w : world) :
  clean_up_on_error e w = (Returned tt, cleaned_up w).
Proof.
  unfold clean_up_on_error, cleaned_up, bind, modify, gets, when, ret.
  cbn [streamReadyTimeoutRef setShouldStartVoiceChat].
  destruct (streamReadyTimeoutRef w); reflexivity.
Qed.

Lemma start_logic_without_token (inp : inputs) (v : bool) (w : world)
  (e : JsError) :
  token inp = TokenRejects e ->
  session_start_logic inp v w = (Thrown e, perform FetchToken w).
Proof.
  intro H. unfold session_start_logic, fetchAccessToken, bind, modify.
  now rewrite H.
Qed.

Lemma before_start_state (v : bool) (t : string) (w : world) :
  sessionState (before_start v t w) = sessionState w
  /\ avatarRef (before_start v t w)
     = Some (mkAvatar (created w)
               (logging_listeners (mkAvatar (created w) []))).
Proof. now split. Qed.

Lemma start_logic_refused (inp : inputs) (v : bool) (w : world) (t : string) :
  token inp = TokenText t ->
  state_eqb (sessionState w) INACTIVE = false ->
  session_start_logic inp v w
  = (Thrown (Error "There is already an active session"), before_start v t w).
Proof.
  intros H S. unfold session_start_logic, fetchAccessToken, start. rewrite H.
  cbv beta iota delta [bind modify ret gets throw when].
  fold (before_start v t w).
  rewrite (proj1 (before_start_state v t w)), S. reflexivity.
Qed.

Lemma start_logic_run (inp : inputs) (v : bool) (w : world) (t : string) :
  token inp = TokenText t ->
  state_eqb (sessionState w) INACTIVE = true ->
  session_start_logic inp v w
  = match create inp with
    | CreateRejects e =>
        (Thrown (rethrown e), create_called (config inp) (before_start v t w))
    | CreateResolves session_id =>
        (Returned tt,
         with_timeout v
           (with_session_id session_id
              (create_called (config inp) (before_start v t w))))
    end.
Proof.
  intros H S. unfold session_start_logic, fetchAccessToken, start. rewrite H.
  cbv beta iota delta [bind modify ret gets throw when].
  fold (before_start v t w).
  rewrite (proj1 (before_start_state v t w)), S. cbn [negb].
  rewrite (proj2 (before_start_state v t w)). cbv beta iota.
  fold (create_called (config inp) (before_start v t w)).
  destruct (create inp) as [ [ i | ] | e ]; [ | | reflexivity ].
  - unfold with_session_id, with_timeout.
    destruct (Js.truthy i); destruct v; reflexivity.
  - unfold with_session_id, with_timeout. destruct v; reflexivity.
Qed.

(** [startSessionV2] never throws, and leaves the world [world_after]
    describes. *)
Lemma startSessionV2_run (inp : inputs) (v : bool) (w : world) :
  startSessionV2 inp v w = (Returned tt, world_after inp v w).
Proof.
  unfold startSessionV2, try_catch, bind, world_after. cbv zeta.
  destruct (gate_run inp w) as [Hw [Hr He]].
  destruct (quota_gate inp w) as [r w1]. cbn [fst snd] in *. subst w1.
  destruct (gate_throws inp).
  - destruct (He eq_refl) as [e ->]. apply clean_up_run.
  - rewrite (Hr eq_refl). destruct (gate_passes inp); cbn [negb]; [ | reflexivity ].
    destruct (token inp) as [ e | t ] eqn:T.
    + rewrite (@start_logic_without_token inp v (after_gate inp w) e T).
      apply clean_up_run.
    + assert (S : sessionState (after_gate inp w) = sessionState w).
      { unfold after_gate. generalize (gate_effects inp). intro es.
        revert w. induction es as [ | x es IH ]; intro w; [ reflexivity | ].
        cbn [fold_left]. now rewrite IH. }
      destruct (state_eqb (sessionState w) INACTIVE) eqn:St.
      * rewrite (@start_logic_run inp v (after_gate inp w) t T)
          by now rewrite S.
        destruct (create inp); [ reflexivity | apply clean_up_run ].
      * rewrite (@start_logic_refused inp v (after_gate inp w) t T)
          by now rewrite S.
        apply clean_up_run.
Qed.

(** ** What the paths do to the log and to the session state *)

Lemma after_gate_frame (inp : inputs) (w : world) :
  log (after_gate inp w) = log w ++ gate_effects inp
  /\ sessionState (after_gate inp w) = sessionState w
  /\ stream (after_gate inp w) = stream w
  /\ sessionId (after_gate inp w) = sessionId w
  /\ sessionToken (after_gate inp w) = sessionToken w
  /\ avatarRef (after_gate inp w) = avatarRef w
  /\ created (after_gate inp w) = created w
  /\ streamReadyTimeoutRef (after_gate inp w) = streamReadyTimeoutRef w.
Proof.
  unfold after_gate. generalize (gate_effects inp). intro es.
  revert w. induction es as [ | x es IH ]; intro w.
  - cbn [fold_left]. rewrite app_nil_r. now repeat split.
  - cbn [fold_left]. destruct (IH (perform x w)) as [L [S [M [I [T [A [C R]]]]]]].
    rewrite L, S, M, I, T, A, C, R. cbn [log perform]. rewrite <- app_assoc.
    now repeat split.
Qed.

Lemma cleaned_up_frame (w : world) :
  log (cleaned_up w) = log w ++ cleanup_effects w
  /\ sessionState (cleaned_up w) = sessionState w
  /\ stream (cleaned_up w) = stream w
  /\ sessionId (cleaned_up w) = sessionId w
  /\ sessionToken (cleaned_up w) = sessionToken w
  /\ avatarRef (cleaned_up w) = avatarRef w
  /\ shouldStartVoiceChatRef (cleaned_up w) = false
  /\ streamReadyTimeoutRef (cleaned_up w) = false.
Proof.
  unfold cleaned_up, cleanup_effects.
  destruct (streamReadyTimeoutRef w) eqn:R; cbn; rewrite ?app_nil_r;
    now repeat split.
Qed.

Lemma with_avatar_log (f : avatar -> avatar) (w : world) :
  log (with_avatar f w) = log w
  /\ streamReadyTimeoutRef (with_avatar f w) = streamReadyTimeoutRef w.
Proof. unfold with_avatar. destruct (avatarRef w); now split. Qed.

Lemma before_start_frame (v : bool) (t : string) (w : world) :
  log (before_start v t w) = log w ++ [FetchToken]
  /\ streamReadyTimeoutRef (before_start v t w) = streamReadyTimeoutRef w
  /\ stream (before_start v t w) = stream w
  /\ sessionId (before_start v t w) = sessionId w
  /\ sessionToken (before_start v t w) = Some t.
Proof. now repeat split. Qed.

Lemma create_called_frame (c : DeepClean.value) (w : world) :
  log (create_called c w) = log w ++ [CreateStartAvatar (DeepClean.deepClean c)]
  /\ streamReadyTimeoutRef (create_called c w) = streamReadyTimeoutRef w
  /\ sessionState (create_called c w) = CONNECTING
  /\ stream (create_called c w) = stream w
  /\ sessionId (create_called c w) = sessionId w
  /\ sessionToken (create_called c w) = sessionToken w.
Proof.
  unfold create_called. cbn [log perform streamReadyTimeoutRef sessionState
                             stream sessionId sessionToken].
  unfold with_avatar. cbn [avatarRef setSessionState].
  destruct (avatarRef w); now repeat split.
Qed.

Lemma with_session_id_log (i : option string) (w : world) :
  log (with_session_id i w) = log w.
Proof. destruct i as [ i | ]; [ | reflexivity ]. simpl. now destruct (Js.truthy i). Qed.

(** The effects of a run are [effects_of]. *)
Lemma startSessionV2_effects (inp : inputs) (v : bool) (w : world) :
  log (world_after inp v w) = log w ++ effects_of inp v w.
Proof.
  unfold world_after, effects_of. cbv zeta.
  destruct (after_gate_frame inp w) as [L [S [_ [_ [_ [_ [_ R]]]]]]].
  assert (C : forall w', streamReadyTimeoutRef w' = streamReadyTimeoutRef w ->
                         cleanup_effects w' = cleanup_effects w)
    by (intros w' H; unfold cleanup_effects; now rewrite H).
  destruct (gate_throws inp).
  - rewrite (proj1 (cleaned_up_frame _)), L, (C _ R). now rewrite app_assoc.
  - destruct (gate_passes inp); cbn [negb]; [ | now rewrite L, app_nil_r ].
    destruct (token inp) as [ e | t ].
    + rewrite (proj1 (cleaned_up_frame _)). cbn [log perform]. rewrite L.
      rewrite (C (perform FetchToken (after_gate inp w)) R).
      now rewrite <- !app_assoc.
    + destruct (before_start_frame v t (after_gate inp w)) as [Lb [Rb _]].
      destruct (state_eqb (sessionState w) INACTIVE).
      * destruct (create_called_frame (config inp)
                    (before_start v t (after_gate inp w))) as [Lc [Rc _]].
        destruct (create inp) as [ i | e ].
        -- unfold with_timeout. destruct v; cbn [log perform setStreamReadyTimeout];
             rewrite with_session_id_log, Lc, Lb, L; now rewrite <- !app_assoc.
        -- rewrite (proj1 (cleaned_up_frame _)), Lc, Lb, L.
           rewrite (C _ (eq_trans Rc (eq_trans Rb R))).
           now rewrite <- !app_assoc.
      * rewrite (proj1 (cleaned_up_frame _)), Lb, L.
        rewrite (C _ (eq_trans Rb R)). now rewrite <- !app_assoc.
Qed.

Lemma new_effects_app (w w' : world) (added : list effect) :
  log w' = log w ++ added -> new_effects w w' = added.
Proof.
  intro H. unfold new_effects. rewrite H.
  rewrite skipn_app, skipn_all, Nat.sub_diag. reflexivity.
Qed.

Lemma cleanup_creates_nothing (w : world) :
  existsb is_create (cleanup_effects w) = false.
Proof. unfold cleanup_effects. now destruct (streamReadyTimeoutRef w). Qed.

Lemma gate_creates_nothing (inp : inputs) :
  existsb is_create (gate_effects inp) = false.
Proof.
  unfold gate_effects. destruct (quota inp) as [ e | [ | ] [ q | ] ];
    try reflexivity.
  destruct (credits q =? 0)%Z; [ reflexivity | ].
  now destruct (credits q <? 2)%Z.
Qed.

(** A run calls [createStartAvatar] exactly when the gate passes, the token
    request gives a text, and no session is active. *)
Lemma creates_iff (inp : inputs) (v : bool) (w : world) :
  existsb is_create (effects_of inp v w)
  = gate_passes inp && is_text (token inp)
    && state_eqb (sessionState w) INACTIVE.
Proof.
  unfold effects_of. rewrite existsb_app, gate_creates_nothing. cbn [orb].
  assert (T : gate_throws inp = true -> gate_passes inp = false).
  { unfold gate_throws, gate_passes.
    destruct (quota inp) as [ e | [ | ] [ q | ] ]; try reflexivity;
      discriminate. }
  destruct (gate_throws inp).
  - rewrite (T eq_refl). apply cleanup_creates_nothing.
  - destruct (gate_passes inp); cbn [negb andb]; [ | reflexivity ].
    cbn [existsb is_create orb].
    destruct (token inp); cbn [is_text]; [ apply cleanup_creates_nothing | ].
    destruct (state_eqb (sessionState w) INACTIVE);
      [ reflexivity | apply cleanup_creates_nothing ].
Qed.

Lemma run_creates (inp : inputs) (v : bool) (w : world) :
  existsb is_create (new_effects w (snd (startSessionV2 inp v w)))
  = gate_passes inp && is_text (token inp)
    && state_eqb (sessionState w) INACTIVE.
Proof.
  rewrite startSessionV2_run. cbn [snd].
  rewrite (@new_effects_app w (world_after inp v w) (effects_of inp v w)
             (startSessionV2_effects inp v w)).
  apply creates_iff.
Qed.

(** ** The configurations sent to the SDK *)

Lemma created_config (inp : inputs) (v : bool) (w : world) (c : DeepClean.value) :
  In (CreateStartAvatar c) (effects_of inp v w) ->
  c = DeepClean.deepClean (config inp).
Proof.
  unfold effects_of. intro H. apply in_app_or in H.
  assert (Hc : forall w', ~ In (CreateStartAvatar c) (cleanup_effects w')).
  { intro w'. unfold cleanup_effects. destruct (streamReadyTimeoutRef w');
      [ intros [A | []]; discriminate | intros [] ]. }
  destruct H as [H | H].
  - exfalso. unfold gate_effects in H. destruct H as [H | H]; [ discriminate | ].
    destruct (quota inp) as [ e | [ | ] [ q | ] ]; try contradiction.
    destruct (credits q =? 0)%Z; [ destruct H as [H | []]; discriminate | ].
    destruct (credits q <? 2)%Z; [ destruct H as [H | []]; discriminate | ].
    contradiction.
  - destruct (gate_throws inp); [ now apply Hc in H | ].
    destruct (negb (gate_passes inp)); [ contradiction | ].
    destruct H as [H | H]; [ discriminate | ].
    destruct (token inp); [ now apply Hc in H | ].
    destruct (state_eqb (sessionState w) INACTIVE); [ | now apply Hc in H ].
    destruct H as [H | H]; [ now injection H | ].
    destruct (create inp); [ | now apply Hc in H ].
    destruct v; [ destruct H as [H | []]; discriminate | contradiction ].
Qed.

(** What [start] adds to the log. *)
Lemma start_log (cr : create_outcome) (cfg : DeepClean.value)
  (tok : option string) (w : world) :
  log (snd (start cr cfg tok w)) = log w
  \/ log (snd (start cr cfg tok w))
     = log w ++ [CreateStartAvatar (DeepClean.deepClean cfg)].
Proof.
  unfold start. cbv beta iota delta [bind modify ret gets throw].
  destruct (negb (state_eqb (sessionState w) INACTIVE)); [ now left | ].
  assert (H : forall w0 : world,
             log w0 = log w ->
             avatarRef w0 <> None ->
             log (snd
                    (match avatarRef w0 with
                     | Some _ =>
                         fun w1 : world =>
                           let (o1, w'1) :=
                             (Returned tt, setSessionState CONNECTING w1) in
                           match o1 with
                           | Returned _ =>
                               let (o2, w'2) :=
                                 (Returned tt,
                                  with_avatar (on_all start_registrations) w'1) in
                               match o2 with
                               | Returned _ =>
                                   let (o3, w'3) :=
                                     (Returned tt,
                                      perform
                                        (CreateStartAvatar
                                           (DeepClean.deepClean cfg)) w'2) in
                                   match o3 with
                                   | Returned _ =>
                                       match cr with
                                       | CreateResolves (Some i) =>
                                           if Js.truthy i
                                           then fun w2 : world =>
                                                  (Returned tt,
                                                   setSessionId (Some i) w2)
                                           else fun w2 : world => (Returned tt, w2)
                                       | CreateResolves None =>
                                           fun w2 : world => (Returned tt, w2)
                                       | CreateRejects e =>
                                           fun w2 : world =>
                                             (Thrown (rethrown e), w2)
                                       end w'3
                                   | Thrown e => (Thrown e, w'3)
                                   end
                               | Thrown e => (Thrown e, w'2)
                               end
                           | Thrown e => (Thrown e, w'1)
                           end
                     | None =>
                         fun w1 : world =>
                           (Thrown (Error "Avatar is not initialized"), w1)
                     end w0))
             = log w ++ [CreateStartAvatar (DeepClean.deepClean cfg)]).
  { intros w0 L A. destruct (avatarRef w0) eqn:Ea; [ | now contradiction A ].
    cbv beta iota.
    assert (L2 : log (with_avatar (on_all start_registrations)
                        (setSessionState CONNECTING w0)) = log w)
      by (rewrite (proj1 (with_avatar_log _ _)); exact L).
    destruct cr as [ [ i | ] | e ]; [ destruct (Js.truthy i) | | ];
      cbn [snd log perform setSessionId]; now rewrite L2. }
  destruct (avatarRef w) eqn:Ea.
  - right. apply H; [ reflexivity | now rewrite Ea ].
  - destruct tok as [ t | ]; [ | now left ].
    destruct (Js.truthy t); [ | now left ].
    right. apply H; [ reflexivity | discriminate ].
Qed.

Lemma stop_log (e : option JsError) (w : world) :
  log (snd (stop e w)) = log w \/ log (snd (stop e w)) = log w ++ [StopAvatar].
Proof.
  pose proof (stop_result e w) as H. cbv zeta in H. rewrite H.
  assert (L : log (stop_before_await w) = log w).
  { unfold stop_before_await, stopVoiceChat, with_avatar.
    destruct (avatarRef w) eqn:Ea; simpl; rewrite ?Ea; reflexivity. }
  destruct (avatarRef (stop_before_await w)); [ destruct e | ];
    cbn [log perform setSessionState]; rewrite L; auto.
Qed.

End SessionRunFacts.

Module SessionGuarantees.

Import Eff Session SessionRuns SessionFacts SessionRunFacts.

Lemma passing_gate_does_not_throw (inp : inputs) :
  gate_passes inp = true -> gate_throws inp = false.
Proof.
  unfold gate_throws, gate_passes.
  destruct (quota inp) as [ e | [ | ] [ q | ] ]; try reflexivity; discriminate.
Qed.

Lemma world_after_refused (inp : inputs) (v : bool) (w : world) (t : string) :
  state_eqb (sessionState w) INACTIVE = false ->
  gate_passes inp = true ->
  token inp = TokenText t ->
  world_after inp v w = cleaned_up (before_start v t (after_gate inp w)).
Proof.
  intros S G T. unfold world_after. cbv zeta.
  now rewrite (passing_gate_does_not_throw inp G), G, T, S.
Qed.

Lemma world_after_rejected (inp : inputs) (v : bool) (w : world) (t : string)
  (e : sdk_error) :
  state_eqb (sessionState w) INACTIVE = true ->
  gate_passes inp = true ->
  token inp = TokenText t ->
  create inp = CreateRejects e ->
  world_after inp v w
  = cleaned_up (create_called (config inp) (before_start v t (after_gate inp w))).
Proof.
  intros S G T C. unfold world_after. cbv zeta.
  now rewrite (passing_gate_does_not_throw inp G), G, T, S, C.
Qed.

Lemma state_eqb_neq (s : StreamingAvatarSessionState) :
  s <> INACTIVE -> state_eqb s INACTIVE = false.
Proof. destruct s; [ intro H; now contradiction H | reflexivity | reflexivity ]. Qed.

(** X13.  [startSessionV2] never throws, and it calls [createStartAvatar]
    exactly when the quota gate lets it pass (the quota response is not
    [ok], or it carries two credits or more, or one credit -- or a
    negative number -- and the user confirmed), the token request returned a
    text, and the session state is [INACTIVE]. *)
Theorem session_is_created_exactly_when (inp : inputs) (v : bool) (w : world) :
  fst (startSessionV2 inp v w) = Returned tt
  /\ existsb is_create (new_effects w (snd (startSessionV2 inp v w)))
     = gate_passes inp && is_text (token inp)
       && state_eqb (sessionState w) INACTIVE.
Proof.
  split; [ now rewrite startSessionV2_run | apply run_creates ].
Qed.

(** X14.  A [startSessionV2] that runs while a session is connecting or
    connected does not create a second session and leaves the state, the
    stream and the session id alone; but once it has a token it replaces
    the avatar handle by a new object, which carries only the ten logging
    listeners and none of the hook's, and overwrites the session token. *)
Theorem start_while_active_replaces_the_handle (inp : inputs) (v : bool)
  (w : world) (t : string) :
  sessionState w <> INACTIVE ->
  gate_passes inp = true ->
  token inp = TokenText t ->
  let w' := snd (startSessionV2 inp v w) in
  existsb is_create (new_effects w w') = false
  /\ sessionState w' = sessionState w
  /\ stream w' = stream w
  /\ sessionId w' = sessionId w
  /\ avatarRef w'
     = Some (mkAvatar (created w) (logging_listeners (mkAvatar (created w) [])))
  /\ sessionToken w' = Some t
  /\ registered (STREAM_READY, fn_handleStream) w' = false
  /\ registered (STREAM_DISCONNECTED, fn_stop) w' = false.
Proof.
  intros S G T. cbv zeta. apply state_eqb_neq in S.
  split.
  { rewrite run_creates, S. apply andb_false_r. }
  rewrite startSessionV2_run. cbn [snd].
  rewrite (@world_after_refused inp v w t S G T).
  destruct (after_gate_frame inp w) as [_ [A1 [A2 [A3 [_ [_ [A4 _]]]]]]].
  destruct (cleaned_up_frame (before_start v t (after_gate inp w)))
    as [_ [C1 [C2 [C3 [C4 [C5 _]]]]]].
  destruct (before_start_frame v t (after_gate inp w)) as [_ [_ [B1 [B2 B3]]]].
  destruct (before_start_state v t (after_gate inp w)) as [B4 B5].
  unfold registered. rewrite C1, C2, C3, C4, C5, B1, B2, B3, B4, B5, A1, A2, A3, A4.
  repeat split; reflexivity.
Qed.

Lemma start_while_active_replaces_the_handle_witness :
  let inp := inputs_with (quota_of 10) true in
  let w := snd (startSessionV2 inp true initial) in
  let w' := snd (startSessionV2 inp true w) in
  existsb is_create (new_effects w w') = false
  /\ sessionState w' = sessionState w
  /\ stream w' = stream w
  /\ sessionId w' = sessionId w
  /\ avatarRef w'
     = Some (mkAvatar (created w) (logging_listeners (mkAvatar (created w) [])))
  /\ sessionToken w' = Some "session-token"
  /\ registered (STREAM_READY, fn_handleStream) w' = false
  /\ registered (STREAM_DISCONNECTED, fn_stop) w' = false.
Proof.
  apply (@start_while_active_replaces_the_handle
           (inputs_with (quota_of 10) true) true
           (snd (startSessionV2 (inputs_with (quota_of 10) true) true initial))
           "session-token");
    [ vm_compute; discriminate | reflexivity | reflexivity ].
Defined.

(** X15.  When [createStartAvatar] rejects, [startSessionV2] swallows the
    error and the session stays in [CONNECTING], with the voice-chat flag
    reset: no later [startSessionV2], whatever its inputs, creates a
    session from that state, until [stop] has run. *)
Theorem rejected_create_leaves_connecting (inp : inputs) (v : bool)
  (w : world) (t : string) (e : sdk_error) :
  sessionState w = INACTIVE ->
  gate_passes inp = true ->
  token inp = TokenText t ->
  create inp = CreateRejects e ->
  let w' := snd (startSessionV2 inp v w) in
  fst (startSessionV2 inp v w) = Returned tt
  /\ sessionState w' = CONNECTING
  /\ stream w' = stream w
  /\ sessionId w' = sessionId w
  /\ shouldStartVoiceChatRef w' = false
  /\ (forall inp' v',
        existsb is_create (new_effects w' (snd (startSessionV2 inp' v' w')))
        = false)
  /\ sessionState (snd (stop None w')) = INACTIVE.
Proof.
  intros S G T C. cbv zeta.
  assert (S' : state_eqb (sessionState w) INACTIVE = true) by now rewrite S.
  rewrite startSessionV2_run. cbn [fst snd].
  rewrite (@world_after_rejected inp v w t e S' G T C).
  set (w1 := create_called (config inp) (before_start v t (after_gate inp w))).
  destruct (after_gate_frame inp w) as [_ [A1 [A2 [A3 _]]]].
  destruct (cleaned_up_frame w1) as [_ [C1 [C2 [C3 [_ [_ [C4 _]]]]]]].
  destruct (create_called_frame (config inp) (before_start v t (after_gate inp w)))
    as [_ [_ [D1 [D2 [D3 _]]]]].
  destruct (before_start_frame v t (after_gate inp w)) as [_ [_ [B1 [B2 _]]]].
  fold w1 in D1, D2, D3.
  split; [ reflexivity | ].
  split; [ now rewrite C1, D1 | ].
  split; [ now rewrite C2, D2, B1, A2 | ].
  split; [ now rewrite C3, D3, B2, A3 | ].
  split; [ exact C4 | ].
  split.
  - intros inp' v'.
    rewrite run_creates, C1, D1. apply andb_false_r.
  - apply (stop_resets (cleaned_up w1)).
Qed.

Lemma rejected_create_leaves_connecting_witness :
  let inp := Samples.rejecting_inputs in
  let w' := snd (startSessionV2 inp true initial) in
  fst (startSessionV2 inp true initial) = Returned tt
  /\ sessionState w' = CONNECTING
  /\ stream w' = stream initial
  /\ sessionId w' = sessionId initial
  /\ shouldStartVoiceChatRef w' = false
  /\ (forall inp' v',
        existsb is_create (new_effects w' (snd (startSessionV2 inp' v' w')))
        = false)
  /\ sessionState (snd (stop None w')) = INACTIVE.
Proof.
  apply (@rejected_create_leaves_connecting Samples.rejecting_inputs true initial
           "session-token"
           (mkSdkError network_failure None None None));
    reflexivity.
Defined.

End SessionGuarantees.

Module SessionInvariants.

Import Eff Session SessionRuns SessionFacts SessionRunFacts.

Lemma clean_grows (w w' : world) (added : list effect) :
  log w' = log w ++ added ->
  (forall c, In (CreateStartAvatar c) added ->
             exists cfg, c = DeepClean.deepClean cfg) ->
  clean_configs w -> clean_configs w'.
Proof.
  intros L A H c Hin. rewrite L in Hin. apply in_app_or in Hin.
  destruct Hin as [Hin | Hin]; [ now apply H | ].
  destruct (A c Hin) as [cfg ->].
  destruct (DeepCleanFacts.deepClean_settles cfg) as [I N]. now split.
Qed.

Lemma clean_same (w w' : world) :
  log w' = log w -> clean_configs w -> clean_configs w'.
Proof.
  intros L H. apply (@clean_grows w w' []); [ now rewrite app_nil_r | | exact H ].
  intros c [].
Qed.

Lemma run_action_clean (a : action) (w : world) :
  clean_configs w -> clean_configs (run_action a w).
Proof.
  intro H. destruct a as [ t | cr cfg tok | inp v | d | e | e ]; cbn [run_action].
  - now apply (@clean_same w).
  - destruct (start_log cr cfg tok w) as [L | L].
    + now apply (@clean_same w).
    + apply (@clean_grows w _ _ L); [ | exact H ].
      intros c [Hc | []]. injection Hc as <-. now exists cfg.
  - rewrite startSessionV2_run. cbn [snd].
    apply (@clean_grows w _ _ (startSessionV2_effects inp v w)); [ | exact H ].
    intros c Hc. exists (config inp). now apply (@created_config inp v w).
  - now apply (@clean_same w).
  - destruct (stop_log e w) as [L | L].
    + now apply (@clean_same w).
    + apply (@clean_grows w _ _ L); [ | exact H ]. intros c [Hc | []]. discriminate.
  - destruct (stop_log e w) as [L | L].
    + now apply (@clean_same w).
    + apply (@clean_grows w _ _ L); [ | exact H ]. intros c [Hc | []]. discriminate.
Qed.

(** X16.  In every reachable state, every configuration that was passed
    to [createStartAvatar] -- by [start] called directly or through
    [startSessionV2] -- has no key bound to [undefined] at any depth, and
    is a fixed point of [deepClean]. *)
Theorem created_configs_are_clean (w : world) :
  reachable w -> clean_configs w.
Proof.
  induction 1 as [ | a w Hw IH He ].
  - intros c [].
  - now apply run_action_clean.
Qed.

Lemma created_configs_are_clean_witness :
  clean_configs
    (run_action (StartSessionV2 (inputs_with (quota_of 10) true) true) initial).
Proof.
  apply (@created_configs_are_clean
           (run_action (StartSessionV2 (inputs_with (quota_of 10) true) true)
                       initial)).
  apply (@reach_step (StartSessionV2 (inputs_with (quota_of 10) true) true)
           initial reach_initial).
  reflexivity.
Defined.

(** ** [stop] *)





End SessionInvariants.

(* ===================================================================== *)
(** * The routes and their clients together *)
(* ===================================================================== *)

Module RouteFacts.

Import Eff Js Session SessionRuns SessionFacts SessionRunFacts Routes.

Lemma div60_is_zero (q : Z) :
  (q / 60 =? 0)%Z = ((0 <=? q)%Z && (q <? 60)%Z).
Proof.
  pose proof (Z.div_mod q 60 ltac:(lia)) as D.
  pose proof (Z.mod_pos_bound q 60 ltac:(lia)) as M.
  destruct (Z.eqb_spec (q / 60) 0), (Z.leb_spec 0 q), (Z.ltb_spec q 60);
    cbn [andb]; try reflexivity; exfalso; lia.
Qed.

Lemma div60_below_two (q : Z) : (q / 60 <? 2)%Z = (q <? 120)%Z.
Proof.
  pose proof (Z.div_mod q 60 ltac:(lia)) as D.
  pose proof (Z.mod_pos_bound q 60 ltac:(lia)) as M.
  destruct (Z.ltb_spec (q / 60) 2), (Z.ltb_spec q 120);
    try reflexivity; exfalso; lia.
Qed.

Lemma quota_route_status (key : option string) (quotaRes : upstream (option Z))
  (sessionsRes : upstream (option nat)) :
  (fst (quota_check_GET key quotaRes sessionsRes) = 500
   /\ snd (quota_check_GET key quotaRes sessionsRes) = mkQuota 0 0 0)
  \/ (fst (quota_check_GET key quotaRes sessionsRes) = 200
      /\ exists quota,
           quotaRes = Answers true (Some quota)
           /\ credits (snd (quota_check_GET key quotaRes sessionsRes))
              = (match quota with Some q => q | None => 0 end / 60)%Z).
Proof.
  unfold quota_check_GET. cbv zeta.
  destruct (falsy_opt key); [ now left | ].
  destruct quotaRes as [ e | [ | ] [ quota | ] ]; try (now left).
  destruct sessionsRes as [ e | [ | ] [ sessions | ] ]; try (now left);
    right; (split; [ reflexivity | ]); exists quota; now split.
Qed.

(** X19.  The pre-flight check in units of HeyGen quota.  When the quota
    route answers 200 for a remaining quota [q], [startSessionV2] is
    blocked with an alert for [0 <= q < 60], asks for confirmation for
    [60 <= q < 120] and for negative [q], and goes on silently from 120.
    When the route fails for any reason it answers 500, and the client goes
    on without asking although the body reports no credits. *)
Theorem preflight_in_quota_units (key : option string)
  (quotaRes : upstream (option Z)) (sessionsRes : upstream (option nat))
  (inp : inputs) (w : world) :
  quota inp = quota_via_route (quota_check_GET key quotaRes sessionsRes) ->
  (fst (quota_check_GET key quotaRes sessionsRes) = 500
   /\ quota_gate inp w = (Returned true, perform FetchQuota w))
  \/ (fst (quota_check_GET key quotaRes sessionsRes) = 200
      /\ exists q,
           (quotaRes = Answers true (Some (Some q))
            \/ quotaRes = Answers true (Some None) /\ q = 0%Z)
           /\ quota_gate inp w
              = if (0 <=? q)%Z && (q <? 60)%Z then
                  (Returned false, perform Alert (perform FetchQuota w))
                else if (q <? 120)%Z then
                  (Returned (confirm_answer inp),
                   perform Confirm (perform FetchQuota w))
                else (Returned true, perform FetchQuota w)).
Proof.
  intro H. unfold quota_via_route in H.
  destruct (quota_route_status key quotaRes sessionsRes)
    as [ [S B] | [S [quota [Q C]]] ].
  - left. split; [ exact S | ].
    unfold quota_gate, bind, modify. rewrite H, S. reflexivity.
  - right. split; [ exact S | ].
    exists (match quota with Some q => q | None => 0%Z end).
    split; [ destruct quota; [ now left | now right ] | ].
    unfold quota_gate, bind, modify. rewrite H, S. cbn [status_ok Nat.leb andb].
    change (status_ok 200) with true. cbv iota.
    rewrite C, div60_is_zero, div60_below_two.
    destruct ((0 <=? _)%Z && (_ <? 60)%Z); [ reflexivity | ].
    destruct (_ <? 120)%Z; reflexivity.
Qed.

Lemma preflight_in_quota_units_witness :
  let route := quota_check_GET (Some "key") (Answers true (Some (Some 90%Z)))
                               (Answers true (Some (Some 0))) in
  let inp := inputs_with (quota_via_route route) false in
  (fst route = 500
   /\ quota_gate inp initial = (Returned true, perform FetchQuota initial))
  \/ (fst route = 200
      /\ exists q,
           (Answers true (Some (Some 90%Z)) = Answers true (Some (Some q))
            \/ Answers true (Some (Some 90%Z)) = Answers true (Some None)
               /\ q = 0%Z)
           /\ quota_gate inp initial
              = if (0 <=? q)%Z && (q <? 60)%Z then
                  (Returned false, perform Alert (perform FetchQuota initial))
                else if (q <? 120)%Z then
                  (Returned (confirm_answer inp),
                   perform Confirm (perform FetchQuota initial))
                else (Returned true, perform FetchQuota initial)).
Proof.
  apply (@preflight_in_quota_units (Some "key")
           (Answers true (Some (Some 90%Z))) (Answers true (Some (Some 0)))
           (inputs_with
              (quota_via_route
                 (quota_check_GET (Some "key") (Answers true (Some (Some 90%Z)))
                                  (Answers true (Some (Some 0))))) false)
           initial).
  reflexivity.
Defined.

Lemma token_route_failure (key : option string) (res : upstream token_json) :
  fst (get_access_token_POST key res) = 500 ->
  snd (get_access_token_POST key res) = "Failed to retrieve access token".
Proof.
  unfold get_access_token_POST.
  destruct (falsy_opt key); [ reflexivity | ].
  destruct res as [ e | [ | ] [ [ | t ] | ] ]; try reflexivity.
  discriminate.
Qed.

(** X20.  A failed token request does not stop the session start.  The
    token route answers every failure with status 500 and the text "Failed
    to retrieve access token"; [fetchAccessToken] does not look at the
    status, so [startSessionV2] initialises the avatar with that text as
    its token and calls [createStartAvatar]. *)
Theorem failed_token_request_still_starts (key : option string)
  (res : upstream token_json) (inp : inputs) (v : bool) (w : world) :
  fst (get_access_token_POST key res) = 500 ->
  token inp = token_via_route (get_access_token_POST key res) ->
  gate_passes inp = true ->
  sessionState w = INACTIVE ->
  let w' := snd (startSessionV2 inp v w) in
  In (CreateStartAvatar (DeepClean.deepClean (config inp))) (new_effects w w')
  /\ sessionToken w' = Some "Failed to retrieve access token".
Proof.
  intros F T G S. cbv zeta. unfold token_via_route in T.
  rewrite (token_route_failure key res F) in T.
  rewrite startSessionV2_run. cbn [snd].
  rewrite (@new_effects_app w (world_after inp v w) (effects_of inp v w)
             (startSessionV2_effects inp v w)).
  assert (Gt : gate_throws inp = false).
  { unfold gate_throws, gate_passes in *.
    destruct (quota inp) as [ e | [ | ] [ q | ] ]; try reflexivity;
      discriminate. }
  split.
  - unfold effects_of. rewrite Gt, G, T, S. cbn [negb state_eqb].
    apply in_or_app. right. right. now left.
  - unfold world_after. cbv zeta. rewrite Gt, G, T, S. cbn [negb state_eqb].
    set (w1 := before_start v "Failed to retrieve access token" (after_gate inp w)).
    assert (B : sessionToken (create_called (config inp) w1)
                = Some "Failed to retrieve access token").
    { destruct (create_called_frame (config inp) w1) as [_ [_ [_ [_ [_ C]]]]].
      rewrite C. apply (before_start_frame v _ (after_gate inp w)). }
    destruct (create inp) as [ i | e ].
    + unfold with_timeout, with_session_id.
      destruct v; destruct i as [ i | ]; try destruct (truthy i); exact B.
    + destruct (cleaned_up_frame (create_called (config inp) w1))
        as [_ [_ [_ [_ [C _]]]]].
      now rewrite C.
Qed.

Lemma failed_token_request_still_starts_witness :
  let inp := mkInputs (quota_of 10) true
               (token_via_route (get_access_token_POST None (Rejects network_failure)))
               (CreateResolves (Some "session-1")) sample_config in
  let w' := snd (startSessionV2 inp true initial) in
  In (CreateStartAvatar (DeepClean.deepClean (config inp)))
     (new_effects initial w')
  /\ sessionToken w' = Some "Failed to retrieve access token".
Proof.
  apply (@failed_token_request_still_starts None (Rejects network_failure)
           (mkInputs (quota_of 10) true
              (token_via_route
                 (get_access_token_POST None (Rejects network_failure)))
              (CreateResolves (Some "session-1")) sample_config)
           true initial);
    reflexivity.
Defined.

(** X21.  Through the streaming-task route every failure looks the same
    to the client: the route answers 500 with a JSON body whatever went
    wrong (no API key, a rejected upstream request, an upstream status that
    is not [ok], an upstream body that is not JSON).  So for a live session
    and a non-empty text, [sendChunkToAvatar] sends its request once when
    HeyGen accepts the task, and otherwise exactly twice, 500 ms apart. *)
Theorem task_failures_are_retried_once (E : LLMChat.env) (chunk : string)
  (w : LLMChat.world) (key : option string) (res : upstream unit) :
  LLMChat.live E ->
  truthy chunk = true ->
  LLMChat.tts E (LLMChat.tts_requests w)
  = task_via_route (streaming_task_POST key (task_request E chunk) res) ->
  LLMChat.sendChunkToAvatar E chunk w
  = (Returned tt,
     if negb (falsy_opt key) && accepted res
     then LLMChat.requested chunk w
     else LLMChat.requested chunk
            (LLMChat.record (LLMChat.Sleep LLMChat.CHUNK_RETRY_DELAY)
               (LLMChat.requested chunk w))).
Proof.
  intros [L1 L2] Hc H.
  rewrite DispatchFacts.sendChunkToAvatar_with_session by now rewrite L1, L2.
  rewrite H. unfold task_via_route, streaming_task_POST, task_request.
  cbn [session_id text session_token LLMChat.retried negb orb].
  rewrite L1, L2. cbn [falsy_opt]. rewrite Hc. cbn [negb orb].
  destruct (falsy_opt key); [ reflexivity | ].
  destruct res as [ e | [ | ] [ [] | ] ]; reflexivity.
Qed.

Lemma task_failures_are_retried_once_witness :
  let E := LLMChat.mkEnv (Some "session-1") (Some "session-token")
             (fun _ => LLMChat.LlmRejects (Error "unused"))
             (fun _ => task_via_route
                         (streaming_task_POST (Some "key")
                            (Some (mkTaskBody (Some "session-1")
                                              (Some "Hello world.")
                                              (Some "session-token")))
                            (Answers false (Some tt))))
             true CONNECTED None in
  LLMChat.sendChunkToAvatar E "Hello world." LLMChat.world0
  = (Returned tt,
     if negb (falsy_opt (Some "key")) && accepted (Answers false (Some tt))
     then LLMChat.requested "Hello world." LLMChat.world0
     else LLMChat.requested "Hello world."
            (LLMChat.record (LLMChat.Sleep LLMChat.CHUNK_RETRY_DELAY)
               (LLMChat.requested "Hello world." LLMChat.world0))).
Proof.
  apply (@task_failures_are_retried_once
           (LLMChat.mkEnv (Some "session-1") (Some "session-token")
              (fun _ => LLMChat.LlmRejects (Error "unused"))
              (fun _ => task_via_route
                          (streaming_task_POST (Some "key")
                             (Some (mkTaskBody (Some "session-1")
                                               (Some "Hello world.")
                                               (Some "session-token")))
                             (Answers false (Some tt))))
              true CONNECTED None)
           "Hello world." LLMChat.world0 (Some "key") (Answers false (Some tt)));
    [ split; reflexivity | reflexivity | reflexivity ].
Defined.

End RouteFacts.

(* ===================================================================== *)
(** * More on the message history and on the voice trigger *)
(* ===================================================================== *)

Module HistoryGuarantees.

Import History HistoryFacts HistoryObs ListFacts.


(** A history is empty or has a last message. *)
Lemma history_cases (st : state) :
  messages st = [] \/ exists l m, messages st = l ++ [m].
Proof.
  destruct (messages st) as [ | x l ] using rev_ind; [ now left | right ].
  now exists l, x.
Qed.


Lemma talking_result (who : MessageSender) (now text : string) (st st' : state) :
  talking who now text st = Some st' ->
  (exists l m,
      messages st = l ++ [m]
      /\ messages st'
         = l ++ [mkMessage (id m) (sender m) (content m ++ text)%string false])
  \/ messages st' = messages st ++ [mkMessage now who text false].
Proof.
  unfold talking. intro H.
  destruct (currentSenderRef st) as [ cur | ];
    [ destruct (sender_eqb cur who) | ];
    try (injection H as <-; now right).
  unfold extend_last in H.
  destruct (last_message (messages st)) as [ m | ] eqn:L; [ | discriminate ].
  injection H as <-. left. exists (removelast (messages st)), m.
  split; [ now apply last_Some_inv | reflexivity ].
Qed.

(** X23.  The history is append-only between two clears: every event
    other than [clearMessages] keeps the messages before the last one as
    they are, keeps the id and the sender of every message in place, and
    adds at most one message, at the end. *)
Theorem history_is_append_only (e : event) (st st' : state) :
  apply e st = Some st' ->
  e <> Clear ->
  exists tail added,
    messages st' = removelast (messages st) ++ tail
    /\ map identity (messages st') = map identity (messages st) ++ added
    /\ List.length added <= 1.
Proof.
  intros H Hc.
  assert (Hsame : exists tail added,
             messages st = removelast (messages st) ++ tail
             /\ map identity (messages st) = map identity (messages st) ++ added
             /\ List.length added <= 1).
  { destruct (history_cases st) as [ E | [l [m E]] ]; rewrite E.
    - exists [], []. repeat split; try reflexivity; cbn [List.length]; lia.
    - exists [m], []. rewrite removelast_last, app_nil_r. repeat split; try reflexivity; cbn [List.length]; lia. }
  assert (Hext : forall l m m',
             messages st = l ++ [m] -> messages st' = l ++ [m'] ->
             identity m' = identity m ->
             exists tail added,
               messages st' = removelast (messages st) ++ tail
               /\ map identity (messages st') = map identity (messages st) ++ added
               /\ List.length added <= 1).
  { intros l m m' E E' I. exists [m'], [].
    rewrite E, E', removelast_last, !map_app, app_nil_r. cbn [map].
    rewrite I. repeat split; try reflexivity; cbn [List.length]; lia. }
  assert (Happ : forall m,
             messages st' = messages st ++ [m] ->
             exists tail added,
               messages st' = removelast (messages st) ++ tail
               /\ map identity (messages st') = map identity (messages st) ++ added
               /\ List.length added <= 1).
  { intros m E. destruct (history_cases st) as [ E0 | [l [x E0]] ].
    - exists [m], [identity m]. rewrite E, E0. repeat split; try reflexivity; cbn [List.length]; lia.
    - exists [x; m], [identity m].
      rewrite E, E0, removelast_last, map_app, <- app_assoc. repeat split; try reflexivity; cbn [List.length]; lia. }
  assert (Htalk : forall who now text,
             talking who now text st = Some st' ->
             exists tail added,
               messages st' = removelast (messages st) ++ tail
               /\ map identity (messages st') = map identity (messages st) ++ added
               /\ List.length added <= 1).
  { intros who now text Ht.
    destruct (talking_result _ _ _ _ Ht) as [ [l [m [E E']]] | E ].
    - now apply (Hext l m _ E E').
    - now apply (Happ _ E). }
  destruct e as [ now text | sup now text | | now who text | ]; cbn [apply] in H.
  - now apply (Htalk CLIENT now text).
  - unfold handleStreamingTalkingMessage in H. destruct sup.
    + injection H as <-. exact Hsame.
    + now apply (Htalk AVATAR now text).
  - injection H as <-. destruct (history_cases st) as [ E | [l [m E]] ].
    + unfold handleEndMessage. rewrite E. cbn [last_message map last messages].
      exists [], []. repeat split; try reflexivity; cbn [List.length]; lia.
    + apply (Hext l m (mkMessage (id m) (sender m) (content m) true) E);
        [ | reflexivity ].
      unfold handleEndMessage. rewrite E, last_message_snoc, removelast_last.
      reflexivity.
  - injection H as <-. now apply (Happ (mkMessage now who text true)).
  - now contradiction Hc.
Qed.

Lemma history_is_append_only_witness :
  exists tail added,
    messages (addTextMessage "2" AVATAR "Hello." (addTextMessage "1" CLIENT "Hi" initial))
    = removelast (messages (addTextMessage "1" CLIENT "Hi" initial)) ++ tail
    /\ map identity
         (messages (addTextMessage "2" AVATAR "Hello."
                      (addTextMessage "1" CLIENT "Hi" initial)))
       = map identity (messages (addTextMessage "1" CLIENT "Hi" initial)) ++ added
    /\ List.length added <= 1.
Proof.
  apply (@history_is_append_only (AddText "2" AVATAR "Hello.")
           (addTextMessage "1" CLIENT "Hi" initial)
           (addTextMessage "2" AVATAR "Hello."
              (addTextMessage "1" CLIENT "Hi" initial)));
    [ reflexivity | discriminate ].
Defined.

(** X24.  [addTextMessage] does not touch the tracker.  So when a message
    is added while a sender's transcript is open -- the answer of the LLM
    arriving while the user is speaking again -- the next partial transcript
    of that sender does not start a message of its own: it is appended to
    the message just added, whoever sent that, and marks it incomplete. *)
Theorem added_message_absorbs_the_next_partial (suppress : bool)
  (who other : MessageSender) (now now' text text' : string) (st : state) :
  currentSenderRef st = Some who ->
  (who = AVATAR -> suppress = false) ->
  partial suppress who now' text' (addTextMessage now other text st)
  = Some (mkState
            (messages st ++ [mkMessage now other (text ++ text')%string false])
            (Some who)).
Proof.
  intros T S. rewrite (@partial_not_suppressed suppress who now' text' _ S).
  unfold addTextMessage. rewrite T. apply talking_extends.
Qed.

Lemma added_message_absorbs_the_next_partial_witness :
  partial false CLIENT "1700000005000" " a cell?"
          (addTextMessage "1700000004000" AVATAR "Hello." user_speaking)
  = Some (mkState
            (messages user_speaking
               ++ [mkMessage "1700000004000" AVATAR ("Hello." ++ " a cell?")%string
                             false])
            (Some CLIENT)).
Proof.
  apply (@added_message_absorbs_the_next_partial false CLIENT AVATAR
           "1700000004000" "1700000005000" "Hello." " a cell?" user_speaking);
    [ reflexivity | discriminate ].
Defined.

(** X25.  No handler of the history throws on a history the handlers
    built: from every reachable state every event is handled, and the
    state it leaves is reachable again, with a last message whenever the
    tracker names a sender. *)
Theorem reducer_never_throws (st : state) (e : event) :
  reachable st ->
  exists st',
    apply e st = Some st'
    /\ reachable st'
    /\ (currentSenderRef st' <> None -> messages st' <> []).
Proof.
  intro R. destruct (@reachable_apply_total st e R) as [st' H].
  exists st'. split; [ exact H | ].
  assert (R' : reachable st') by (eapply reach_apply; eassumption).
  split; [ exact R' | apply (reachable_tracker R') ].
Qed.

Lemma reducer_never_throws_witness :
  exists st',
    apply (UserTalking "3" " there") (handleEndMessage user_speaking) = Some st'
    /\ reachable st'
    /\ (currentSenderRef st' <> None -> messages st' <> []).
Proof.
  apply (@reducer_never_throws (handleEndMessage user_speaking)
           (UserTalking "3" " there")).
  apply (@reach_apply EndMessage user_speaking _
           (@reach_apply (UserTalking "1700000000000" "What is") initial _
              reach_initial eq_refl) eq_refl).
Defined.

End HistoryGuarantees.

Module TriggerGuarantees.

Import VoiceTrigger VoiceTriggerFacts TriggerObs.

Lemma effect_adds (d : deps) (st : state) :
  effect d st = st
  \/ (eligible (Evaluate d) = true
      /\ exists m,
           Js.trim (content m) <> EmptyString
           /\ effect d st
              = mkState (Some (id m)) true
                        (invocations st ++ [(content m, true)])
                        (S (in_flight st))).
Proof.
  unfold effect, eligible.
  destruct (isVoiceChatActive d); cbn [negb orb andb]; [ | now left ].
  destruct (isLLMProcessing d); cbn [negb orb]; [ now left | ].
  destruct (processingRef st); [ now left | ].
  destruct (History.last_message (messages d)) as [ m | ]; [ | now left ].
  destruct (is_new_complete_client_message m st) eqn:N; [ | now left ].
  right. split; [ reflexivity | ]. exists m. split; [ | reflexivity ].
  unfold is_new_complete_client_message in N.
  apply andb_prop in N. destruct N as [N _].
  apply andb_prop in N. destruct N as [_ N].
  apply negb_true_iff in N. now apply String.eqb_neq.
Qed.

Lemma run_adds (events : list event) :
  forall st,
    exists more,
      invocations (run events st) = invocations st ++ more
      /\ Forall voice_call more
      /\ List.length more <= List.length (filter eligible events).
Proof.
  induction events as [ | e es IH ]; intro st.
  - exists []. cbn [run fold_left]. rewrite app_nil_r. now repeat split.
  - cbn [run fold_left]. fold (run es (step e st)).
    destruct (IH (step e st)) as [more [I [F L]]].
    destruct e as [ d | ].
    + cbn [step] in *. cbn [filter].
      destruct (effect_adds d st) as [ E | [El [m [Hm E]]] ].
      * rewrite E in I |- *. exists more. split; [ exact I | ]. split; [ exact F | ].
        destruct (eligible (Evaluate d)); cbn [List.length]; lia.
      * rewrite E in I |- *. cbn [invocations] in I. rewrite El.
        exists ((content m, true) :: more).
        split; [ now rewrite I, <- app_assoc | ].
        split; [ constructor; [ now split | exact F ] | ].
        cbn [List.length]. lia.
    + cbn [filter eligible]. exists more. split; [ | now split ].
      rewrite I. cbn [step]. now destruct (0 <? in_flight st).
Qed.

(** X26.  Whatever the sequence of evaluations of the effect and of
    completions of turns, from the initial state: at most one turn started
    by the trigger is in flight, and the processing flag is set exactly
    while one is; every call the trigger made is
    [sendToLLM(content, true)] with a transcript that is not blank; and the
    trigger made at most as many calls as there were evaluations with voice
    chat active and no turn shown as processing. *)
Theorem trigger_calls_are_guarded (events : list event) :
  let st := run events initial in
  in_flight st <= 1
  /\ (processingRef st = true <-> in_flight st = 1)
  /\ Forall voice_call (invocations st)
  /\ List.length (invocations st) <= List.length (filter eligible events).
Proof.
  cbv zeta.
  assert (G : guarded initial) by (right; now split).
  pose proof (run_guarded events G) as R.
  destruct (run_adds events initial) as [more [I [F L]]].
  cbn [invocations initial app] in I.
  split; [ destruct R as [[_ ->] | [_ ->]]; lia | ].
  split.
  - destruct R as [[-> ->] | [-> ->]]; split; try reflexivity; discriminate.
  - rewrite I. now split.
Qed.

End TriggerGuarantees.

(* ===================================================================== *)
(** * The avatar filter, the default configuration and the batches *)
(* ===================================================================== *)

Module AvatarFacts.

Import Js DeepClean AvatarFilter DefaultConfig.

Lemma prefix_app (a b s : string) :
  String.prefix (a ++ b) s = true -> String.prefix a s = true.
Proof.
  revert s. induction a as [ | c a IH ]; intros s H.
  - now destruct s.
  - destruct s as [ | d s ]; cbn [String.append String.prefix] in *;
      [ discriminate | ].
    destruct (Ascii.ascii_dec c d); [ now apply IH | discriminate ].
Qed.

(** A text that contains a keyword contains every prefix of the keyword. *)
Lemma includes_app (a b hay : string) :
  includes (a ++ b) hay = true -> includes a hay = true.
Proof.
  induction hay as [ | c hay IH ]; cbn [includes]; intro H.
  - destruct (String.prefix (a ++ b) EmptyString) eqn:P; [ | discriminate ].
    now rewrite (prefix_app a b _ P).
  - destruct (String.prefix (a ++ b) (String c hay)) eqn:P.
    + now rewrite (prefix_app a b _ P).
    + destruct (String.prefix a (String c hay)); [ reflexivity | now apply IH ].
Qed.

Lemma some_keyword_minimal (name : string) :
  some_keyword MEDICAL_KEYWORDS name = some_keyword MINIMAL_KEYWORDS name.
Proof.
  unfold some_keyword. set (hay := toLowerCase name).
  pose proof (includes_app "med" "ical" hay) as H1.
  pose proof (includes_app "health" "care" hay) as H2.
  pose proof (includes_app "clinic" "al" hay) as H3.
  cbn [String.append] in H1, H2, H3.
  apply eq_true_iff_eq. rewrite !existsb_exists. split.
  - intros [k [I K]].
    cbn [In MEDICAL_KEYWORDS] in I.
    repeat (destruct I as [ <- | I ];
            [ first [ exists "med"; split; [ cbn; tauto | now apply H1 ]
                    | exists "health"; split; [ cbn; tauto | now apply H2 ]
                    | exists "clinic"; split; [ cbn; tauto | now apply H3 ]
                    | eexists; split; [ | exact K ]; cbn; tauto ] | ]).
    contradiction.
  - intros [k [I K]]. exists k. split; [ | exact K ].
    cbn [In MINIMAL_KEYWORDS] in I. cbn [In MEDICAL_KEYWORDS].
    repeat (destruct I as [ <- | I ]; [ tauto | ]). contradiction.
Qed.

(** X27.  Three of the twenty keywords decide nothing: a name that
    contains "medical", "healthcare" or "clinical" contains "med", "health"
    or "clinic", so the filter keeps the same avatars, in the same order,
    with the other seventeen alone. *)
Theorem three_keywords_are_redundant (avatars : list HeyGenAvatar) :
  filterMedicalAvatars avatars = filter (keeps_with MINIMAL_KEYWORDS) avatars.
Proof.
  unfold filterMedicalAvatars. apply filter_ext. intro a. unfold keeps_with.
  destruct (pose_name a) as [ name | ]; [ | reflexivity ].
  now rewrite some_keyword_minimal.
Qed.

Section Config.

Variables AvatarQuality_Low VoiceEmotion_FRIENDLY VoiceChatTransport_WEBSOCKET
          STTProvider_DEEPGRAM : string.

Lemma first_option (avatars : list HeyGenAvatar) :
  config_for AvatarQuality_Low VoiceEmotion_FRIENDLY
     VoiceChatTransport_WEBSOCKET STTProvider_DEEPGRAM
     (getMedicalAvatarOptions avatars)
  = match find (keeps_with MEDICAL_KEYWORDS) avatars with
    | Some avatar =>
        createDefaultConfig AvatarQuality_Low VoiceEmotion_FRIENDLY
          VoiceChatTransport_WEBSOCKET STTProvider_DEEPGRAM
          (Some (avatar_id avatar)) (Some (default_voice avatar))
    | None =>
        createDefaultConfig AvatarQuality_Low VoiceEmotion_FRIENDLY
          VoiceChatTransport_WEBSOCKET STTProvider_DEEPGRAM None None
    end.
Proof.
  unfold getMedicalAvatarOptions, filterMedicalAvatars.
  induction avatars as [ | a rest IH ]; [ reflexivity | ].
  cbn [filter find]. destruct (keeps_with MEDICAL_KEYWORDS a); [ reflexivity | ].
  exact IH.
Qed.

(** X28.  The configuration the component prepares from the fetched
    avatars is the default configuration for the first avatar the filter
    keeps, with that avatar's id and voice, and the one with the empty name
    and voice when the filter keeps none; in both cases [deepClean] finds
    nothing to drop in it, so it is sent to the SDK as it was built. *)
Theorem default_config_names_the_first_kept_avatar (avatars : list HeyGenAvatar) :
  let config :=
    config_for AvatarQuality_Low VoiceEmotion_FRIENDLY
      VoiceChatTransport_WEBSOCKET STTProvider_DEEPGRAM
      (getMedicalAvatarOptions avatars) in
  config
  = createDefaultConfig AvatarQuality_Low VoiceEmotion_FRIENDLY
      VoiceChatTransport_WEBSOCKET STTProvider_DEEPGRAM
      (option_map avatar_id (find (keeps_with MEDICAL_KEYWORDS) avatars))
      (option_map default_voice (find (keeps_with MEDICAL_KEYWORDS) avatars))
  /\ deepClean config = config.
Proof.
  cbv zeta. rewrite first_option.
  destruct (find (keeps_with MEDICAL_KEYWORDS) avatars) as [ a | ];
    split; reflexivity.
Qed.

End Config.

End AvatarFacts.

Module BatchFacts.

Import LLMChat Js.

Lemma substring_all (s : string) : String.substring 0 (String.length s) s = s.
Proof.
  induction s as [ | c s IH ]; [ reflexivity | ].
  cbn [String.length String.substring]. now rewrite IH.
Qed.

(** [s.substring(0, n)] and [s.substring(n)] are the two parts of [s]. *)
Lemma substring_split (s : string) :
  forall n,
    (String.substring 0 n s ++ substring_from n s)%string = s.
Proof.
  unfold substring_from.
  induction s as [ | c s IH ]; intro n.
  - now destruct n.
  - destruct n as [ | n ].
    + cbn [String.substring String.append String.length Nat.sub].
      now rewrite substring_all.
    + cbn [String.substring String.append String.length Nat.sub].
      now rewrite IH.
Qed.

Lemma length_append (a b : string) :
  String.length (a ++ b) = String.length a + String.length b.
Proof.
  induction a as [ | c a IH ]; [ reflexivity | ].
  cbn [String.append String.length]. now rewrite IH.
Qed.

(** X29.  A batch loses no text: when the buffer is cut, the buffer is
    the text before the cut followed by the remaining text, what is sent is
    the text before the cut with its outer white space removed, it is not
    empty, and the remaining text is shorter than the buffer. *)
Theorem batch_splits_the_buffer (buf textToSend remainingText : string) :
  next_batch buf = Some (textToSend, remainingText) ->
  exists before,
    buf = (before ++ remainingText)%string
    /\ textToSend = trim before
    /\ textToSend <> EmptyString
    /\ String.length remainingText < String.length buf.
Proof.
  unfold next_batch. intro H.
  assert (Hcut : forall before,
             buf = (before ++ remainingText)%string ->
             textToSend = trim before ->
             (0 <? String.length textToSend) = true ->
             exists before',
               buf = (before' ++ remainingText)%string
               /\ textToSend = trim before'
               /\ textToSend <> EmptyString
               /\ String.length remainingText < String.length buf).
  { intros before Hb Ht Hl. exists before.
    apply Nat.ltb_lt in Hl.
    assert (Hn : textToSend <> EmptyString)
      by (intro Z; rewrite Z in Hl; cbn in Hl; lia).
    repeat split; try assumption.
    rewrite Hb, length_append.
    destruct before as [ | c before ];
      [ now rewrite Ht in Hn | cbn [String.length]; lia ]. }
  destruct ((0 <? lastSentenceEnd buf)%Z
            || (MAX_BUFFER_LENGTH <? String.length buf)); [ | discriminate ].
  destruct (0 <? lastSentenceEnd buf)%Z.
  - destruct (0 <? String.length
                     (trim (String.substring 0 (Z.to_nat (lastSentenceEnd buf)) buf)))
      eqn:L; [ | discriminate ].
    injection H as <- <-.
    apply (Hcut (String.substring 0 (Z.to_nat (lastSentenceEnd buf)) buf));
      [ now rewrite substring_split | reflexivity | exact L ].
  - destruct (0 <? String.length (trim buf)) eqn:L; [ | discriminate ].
    injection H as <- <-.
    apply (Hcut buf);
      [ now rewrite StringFacts.append_nil_r | reflexivity | exact L ].
Qed.

Lemma batch_splits_the_buffer_witness :
  exists before,
    "Hello world. How" = (before ++ "How")%string
    /\ "Hello world." = trim before
    /\ "Hello world." <> EmptyString
    /\ String.length "How" < String.length "Hello world. How".
Proof.
  apply (@batch_splits_the_buffer "Hello world. How" "Hello world." "How").
  vm_compute. reflexivity.
Defined.

End BatchFacts.

(* ===================================================================== *)
(** * The adapter factory, the route and the client *)
(* ===================================================================== *)

Module ChatClientFacts.

Import Eff Js LLMChat RoleMapping AdapterFactory ChatRoute ChatClient TurnEvents.
Import RetryFacts TurnFacts TurnOutcomeFacts.

Lemma or_default_truthy (a : option string) (text : string) :
  truthy text = true -> truthy (or_default a text) = true.
Proof.
  intro H. unfold or_default. destruct a as [ s | ]; [ | exact H ].
  destruct (truthy s) eqn:T; [ exact T | exact H ].
Qed.

Lemma or_default_fixed (s text : string) :
  truthy s = true -> or_default (Some s) text = s.
Proof. intro H. unfold or_default. now rewrite H. Qed.

(** The factory throws exactly in a misconfigured environment. *)
Lemma factory_throws (env : environment) :
  if misconfigured env
  then exists msg, createLLMAdapterFromEnv env = Thrown (LLMAdapterError msg)
  else exists a, createLLMAdapterFromEnv env = Returned a.
Proof.
  unfold misconfigured, createLLMAdapterFromEnv, createLLMAdapter. cbv zeta.
  cbn [provider].
  rewrite (@or_default_fixed _ "custom"
             (@or_default_truthy (LLM_PROVIDER env) "custom" eq_refl)).
  destruct (String.eqb (or_default (LLM_PROVIDER env) "custom") "custom").
  - unfold createCustomAdapter, or_else. cbn [customApiUrl customSystemPrompt falsy_opt].
    destruct (CUSTOM_LLM_API_URL env) as [ url | ]; cbn [falsy_opt];
      [ | eexists; reflexivity ].
    destruct (truthy url) eqn:T; cbn [negb]; [ | eexists; reflexivity ].
    unfold new_CustomBackendAdapter. rewrite T. eexists; reflexivity.
  - destruct (String.eqb (or_default (LLM_PROVIDER env) "custom") "openai");
      [ | eexists; reflexivity ].
    unfold createOpenAIAdapter, or_else.
    cbn [openAIApiKey openAIBaseURL openAIModel openAIOrganization falsy_opt].
    destruct (OPENAI_API_KEY env) as [ key | ]; cbn [falsy_opt];
      [ | eexists; reflexivity ].
    destruct (truthy key) eqn:T; cbn [negb]; [ | eexists; reflexivity ].
    unfold new_OpenAIAdapter. rewrite T. eexists; reflexivity.
Qed.

Section Route.

Variable JSON_parse : string -> option CustomBackend.SSEEvent.
Variable backend : string -> CustomBackend.backend_response.
Variable openai : OpenAIStream.sdk_response.

(** The route answers [500] exactly when the request cannot be read or the
    adapter cannot be built. *)
Lemma route_status (env : environment) (request : request_body) :
  ChatRoute.status (POST JSON_parse backend openai env request)
  = match request with
    | BodyRejects _ => 500
    | Body _ _ => if misconfigured env then 500 else 200
    end.
Proof.
  unfold POST. destruct request as [ e | message history ]; [ reflexivity | ].
  pose proof (factory_throws env) as H.
  destruct (misconfigured env).
  - destruct H as [msg ->]. reflexivity.
  - destruct H as [a ->].
    destruct (adapter_stream JSON_parse backend openai a _) as [yields thrown].
    now destruct (forward yields thrown).
Qed.

(** X30.  A chat route that cannot build its adapter costs every turn
    three requests: in a misconfigured environment the route answers [500]
    to every request, the client takes the status for a server error and
    retries after one and after two seconds, and after the third answer it
    reports the status, not the reason the route gave in the body, and
    speaks the apology if the avatar is connected. *)
Theorem misconfigured_route_costs_three_requests (env : environment)
  (request : nat -> request_body) (statusText : string) (E : LLMChat.env)
  (userMessage : string) (skip : bool) (w : world) :
  misconfigured env = true ->
  (forall n,
      llm E n
      = chat_via_route statusText (POST JSON_parse backend openai env (request n))) ->
  exists w',
    sendToLLM E userMessage skip w
    = (Returned (LLMChat.mkResponse false None
                   (Some (failure_message 500 statusText))), w')
    /\ trace w'
       = trace w ++ opening userMessage skip
           ++ [FetchChat userMessage; Sleep 1000;
               FetchChat userMessage; Sleep 2000; FetchChat userMessage]
           ++ [SetLLMError (Some (failure_message 500 statusText));
               SetCurrentLLMResponse EmptyString]
           ++ (if can_speak E then [Speak error_fallback] else [])
           ++ closing.
Proof.
  intros Hm Hllm.
  assert (Hfail : forall w0,
             attempt_body E userMessage w0
             = (Thrown (Error (failure_message 500 statusText)),
                asked userMessage w0)).
  { intro w0.
    apply (@attempt_not_ok E userMessage w0 500 statusText
             (Some (mkBody
                      (wire [sent (POST JSON_parse backend openai env
                                        (request (S (chat_requests w0))))])
                      None))); [ | reflexivity ].
    rewrite Hllm. unfold chat_via_route. rewrite route_status, Hm.
    now destruct (request (S (chat_requests w0))). }
  assert (Hretry : isRetryableError (Error (failure_message 500 statusText)) = true)
    by (apply server_error_is_retryable; lia).
  rewrite sendToLLM_unfold.
  change (seq 1 MAX_RETRY_ATTEMPTS) with [1; 2; 3].
  rewrite (@attempt_loop_retries E userMessage 1 [2; 3] None _ _ _
             (Hfail _) Hretry eq_refl).
  rewrite (@attempt_loop_retries E userMessage 2 [3] _ _ _ _
             (Hfail _) Hretry eq_refl).
  cbn [attempt_loop]. rewrite Hfail, Hretry.
  change (3 <? MAX_RETRY_ATTEMPTS) with false. cbn [andb].
  destruct (@after_loop_ends E (Error (failure_message 500 statusText))
              (asked userMessage
                 (record (Sleep (backoff 2))
                    (asked userMessage
                       (record (Sleep (backoff 1))
                          (asked userMessage (opened userMessage skip w)))))))
    as [w2 [Hafter T2]].
  rewrite Hafter.
  change (reported (Error (failure_message 500 statusText)))
    with (failure_message 500 statusText) in *.
  change (fallback (Error (failure_message 500 statusText)))
    with error_fallback in *.
  eexists. split; [ reflexivity | ].
  cbn [trace]. rewrite T2. cbn [asked record opened trace].
  change (backoff 1) with 1000%Z. change (backoff 2) with 2000%Z.
  now rewrite <- !app_assoc.
Qed.

End Route.

Lemma misconfigured_route_costs_three_requests_witness :
  let E :=
    live_env (fun _ =>
                chat_via_route "Internal Server Error"
                  (POST CustomBackend.sample_parse
                        (fun _ => CustomBackend.NoBody)
                        (OpenAIStream.CreateStreams [] None)
                        empty_environment (Body "Hi" []))) in
  exists w',
    sendToLLM E "Hi" true world0
    = (Returned (LLMChat.mkResponse false None
                   (Some (failure_message 500 "Internal Server Error"))), w')
    /\ trace w'
       = trace world0 ++ opening "Hi" true
           ++ [FetchChat "Hi"; Sleep 1000; FetchChat "Hi"; Sleep 2000;
               FetchChat "Hi"]
           ++ [SetLLMError (Some (failure_message 500 "Internal Server Error"));
               SetCurrentLLMResponse EmptyString]
           ++ (if can_speak E then [Speak error_fallback] else [])
           ++ closing.
Proof.
  apply (@misconfigured_route_costs_three_requests
           CustomBackend.sample_parse (fun _ => CustomBackend.NoBody)
           (OpenAIStream.CreateStreams [] None)
           empty_environment (fun _ => Body "Hi" []) "Internal Server Error");
    [ reflexivity | reflexivity ].
Defined.

End ChatClientFacts.
